(** * Faceblock: effect engine, photo pipeline and history manager

    A shallow embedding of the JavaScript sources

      - [js/effects.js]      (the ten blocking effects and their dispatch),
      - [js/canvas-utils.js] ([cloneCanvas]),
      - [js/processor.js]    ([processImage]),
      - [js/constants.js]    ([MANUAL_REGION_RATIO], [MAX_LOADED_CANVASES]),
      - [js/app.js]          (photo state, eviction, handlers, undo/redo),
      - [js/ui.js]           (pointer handling on the overlay canvas),

    followed by the properties of the specification, stated over it.

    Conventions of the embedding.

      - A JavaScript number is an exact rational ([Q]); integral values that
        index arrays or size canvases are [Z].  Arithmetic is exact, so the
        rounding of IEEE doubles is idealised away.
      - Objects live in explicit state: canvases in a heap addressed by
        references, [Math.random] as a stream of draws, the [state] object of
        the controller and the module state of the UI as records.
      - Code that can throw runs in a state-and-exception monad; an event
        handler that throws leaves the state it had reached.
      - The Canvas 2D rasteriser, [Math.sqrt]/[Math.cos]/[Math.sin] and the
        face detector belong to the browser, not to the repository: they are
        interfaces (type classes) with a small reference instance. *)

From Stdlib Require Import ZArith QArith Qround Qminmax Qabs.
From Stdlib Require Import List String Ascii Bool Lia Lqa Psatz.
From Stdlib Require Import Permutation Sorted FunctionalExtensionality.
From Stdlib Require DecimalString DecimalZ.
Import ListNotations.

Set Implicit Arguments.
Local Open Scope Z_scope.

(** ** JavaScript numbers *)

Module Math.

Definition max (a b : Q) : Q := Qmax a b.
Definition min (a b : Q) : Q := Qmin a b.
Definition floor (a : Q) : Z := Qfloor a.
Definition ceil (a : Q) : Z := Qceiling a.

(** [Math.round] rounds half-way cases towards plus infinity. *)
Definition round (a : Q) : Z := Qfloor (a + (1 # 2)).

End Math.

(** Comparison operators of JavaScript on numbers, as booleans. *)
Definition Qltb (a b : Q) : bool := negb (Qle_bool b a).
Definition Qgeb (a b : Q) : bool := Qle_bool b a.
Definition Qgtb (a b : Q) : bool := negb (Qle_bool a b).

Notation "a <? b" := (Qltb a b) : Q_scope.
Notation "a <=? b" := (Qle_bool a b) : Q_scope.
Notation "a >? b" := (Qgtb a b) : Q_scope.
Notation "a >=? b" := (Qgeb a b) : Q_scope.

(** Decimal rendering of an integer inside a template string. *)
Definition decimal (n : Z) : string :=
  DecimalString.NilZero.string_of_int (Z.to_int n).

(** ** The state-and-exception monad *)

Inductive JsError : Type :=
| IndexSizeError
| TypeError
| Rejected (reason : string).

Inductive Outcome (S A : Type) : Type :=
| Returned (a : A) (s : S)
| Thrown (e : JsError) (s : S).

Arguments Returned {S A} a s.
Arguments Thrown {S A} e s.

Definition SE (S A : Type) : Type := S -> Outcome S A.

Definition ret {S A} (a : A) : SE S A := fun s => Returned a s.

Definition bind {S A B} (m : SE S A) (k : A -> SE S B) : SE S B :=
  fun s =>
    match m s with
    | Returned a s' => k a s'
    | Thrown e s' => Thrown e s'
    end.

Definition throw {S A} (e : JsError) : SE S A := fun s => Thrown e s.
Definition get {S} : SE S S := fun s => Returned s s.
Definition gets {S A} (f : S -> A) : SE S A := fun s => Returned (f s) s.
Definition modify {S} (f : S -> S) : SE S unit := fun s => Returned tt (f s).

(** [try { m } catch (e) { h e }]. *)
Definition try_catch {S A} (m : SE S A) (h : JsError -> SE S A) : SE S A :=
  fun s =>
    match m s with
    | Returned a s' => Returned a s'
    | Thrown e s' => h e s'
    end.

(** The state an outcome ends in, whether it returned or threw. *)
Definition final {S A} (o : Outcome S A) : S :=
  match o with
  | Returned _ s => s
  | Thrown _ s => s
  end.

Declare Scope se_scope.
Delimit Scope se_scope with se.
Notation "x <- m ;; k" := (bind m (fun x => k))
  (at level 61, m at next level, right associativity) : se_scope.
Notation "m ;; k" := (bind m (fun _ => k))
  (at level 61, right associativity) : se_scope.
Local Open Scope se_scope.

(** [for (const a of l) body], threading an accumulator. *)
Fixpoint foldM {S A B} (body : B -> A -> SE S B) (l : list A) (b : B) : SE S B :=
  match l with
  | [] => ret b
  | a :: l' => b' <- body b a ;; foldM body l' b'
  end.

Fixpoint forM_ {S A} (l : list A) (body : A -> SE S unit) : SE S unit :=
  match l with
  | [] => ret tt
  | a :: l' => body a ;; forM_ l' body
  end.

(** The integers [lo, lo+1, ..., hi-1] of a counting loop. *)
Definition range (lo hi : Z) : list Z :=
  map (fun k => lo + Z.of_nat k) (seq 0 (Z.to_nat (hi - lo))).

(** ** Geometry and the region model *)

Module Box.
Record t : Type := mk { x : Q; y : Q; width : Q; height : Q }.
End Box.

Module Point.
Record t : Type := mk { x : Q; y : Q }.
End Point.

(** [landmarks] is [null] or an object [{ positions: [...] }]. *)
Definition Landmarks : Type := option (list Point.t).

(** The [options] object: [{ emoji, color }], either property may be
    undefined. *)
Module Options.
Record t : Type := mk { emoji : option string; color : option string }.
End Options.

(** A face region.  [effectId], [intensity] and [options] are the optional
    per-region overrides. *)
Module Face.
Record t : Type := mk {
  id : string;
  box : Box.t;
  score : Q;
  landmarks : Landmarks;
  manual : bool;
  effectId : option string;
  intensity : option Q;
  options : option Options.t
}.
End Face.

(** ** Bitmaps and [ImageData]

    A bitmap is [width * height] pixels of four bytes each, row major, the
    layout of [ImageData.data].  Reading a typed array out of range yields
    [undefined], which stores as 0; writing out of range does nothing. *)

Definition aget (l : list Z) (i : Z) : Z :=
  if i <? 0 then 0 else nth (Z.to_nat i) l 0.

Fixpoint list_set {A} (l : list A) (n : nat) (a : A) : list A :=
  match l, n with
  | [], _ => []
  | _ :: l', O => a :: l'
  | b :: l', S n' => b :: list_set l' n' a
  end.

Definition aset (l : list Z) (i : Z) (v : Z) : list Z :=
  if i <? 0 then l else list_set l (Z.to_nat i) v.

(** [l.map((v, p) => f(p, v))] *)
Fixpoint mapi_from {A B} (f : Z -> A -> B) (p : Z) (l : list A) : list B :=
  match l with
  | [] => []
  | a :: l' => f p a :: mapi_from f (p + 1) l'
  end.

Definition mapi {A B} (f : Z -> A -> B) (l : list A) : list B := mapi_from f 0 l.

Module Bitmap.

Record t : Type := mk { width : Z; height : Z; data : list Z }.

Definition blank (w h : Z) : t := mk w h (repeat 0 (Z.to_nat (4 * w * h))).

Arguments blank : simpl never.

Definition inside (b : t) (i j : Z) : bool :=
  (0 <=? i) && (i <? width b) && (0 <=? j) && (j <? height b).

Definition channel (b : t) (i j k : Z) : Z :=
  if inside b i j then aget (data b) (4 * (j * width b + i) + k) else 0.

Definition getPixel (b : t) (i j : Z) : Z * Z * Z * Z :=
  (channel b i j 0, channel b i j 1, channel b i j 2, channel b i j 3).

(** [ctx.getImageData(sx, sy, sw, sh)] for positive [sw], [sh]: pixels
    outside the canvas read as transparent black. *)
Definition getImageData (b : t) (sx sy sw sh : Z) : t :=
  mk sw sh
     (map (fun p => channel b (sx + (p / 4) mod sw) (sy + (p / 4) / sw) (p mod 4))
          (range 0 (4 * sw * sh))).

(** [ctx.putImageData(img, dx, dy)]: every pixel of [img] that falls on the
    canvas replaces the pixel there; clip, filter and compositing do not
    apply. *)
Definition putImageData (b img : t) (dx dy : Z) : t :=
  mk (width b) (height b)
     (mapi (fun p old =>
              let i := (p / 4) mod width b in
              let j := (p / 4) / width b in
              if (dx <=? i) && (i <? dx + width img) &&
                 (dy <=? j) && (j <? dy + height img)
              then aget (data img) (4 * ((j - dy) * width img + (i - dx)) + p mod 4)
              else old)
           (data b)).

End Bitmap.

(** ** The Canvas 2D drawing model *)

(** A CSS colour as the code writes it: a literal string such as
    ["#000000"] or a colour picked by the user, the template
    [rgb(${r},${g},${b})], or [rgba(r,g,b,a)]. *)
Inductive Style : Type :=
| Css (s : string)
| CssRgb (r g b : Z)
| CssRgba (r g b : Z) (a : Q).

(** [`${size}px serif`], or the initial ["10px sans-serif"]. *)
Inductive Font : Type :=
| FontDefault
| FontPxSerif (size : Q).

Inductive Filter : Type :=
| FilterNone
| FilterBlur (px : Z).

(** Path segments.  [ctx.ellipse] is only ever called with rotation 0 and
    the full sweep [0 .. 2 * Math.PI]. *)
Inductive PathSeg : Type :=
| MoveTo (x y : Q)
| LineTo (x y : Q)
| QuadraticCurveTo (cpx cpy x y : Q)
| EllipseArc (cx cy rx ry : Q)
| ClosePath.

Definition Path : Type := list PathSeg.

(** What reaches the rasteriser: the primitive together with the drawing
    state it is painted under. *)
Inductive DrawOp : Type :=
| DFillRect (style : Style) (clip : list Path) (x y w h : Q)
| DFill (style : Style) (clip : list Path) (path : Path)
| DFillText (style : Style) (clip : list Path) (font : Font)
            (align baseline : string) (text : string) (x y : Q)
| DImage (clip : list Path) (filter : option Filter) (smoothing : bool)
         (src : Bitmap.t) (sx sy sw sh dx dy dw dh : Q)
| DPutImageData (img : Bitmap.t) (dx dy : Z).

(** *** Extents

    A bounding box; a pixel [(i, j)] occupies the unit square
    [[i, i+1] x [j, j+1]] and is outside a box when the square does not meet
    its interior. *)
Module BBox.
Record t : Type := mk { x0 : Q; y0 : Q; x1 : Q; y1 : Q }.
End BBox.

Definition pixel_outside (i j : Z) (b : BBox.t) : Prop :=
  (inject_Z (i + 1) <= BBox.x0 b \/ BBox.x1 b <= inject_Z i \/
   inject_Z (j + 1) <= BBox.y0 b \/ BBox.y1 b <= inject_Z j)%Q.

Definition rect_bbox (x y w h : Q) : BBox.t :=
  BBox.mk (Qmin x (x + w)) (Qmin y (y + h)) (Qmax x (x + w)) (Qmax y (y + h)).

Definition seg_points (s : PathSeg) : list (Q * Q) :=
  match s with
  | MoveTo x y => [(x, y)]
  | LineTo x y => [(x, y)]
  | QuadraticCurveTo cpx cpy x y => [(cpx, cpy); (x, y)]
  | EllipseArc cx cy rx ry => [(cx - rx, cy - ry); (cx + rx, cy + ry)]%Q
  | ClosePath => []
  end.

Definition path_points (p : Path) : list (Q * Q) := flat_map seg_points p.

(** The hull of no point is the empty box. *)
Fixpoint hull (pts : list (Q * Q)) : BBox.t :=
  match pts with
  | [] => BBox.mk 0 0 0 0
  | [(x, y)] => BBox.mk x y x y
  | (x, y) :: rest =>
      let b := hull rest in
      BBox.mk (Qmin x (BBox.x0 b)) (Qmin y (BBox.y0 b))
              (Qmax x (BBox.x1 b)) (Qmax y (BBox.y1 b))
  end.

Definition path_bbox (p : Path) : BBox.t := hull (path_points p).

Definition clipped_away (i j : Z) (clip : list Path) : Prop :=
  exists c, In c clip /\ pixel_outside i j (path_bbox c).

(** [untouched_by op i j]: the Canvas 2D semantics guarantee that drawing
    [op] leaves pixel [(i, j)] as it was.  A blurred image spreads past its
    destination rectangle, and the ink of a glyph depends on the font, so
    only the clip confines those. *)
Definition untouched_by (op : DrawOp) (i j : Z) : Prop :=
  match op with
  | DFillRect _ clip x y w h =>
      pixel_outside i j (rect_bbox x y w h) \/ clipped_away i j clip
  | DFill _ clip path =>
      pixel_outside i j (path_bbox path) \/ clipped_away i j clip
  | DFillText _ clip _ _ _ _ _ _ => clipped_away i j clip
  | DImage clip filter _ _ _ _ _ _ dx dy dw dh =>
      (match filter with Some (FilterBlur _) => False | _ => True end /\
       pixel_outside i j (rect_bbox dx dy dw dh)) \/ clipped_away i j clip
  | DPutImageData img dx dy =>
      ~ (dx <= i < dx + Bitmap.width img /\ dy <= j < dy + Bitmap.height img)
  end.

(** The rasteriser of the browser. *)
Class Rasteriser : Type := {
  (** whether [ctx.filter] exists (it does not in every browser) *)
  supportsFilter : bool;
  rasterise : Bitmap.t -> DrawOp -> Bitmap.t;
  rasterise_width : forall b op, Bitmap.width (rasterise b op) = Bitmap.width b;
  rasterise_height : forall b op, Bitmap.height (rasterise b op) = Bitmap.height b;
  rasterise_frame : forall b op i j,
      untouched_by op i j ->
      Bitmap.getPixel (rasterise b op) i j = Bitmap.getPixel b i j
}.

(** [Math.PI], [Math.sqrt], [Math.cos], [Math.sin]: library functions on
    doubles, which are rationals. *)
Class MathLib : Type := {
  PI : Q;
  sqrt : Q -> Q;
  cos : Q -> Q;
  sin : Q -> Q
}.

(** ** Canvas objects and the graphics state *)

(** The drawing state of a [CanvasRenderingContext2D], the part that
    [save]/[restore] stack.  [filter = None] is a context without the
    [filter] property. *)
Module Ctx.
Record t : Type := mk {
  fillStyle : Style;
  font : Font;
  textAlign : string;
  textBaseline : string;
  filter : option Filter;
  imageSmoothingEnabled : bool;
  clip : list Path
}.
End Ctx.

(** An [HTMLCanvasElement] with its 2D context.  [log] records the drawing
    operations performed on it, oldest first; it is ghost state. *)
Module Canvas.
Record t : Type := mk {
  bitmap : Bitmap.t;
  ctx : Ctx.t;
  saved : list Ctx.t;
  path : Path;
  log : list DrawOp
}.
Definition width (c : t) : Z := Bitmap.width (bitmap c).
Definition height (c : t) : Z := Bitmap.height (bitmap c).
End Canvas.

(** [Math.random]: the draws still to come. *)
Module Rng.
Record t : Type := mk { draws : nat -> Q; next : nat }.
End Rng.

(** A reference to a canvas object. *)
Definition Ref : Type := nat.

(** The graphics state: the canvas objects allocated so far ([cells] below
    [size]) and the random source. *)
Module Gfx.
Record t : Type := mk { cells : Ref -> Canvas.t; size : nat; rng : Rng.t }.
End Gfx.

Definition upd (h : Ref -> Canvas.t) (r : Ref) (c : Canvas.t) : Ref -> Canvas.t :=
  fun r' => if Nat.eqb r' r then c else h r'.

Definition G (A : Type) : Type := SE Gfx.t A.

Section Engine.

Context {R : Rasteriser} {ML : MathLib}.

Definition initial_ctx : Ctx.t :=
  Ctx.mk (Css "#000000") FontDefault "start" "alphabetic"
         (if supportsFilter then Some FilterNone else None) true [].

Definition fresh_canvas (w h : Z) : Canvas.t :=
  Canvas.mk (Bitmap.blank w h) initial_ctx [] [] [].

Definition lookup (r : Ref) : G Canvas.t := gets (fun g => Gfx.cells g r).

Definition update_canvas (r : Ref) (f : Canvas.t -> Canvas.t) : G unit :=
  modify (fun g =>
    Gfx.mk (upd (Gfx.cells g) r (f (Gfx.cells g r))) (Gfx.size g) (Gfx.rng g)).

Definition update_ctx (r : Ref) (f : Ctx.t -> Ctx.t) : G unit :=
  update_canvas r (fun c =>
    Canvas.mk (Canvas.bitmap c) (f (Canvas.ctx c)) (Canvas.saved c)
              (Canvas.path c) (Canvas.log c)).

(** [Math.random()] *)
Definition random : G Q :=
  fun g =>
    let r := Gfx.rng g in
    Returned (Rng.draws r (Rng.next r))
             (Gfx.mk (Gfx.cells g) (Gfx.size g)
                     (Rng.mk (Rng.draws r) (S (Rng.next r)))).

(** [document.createElement("canvas")]: a new 300 x 150 canvas. *)
Definition createElement_canvas : G Ref :=
  fun g =>
    Returned (Gfx.size g)
             (Gfx.mk (upd (Gfx.cells g) (Gfx.size g) (fresh_canvas 300 150))
                     (S (Gfx.size g)) (Gfx.rng g)).

(** [canvas.width = w] and [canvas.height = h] clear the bitmap and reset
    the context. *)
Definition set_width (r : Ref) (w : Z) : G unit :=
  update_canvas r (fun c =>
    Canvas.mk (Bitmap.blank w (Canvas.height c)) initial_ctx [] [] (Canvas.log c)).

Definition set_height (r : Ref) (h : Z) : G unit :=
  update_canvas r (fun c =>
    Canvas.mk (Bitmap.blank (Canvas.width c) h) initial_ctx [] [] (Canvas.log c)).

(** *** Context methods *)

Definition save (r : Ref) : G unit :=
  update_canvas r (fun c =>
    Canvas.mk (Canvas.bitmap c) (Canvas.ctx c) (Canvas.ctx c :: Canvas.saved c)
              (Canvas.path c) (Canvas.log c)).

Definition restore (r : Ref) : G unit :=
  update_canvas r (fun c =>
    match Canvas.saved c with
    | [] => c
    | s :: rest =>
        Canvas.mk (Canvas.bitmap c) s rest (Canvas.path c) (Canvas.log c)
    end).

Definition set_path (r : Ref) (f : Path -> Path) : G unit :=
  update_canvas r (fun c =>
    Canvas.mk (Canvas.bitmap c) (Canvas.ctx c) (Canvas.saved c)
              (f (Canvas.path c)) (Canvas.log c)).

Definition beginPath (r : Ref) : G unit := set_path r (fun _ => []).
Definition moveTo (r : Ref) (x y : Q) : G unit :=
  set_path r (fun p => p ++ [MoveTo x y]).
Definition lineTo (r : Ref) (x y : Q) : G unit :=
  set_path r (fun p => p ++ [LineTo x y]).
Definition quadraticCurveTo (r : Ref) (cpx cpy x y : Q) : G unit :=
  set_path r (fun p => p ++ [QuadraticCurveTo cpx cpy x y]).
Definition closePath (r : Ref) : G unit :=
  set_path r (fun p => p ++ [ClosePath]).

(** [ctx.ellipse(cx, cy, rx, ry, 0, 0, Math.PI * 2)]; a negative radius is
    an [IndexSizeError]. *)
Definition ellipse (r : Ref) (cx cy rx ry : Q) : G unit :=
  if (rx <? 0)%Q || (ry <? 0)%Q then throw IndexSizeError
  else set_path r (fun p => p ++ [EllipseArc cx cy rx ry]).

(** [ctx.clip()] intersects the clip with the current path. *)
Definition clip (r : Ref) : G unit :=
  c <- lookup r ;;
  update_ctx r (fun s =>
    Ctx.mk (Ctx.fillStyle s) (Ctx.font s) (Ctx.textAlign s) (Ctx.textBaseline s)
           (Ctx.filter s) (Ctx.imageSmoothingEnabled s)
           (Canvas.path c :: Ctx.clip s)).

Definition set_fillStyle (r : Ref) (v : Style) : G unit :=
  update_ctx r (fun s =>
    Ctx.mk v (Ctx.font s) (Ctx.textAlign s) (Ctx.textBaseline s)
           (Ctx.filter s) (Ctx.imageSmoothingEnabled s) (Ctx.clip s)).

Definition set_font (r : Ref) (v : Font) : G unit :=
  update_ctx r (fun s =>
    Ctx.mk (Ctx.fillStyle s) v (Ctx.textAlign s) (Ctx.textBaseline s)
           (Ctx.filter s) (Ctx.imageSmoothingEnabled s) (Ctx.clip s)).

Definition set_textAlign (r : Ref) (v : string) : G unit :=
  update_ctx r (fun s =>
    Ctx.mk (Ctx.fillStyle s) (Ctx.font s) v (Ctx.textBaseline s)
           (Ctx.filter s) (Ctx.imageSmoothingEnabled s) (Ctx.clip s)).

Definition set_textBaseline (r : Ref) (v : string) : G unit :=
  update_ctx r (fun s =>
    Ctx.mk (Ctx.fillStyle s) (Ctx.font s) (Ctx.textAlign s) v
           (Ctx.filter s) (Ctx.imageSmoothingEnabled s) (Ctx.clip s)).

(** Assigning [ctx.filter] where the property does not exist has no effect
    on drawing. *)
Definition set_filter (r : Ref) (v : Filter) : G unit :=
  update_ctx r (fun s =>
    Ctx.mk (Ctx.fillStyle s) (Ctx.font s) (Ctx.textAlign s) (Ctx.textBaseline s)
           (match Ctx.filter s with Some _ => Some v | None => None end)
           (Ctx.imageSmoothingEnabled s) (Ctx.clip s)).

Definition set_imageSmoothingEnabled (r : Ref) (v : bool) : G unit :=
  update_ctx r (fun s =>
    Ctx.mk (Ctx.fillStyle s) (Ctx.font s) (Ctx.textAlign s) (Ctx.textBaseline s)
           (Ctx.filter s) v (Ctx.clip s)).

(** *** Drawing *)

Definition render (b : Bitmap.t) (op : DrawOp) : Bitmap.t :=
  match op with
  | DPutImageData img dx dy => Bitmap.putImageData b img dx dy
  | _ => rasterise b op
  end.

Definition draw (r : Ref) (op : DrawOp) : G unit :=
  update_canvas r (fun c =>
    Canvas.mk (render (Canvas.bitmap c) op) (Canvas.ctx c) (Canvas.saved c)
              (Canvas.path c) (Canvas.log c ++ [op])).

Definition fillRect (r : Ref) (x y w h : Q) : G unit :=
  c <- lookup r ;;
  draw r (DFillRect (Ctx.fillStyle (Canvas.ctx c)) (Ctx.clip (Canvas.ctx c)) x y w h).

Definition fill (r : Ref) : G unit :=
  c <- lookup r ;;
  draw r (DFill (Ctx.fillStyle (Canvas.ctx c)) (Ctx.clip (Canvas.ctx c))
                (Canvas.path c)).

Definition fillText (r : Ref) (text : string) (x y : Q) : G unit :=
  c <- lookup r ;;
  let s := Canvas.ctx c in
  draw r (DFillText (Ctx.fillStyle s) (Ctx.clip s) (Ctx.font s)
                    (Ctx.textAlign s) (Ctx.textBaseline s) text x y).

(** [ctx.drawImage(source, sx, sy, sw, sh, dx, dy, dw, dh)] *)
Definition drawImage9 (r : Ref) (source : Ref) (sx sy sw sh dx dy dw dh : Q) : G unit :=
  c <- lookup r ;;
  src <- lookup source ;;
  let s := Canvas.ctx c in
  draw r (DImage (Ctx.clip s) (Ctx.filter s) (Ctx.imageSmoothingEnabled s)
                 (Canvas.bitmap src) sx sy sw sh dx dy dw dh).

(** [ctx.drawImage(source, dx, dy)] *)
Definition drawImage3 (r : Ref) (source : Ref) (dx dy : Q) : G unit :=
  src <- lookup source ;;
  let w := inject_Z (Canvas.width src) in
  let h := inject_Z (Canvas.height src) in
  drawImage9 r source 0 0 w h dx dy w h.

(** [ctx.getImageData(sx, sy, sw, sh)]; a zero width or height is an
    [IndexSizeError]. *)
Definition getImageData (r : Ref) (sx sy sw sh : Z) : G Bitmap.t :=
  if (sw =? 0) || (sh =? 0) then throw IndexSizeError
  else
    c <- lookup r ;;
    ret (Bitmap.getImageData (Canvas.bitmap c) sx sy sw sh).

Definition createImageData (sw sh : Z) : G Bitmap.t :=
  if (sw =? 0) || (sh =? 0) then throw IndexSizeError
  else ret (Bitmap.blank sw sh).

Definition putImageData (r : Ref) (img : Bitmap.t) (dx dy : Z) : G unit :=
  draw r (DPutImageData img dx dy).

(** ** js/effects.js *)

Local Coercion inject_Z : Z >-> Q.
Local Open Scope Q_scope.

(** [a.slice(from, to)] *)
Definition slice {A} (from to : nat) (l : list A) : list A :=
  firstn (to - from) (skipn from l).

(** [Math.min(...l)] and [Math.max(...l)] of a non-empty list. *)
Definition min_of (l : list Q) : Q :=
  match l with
  | [] => 0
  | a :: l' => fold_left Qmin l' a
  end.

Definition max_of (l : list Q) : Q :=
  match l with
  | [] => 0
  | a :: l' => fold_left Qmax l' a
  end.

(** The block size of [applyPixelate] and the size of its offscreen canvas. *)
Definition blockSize (faceBox : Box.t) (intensity : Q) : Z :=
  let faceSize := Math.min (Box.width faceBox) (Box.height faceBox) in
  let maxBlocks := Math.max 4 (faceSize * 0.1) in
  Z.max 2 (Math.round ((intensity / 100) * maxBlocks) + 2).

Definition scaledW (faceBox : Box.t) (intensity : Q) : Z :=
  Z.max 1 (Math.ceil (Box.width faceBox / blockSize faceBox intensity)).

Definition scaledH (faceBox : Box.t) (intensity : Q) : Z :=
  Z.max 1 (Math.ceil (Box.height faceBox / blockSize faceBox intensity)).

Definition applyPixelate (ctx sourceCanvas : Ref) (faceBox : Box.t) (intensity : Q)
  : G unit :=
  let x := Box.x faceBox in
  let y := Box.y faceBox in
  let width := Box.width faceBox in
  let height := Box.height faceBox in
  let scaledW := scaledW faceBox intensity in
  let scaledH := scaledH faceBox intensity in
  offscreen <- createElement_canvas ;;
  set_width offscreen scaledW ;;
  set_height offscreen scaledH ;;
  let offCtx := offscreen in
  drawImage9 offCtx sourceCanvas x y width height 0 0 scaledW scaledH ;;
  save ctx ;;
  beginPath ctx ;;
  ellipse ctx (x + width / 2) (y + height / 2) (width / 2) (height / 2) ;;
  clip ctx ;;
  set_imageSmoothingEnabled ctx false ;;
  drawImage9 ctx offscreen 0 0 scaledW scaledH x y width height ;;
  restore ctx.

Definition applyBlur (ctx sourceCanvas : Ref) (faceBox : Box.t) (intensity : Q)
  : G unit :=
  let x := Box.x faceBox in
  let y := Box.y faceBox in
  let width := Box.width faceBox in
  let height := Box.height faceBox in
  let faceSize := Math.min width height in
  let padding := Math.min (faceSize * 0.05) 20 in
  let blurPx := Z.max 2 (Math.round ((intensity / 100) * faceSize * 0.07)) in
  save ctx ;;
  beginPath ctx ;;
  ellipse ctx (x + width / 2) (y + height / 2)
              (width / 2 + padding) (height / 2 + padding) ;;
  clip ctx ;;
  c <- lookup ctx ;;
  match Ctx.filter (Canvas.ctx c) with
  | Some _ =>
      set_filter ctx (FilterBlur blurPx) ;;
      let margin := padding + blurPx in
      let sx := Math.max 0 (x - margin) in
      let sy := Math.max 0 (y - margin) in
      src <- lookup sourceCanvas ;;
      let sw := Math.min (Canvas.width src - sx) (width + margin * 2) in
      let sh := Math.min (Canvas.height src - sy) (height + margin * 2) in
      drawImage9 ctx sourceCanvas sx sy sw sh sx sy sw sh ;;
      set_filter ctx FilterNone
  | None =>
      applyPixelate ctx sourceCanvas faceBox (Z.max 4 blurPx)
  end ;;
  restore ctx.

Definition thicknessMultiplier (intensity : Q) : Q :=
  0.5 + (intensity / 100) * 1.5.

(** [landmarks && landmarks.positions && landmarks.positions.length >= n] *)
Definition positions_at_least (n : nat) (landmarks : Landmarks)
  : option (list Point.t) :=
  match landmarks with
  | Some positions => if (n <=? List.length positions)%nat then Some positions else None
  | None => None
  end.

Definition applyBlackBarEyes (ctx _sourceCanvas : Ref) (faceBox : Box.t)
  (intensity : Q) (landmarks : Landmarks) : G unit :=
  let thicknessMultiplier := thicknessMultiplier intensity in
  match positions_at_least 48 landmarks with
  | Some positions =>
      let leftEye := slice 36 42 positions in
      let rightEye := slice 42 48 positions in
      let allPoints := leftEye ++ rightEye in
      let minX := min_of (map Point.x allPoints) in
      let maxX := max_of (map Point.x allPoints) in
      let minY := min_of (map Point.y allPoints) in
      let maxY := max_of (map Point.y allPoints) in
      let eyeWidth := maxX - minX in
      let eyeHeight := maxY - minY in
      let paddingH := eyeWidth * 0.25 in
      let barHeight :=
        Math.max (eyeHeight * 2.5) (Box.height faceBox * 0.14)
        * thicknessMultiplier in
      let barY := (minY + maxY) / 2 - barHeight / 2 in
      set_fillStyle ctx (Css "#000000") ;;
      fillRect ctx (minX - paddingH) barY (eyeWidth + paddingH * 2) barHeight
  | None =>
      (* Fallback: estimate eye position *)
      let barY := Box.y faceBox + Box.height faceBox * 0.28 in
      let barHeight := Box.height faceBox * 0.16 * thicknessMultiplier in
      set_fillStyle ctx (Css "#000000") ;;
      fillRect ctx (Box.x faceBox) barY (Box.width faceBox) barHeight
  end.

Definition applyBlackout (ctx _sourceCanvas : Ref) (faceBox : Box.t) (_intensity : Q)
  : G unit :=
  let x := Box.x faceBox in
  let y := Box.y faceBox in
  let width := Box.width faceBox in
  let height := Box.height faceBox in
  set_fillStyle ctx (Css "#000000") ;;
  beginPath ctx ;;
  ellipse ctx (x + width / 2) (y + height / 2)
              ((width / 2) * 1.05) ((height / 2) * 1.05) ;;
  fill ctx.

(** U+1F600, in UTF-8. *)
Definition grinning_face : string :=
  String "240" (String "159" (String "152" (String "128" EmptyString))).

Definition applyEmoji (ctx _sourceCanvas : Ref) (faceBox : Box.t) (intensity : Q)
  (_landmarks : Landmarks) (emoji : option string) : G unit :=
  let emoji := match emoji with Some e => e | None => grinning_face end in
  let x := Box.x faceBox in
  let y := Box.y faceBox in
  let width := Box.width faceBox in
  let height := Box.height faceBox in
  let sizeMultiplier := 0.6 + (intensity / 100) * 0.8 in
  let size := Math.max width height * sizeMultiplier in
  save ctx ;;
  set_font ctx (FontPxSerif size) ;;
  set_textAlign ctx "center" ;;
  set_textBaseline ctx "middle" ;;
  fillText ctx emoji (x + width / 2) (y + height / 2) ;;
  restore ctx.

Definition applySolidColor (ctx _sourceCanvas : Ref) (faceBox : Box.t)
  (_intensity : Q) (_landmarks : Landmarks) (color : option string) : G unit :=
  let color := match color with Some c => c | None => "#ff0000"%string end in
  let x := Box.x faceBox in
  let y := Box.y faceBox in
  let width := Box.width faceBox in
  let height := Box.height faceBox in
  set_fillStyle ctx (Css color) ;;
  beginPath ctx ;;
  ellipse ctx (x + width / 2) (y + height / 2)
              ((width / 2) * 1.05) ((height / 2) * 1.05) ;;
  fill ctx.

(** The region both pixel effects work on: the box clamped at the left and
    top canvas edges and cut at the right and bottom ones. *)
Definition clampedX (faceBox : Box.t) : Z := Math.round (Math.max 0 (Box.x faceBox)).
Definition clampedY (faceBox : Box.t) : Z := Math.round (Math.max 0 (Box.y faceBox)).
Definition clampedW (faceBox : Box.t) (canvasWidth : Z) : Z :=
  Math.round (Math.min (Box.width faceBox) (canvasWidth - clampedX faceBox)).
Definition clampedH (faceBox : Box.t) (canvasHeight : Z) : Z :=
  Math.round (Math.min (Box.height faceBox) (canvasHeight - clampedY faceBox)).

(** One displaced row of the glitch: [result[dst..dst+3] = data[src..src+3]]
    for every column. *)
Definition glitch_shift_row (data : list Z) (fw row shift : Z) (result : list Z)
  : list Z :=
  fold_left
    (fun result col =>
       let srcCol := Z.min (fw - 1) (Z.max 0 (col - shift)) in
       let dstIdx := ((row * fw + col) * 4)%Z in
       let srcIdx := ((row * fw + srcCol) * 4)%Z in
       let result := aset result dstIdx (aget data srcIdx) in
       let result := aset result (dstIdx + 1) (aget data (srcIdx + 1)) in
       let result := aset result (dstIdx + 2) (aget data (srcIdx + 2)) in
       aset result (dstIdx + 3) (aget data (srcIdx + 3)))
    (range 0 fw) result.

(** One band of channel separation: only the red channel is shifted. *)
Definition glitch_band (data : list Z) (fw fh bandY bandH channelShift : Z)
  (result : list Z) : list Z :=
  fold_left
    (fun result row =>
       fold_left
         (fun result col =>
            let idx := ((row * fw + col) * 4)%Z in
            let srcCol := Z.min (fw - 1) (Z.max 0 (col + channelShift)) in
            let srcIdx := ((row * fw + srcCol) * 4)%Z in
            aset result idx (aget data srcIdx))
         (range 0 fw) result)
    (range bandY (Z.min fh (bandY + bandH))) result.

Definition applyGlitch (ctx sourceCanvas : Ref) (faceBox : Box.t) (intensity : Q)
  : G unit :=
  src <- lookup sourceCanvas ;;
  let fx := clampedX faceBox in
  let fy := clampedY faceBox in
  let fw := clampedW faceBox (Canvas.width src) in
  let fh := clampedH faceBox (Canvas.height src) in
  if (fw <=? 0)%Z || (fh <=? 0)%Z then ret tt
  else
    imageData <- getImageData ctx fx fy fw fh ;;
    let data := Bitmap.data imageData in
    let result := data in
    let strength := intensity / 100 in
    (* Horizontal slice displacement *)
    result <-
      foldM (fun result row =>
               r <- random ;;
               if r <? 0.3 * strength then
                 r' <- random ;;
                 let shift := Math.floor ((r' - 0.5) * fw * 0.3 * strength) in
                 ret (glitch_shift_row data fw row shift result)
               else ret result)
            (range 0 fh) result ;;
    (* RGB channel separation on random bands *)
    let numBands := Math.floor (3 + strength * 8) in
    result <-
      foldM (fun result (_ : Z) =>
               r1 <- random ;;
               let bandY := Math.floor (r1 * fh) in
               r2 <- random ;;
               let bandH := (Math.floor (r2 * fh * 0.08) + 1)%Z in
               r3 <- random ;;
               let channelShift := Math.floor ((r3 - 0.5) * fw * 0.15 * strength) in
               ret (glitch_band data fw fh bandY bandH channelShift result))
            (range 0 numBands) result ;;
    putImageData ctx (Bitmap.mk (Bitmap.width imageData) (Bitmap.height imageData) result)
                 fx fy.

(** The source pixel of the swirl for destination pixel [(px, py)]. *)
Definition swirl_source (fw fh : Z) (swirlAngle : Q) (px py : Z) : Z * Z :=
  let cx := fw / 2 in
  let cy := fh / 2 in
  let maxRadius := sqrt (cx * cx + cy * cy) in
  let dx := px - cx in
  let dy := py - cy in
  let dist := sqrt (dx * dx + dy * dy) in
  let normalizedDist := dist / maxRadius in
  let angle := swirlAngle * (1 - normalizedDist) in
  let cos := cos angle in
  let sin := sin angle in
  let srcX := cos * dx - sin * dy + cx in
  let srcY := sin * dx + cos * dy + cy in
  let srcX := Math.max 0 (Math.min (fw - 1)%Z srcX) in
  let srcY := Math.max 0 (Math.min (fh - 1)%Z srcY) in
  (Math.round srcX, Math.round srcY).

Definition applySwirl (ctx sourceCanvas : Ref) (faceBox : Box.t) (intensity : Q)
  : G unit :=
  src <- lookup sourceCanvas ;;
  let fx := clampedX faceBox in
  let fy := clampedY faceBox in
  let fw := clampedW faceBox (Canvas.width src) in
  let fh := clampedH faceBox (Canvas.height src) in
  if (fw <=? 0)%Z || (fh <=? 0)%Z then ret tt
  else
    srcData <- getImageData ctx fx fy fw fh ;;
    dstData <- createImageData fw fh ;;
    let swirlAngle := (intensity / 100) * PI * 4 in
    let dst :=
      fold_left
        (fun dst py =>
           fold_left
             (fun dst px =>
                let '(sx, sy) := swirl_source fw fh swirlAngle px py in
                let srcIdx := ((sy * fw + sx) * 4)%Z in
                let dstIdx := ((py * fw + px) * 4)%Z in
                let dst := aset dst dstIdx (aget (Bitmap.data srcData) srcIdx) in
                let dst := aset dst (dstIdx + 1) (aget (Bitmap.data srcData) (srcIdx + 1)) in
                let dst := aset dst (dstIdx + 2) (aget (Bitmap.data srcData) (srcIdx + 2)) in
                aset dst (dstIdx + 3) (aget (Bitmap.data srcData) (srcIdx + 3)))
             (range 0 fw) dst)
        (range 0 fh) (Bitmap.data dstData) in
    putImageData ctx (Bitmap.mk (Bitmap.width dstData) (Bitmap.height dstData) dst)
                 fx fy.

Definition applySilhouette (ctx _sourceCanvas : Ref) (faceBox : Box.t)
  (intensity : Q) (landmarks : Landmarks) : G unit :=
  let darkness := 0.1 + (1 - intensity / 100) * 0.3 in
  let r := Math.round (darkness * 50) in
  let g := Math.round (darkness * 50) in
  let b := Math.round (darkness * 60) in
  let color := CssRgb r g b in
  match positions_at_least 17 landmarks with
  | Some positions =>
      (* Use jawline + estimated forehead *)
      let jaw := slice 0 17 positions in
      let leftBrow := slice 17 22 positions in
      let rightBrow := slice 22 27 positions in
      (* [Math.min()] of nothing is [Infinity]; the code throws below before
         it draws with it *)
      let browTop := min_of (map Point.y leftBrow ++ map Point.y rightBrow) in
      let foreheadHeight := (browTop - Box.y faceBox) * 0.6 in
      beginPath ctx ;;
      match jaw with
      | [] => throw TypeError
      | jaw0 :: _ =>
          moveTo ctx (Point.x jaw0) (Point.y jaw0) ;;
          forM_ jaw (fun p => lineTo ctx (Point.x p) (Point.y p)) ;;
          (* Forehead curve *)
          match last (map Some rightBrow) None with
          | None => throw TypeError
          | Some rightTop =>
              lineTo ctx (Point.x rightTop) (Point.y rightTop - foreheadHeight) ;;
              match leftBrow with
              | [] => throw TypeError
              | leftTop :: _ =>
                  (* Arc across forehead *)
                  let midX := (Point.x leftTop + Point.x rightTop) / 2 in
                  quadraticCurveTo ctx midX (browTop - foreheadHeight * 1.5)
                                   (Point.x leftTop) (Point.y leftTop - foreheadHeight) ;;
                  lineTo ctx (Point.x jaw0) (Point.y jaw0) ;;
                  closePath ctx ;;
                  set_fillStyle ctx color ;;
                  fill ctx
              end
          end
      end
  | None =>
      (* Ellipse fallback *)
      let x := Box.x faceBox in
      let y := Box.y faceBox in
      let width := Box.width faceBox in
      let height := Box.height faceBox in
      set_fillStyle ctx color ;;
      beginPath ctx ;;
      ellipse ctx (x + width / 2) (y + height / 2)
                  ((width / 2) * 1.05) ((height / 2) * 1.15) ;;
      fill ctx
  end.

Definition applyRedact (ctx _sourceCanvas : Ref) (faceBox : Box.t) (_intensity : Q)
  : G unit :=
  let x := Box.x faceBox in
  let y := Box.y faceBox in
  let width := Box.width faceBox in
  let height := Box.height faceBox in
  let pad := 4 in
  (* Main black rectangle *)
  set_fillStyle ctx (Css "#000000") ;;
  fillRect ctx (x - pad) (y - pad) (width + pad * 2) (height + pad * 2) ;;
  (* Subtle horizontal scan lines for texture: ly = y, y + 3, ... < y + height *)
  set_fillStyle ctx (CssRgba 255 255 255 0.03) ;;
  forM_ (range 0 (Math.ceil (height / 3)))
        (fun k => let ly := y + 3 * k in
                  fillRect ctx (x - pad) ly (width + pad * 2) 1) ;;
  (* Rough edges *)
  set_fillStyle ctx (CssRgba 0 0 0 0.6) ;;
  forM_ (range 0 15)
        (fun _ =>
           r1 <- random ;;
           let ex := x - pad + r1 * (width + pad * 2) in
           r2 <- random ;;
           let ey := y - pad + (if r2 <? 0.5 then 0 else height + pad * 2) in
           fillRect ctx (ex - 1) (ey - 1) 3 3).

(** Apply an effect by ID. *)
Definition applyEffect (ctx sourceCanvas : Ref) (faceBox : Box.t) (effectId : string)
  (intensity : Q) (landmarks : Landmarks) (options : Options.t) : G unit :=
  if String.eqb effectId "blur" then
    applyBlur ctx sourceCanvas faceBox intensity
  else if String.eqb effectId "pixelate" then
    applyPixelate ctx sourceCanvas faceBox intensity
  else if String.eqb effectId "black-bar-eyes" then
    applyBlackBarEyes ctx sourceCanvas faceBox intensity landmarks
  else if String.eqb effectId "blackout" then
    applyBlackout ctx sourceCanvas faceBox intensity
  else if String.eqb effectId "emoji" then
    applyEmoji ctx sourceCanvas faceBox intensity landmarks (Options.emoji options)
  else if String.eqb effectId "solid-color" then
    applySolidColor ctx sourceCanvas faceBox intensity landmarks (Options.color options)
  else if String.eqb effectId "glitch" then
    applyGlitch ctx sourceCanvas faceBox intensity
  else if String.eqb effectId "swirl" then
    applySwirl ctx sourceCanvas faceBox intensity
  else if String.eqb effectId "silhouette" then
    applySilhouette ctx sourceCanvas faceBox intensity landmarks
  else if String.eqb effectId "redact" then
    applyRedact ctx sourceCanvas faceBox intensity
  else
    applyBlur ctx sourceCanvas faceBox intensity.

(** ** js/canvas-utils.js *)

(** Clone a canvas with its content. *)
Definition cloneCanvas (source : Ref) : G Ref :=
  canvas <- createElement_canvas ;;
  src <- lookup source ;;
  set_width canvas (Canvas.width src) ;;
  set_height canvas (Canvas.height src) ;;
  drawImage3 canvas source 0 0 ;;
  ret canvas.

(** ** js/processor.js *)

(** [a || b] on an optional string: the empty string is falsy. *)
Definition or_string (a : option string) (b : string) : string :=
  match a with
  | Some s => if String.eqb s "" then b else s
  | None => b
  end.

(** Apply effects to all faces and return the processed canvas. *)
Definition processImage (fullCanvas : Ref) (faces : list Face.t)
  (globalEffectId : string) (globalIntensity : Q) (globalOptions : Options.t)
  : G Ref :=
  (* Clone the canvas so we don't modify the original *)
  processed <- cloneCanvas fullCanvas ;;
  let ctx := processed in
  forM_ faces
        (fun face =>
           let effectId := or_string (Face.effectId face) globalEffectId in
           let intensity :=
             match Face.intensity face with
             | Some i => i
             | None => globalIntensity
             end in
           let options :=
             match Face.options face with
             | Some o => o
             | None => globalOptions
             end in
           applyEffect ctx fullCanvas (Face.box face) effectId intensity
                       (Face.landmarks face) options) ;;
  ret processed.

End Engine.

(** ** js/constants.js *)

Definition MANUAL_REGION_RATIO : Q := 0.15.
Definition MAX_PHOTOS : nat := 20.
Definition MAX_LOADED_CANVASES : nat := 3.

(** ** js/app.js: application state *)

(** ['pending' | 'loading' | 'detected' | 'error'] *)
Inductive Status : Type := Pending | Loading | Detected | Error.

(** An entry of an undo or redo stack. *)
Module Snapshot.
Record t : Type := mk { faces : list Face.t; selectedFaceId : option string }.
End Snapshot.

Module File.
Record t : Type := mk { name : string; type : string; size : Z }.
End File.

Module Photo.
Record t : Type := mk {
  id : string;
  file : option File.t;
  originalFilename : string;
  fullCanvas : option Ref;
  thumbnailDataUrl : option string;
  faces : list Face.t;
  selectedFaceId : option string;
  processedCanvas : option Ref;
  undoStack : list Snapshot.t;
  redoStack : list Snapshot.t;
  status : Status;
  error : option string
}.

Definition set_fullCanvas (v : option Ref) (p : t) : t :=
  mk (id p) (file p) (originalFilename p) v (thumbnailDataUrl p) (faces p)
     (selectedFaceId p) (processedCanvas p) (undoStack p) (redoStack p)
     (status p) (error p).
Definition set_faces (v : list Face.t) (p : t) : t :=
  mk (id p) (file p) (originalFilename p) (fullCanvas p) (thumbnailDataUrl p) v
     (selectedFaceId p) (processedCanvas p) (undoStack p) (redoStack p)
     (status p) (error p).
Definition set_selectedFaceId (v : option string) (p : t) : t :=
  mk (id p) (file p) (originalFilename p) (fullCanvas p) (thumbnailDataUrl p)
     (faces p) v (processedCanvas p) (undoStack p) (redoStack p)
     (status p) (error p).
Definition set_processedCanvas (v : option Ref) (p : t) : t :=
  mk (id p) (file p) (originalFilename p) (fullCanvas p) (thumbnailDataUrl p)
     (faces p) (selectedFaceId p) v (undoStack p) (redoStack p)
     (status p) (error p).
Definition set_undoStack (v : list Snapshot.t) (p : t) : t :=
  mk (id p) (file p) (originalFilename p) (fullCanvas p) (thumbnailDataUrl p)
     (faces p) (selectedFaceId p) (processedCanvas p) v (redoStack p)
     (status p) (error p).
Definition set_redoStack (v : list Snapshot.t) (p : t) : t :=
  mk (id p) (file p) (originalFilename p) (fullCanvas p) (thumbnailDataUrl p)
     (faces p) (selectedFaceId p) (processedCanvas p) (undoStack p) v
     (status p) (error p).
Definition set_status (v : Status) (p : t) : t :=
  mk (id p) (file p) (originalFilename p) (fullCanvas p) (thumbnailDataUrl p)
     (faces p) (selectedFaceId p) (processedCanvas p) (undoStack p) (redoStack p)
     v (error p).
Definition set_error (v : option string) (p : t) : t :=
  mk (id p) (file p) (originalFilename p) (fullCanvas p) (thumbnailDataUrl p)
     (faces p) (selectedFaceId p) (processedCanvas p) (undoStack p) (redoStack p)
     (status p) v.

(** [createPhotoState(file)], for the id it is given. *)
Definition create (id : string) (f : File.t) : t :=
  mk id (Some f) (File.name f) None None [] None None [] [] Pending None.

End Photo.

(** The [state] object of the controller. *)
Module State.
Record t : Type := mk {
  photos : list Photo.t;
  activePhotoId : option string;
  effectId : string;
  intensity : Q;
  sensitivity : string;
  options : Options.t;
  format : string;
  quality : Q
}.
Definition set_photos (v : list Photo.t) (s : t) : t :=
  mk v (activePhotoId s) (effectId s) (intensity s) (sensitivity s) (options s)
     (format s) (quality s).
Definition set_activePhotoId (v : option string) (s : t) : t :=
  mk (photos s) v (effectId s) (intensity s) (sensitivity s) (options s)
     (format s) (quality s).
End State.

(** ** js/ui.js: module state *)

Inductive DragMode : Type := ModeDraw | ModeMove | ModeResize.

Module Drag.
Record t : Type := mk {
  active : bool;
  mode : option DragMode;
  startX : Q;
  startY : Q;
  currentX : Q;
  currentY : Q;
  targetFaceId : option string;
  origBox : option Box.t
}.
End Drag.

(** [drag], [currentFaces], [currentSelectedId], and what the code reads from
    the overlay canvas element: its size in image pixels and the width of its
    bounding client rectangle (its size on screen). *)
Module Ui.
Record t : Type := mk {
  drag : Drag.t;
  currentFaces : list Face.t;
  currentSelectedId : option string;
  overlayWidth : Z;
  overlayHeight : Z;
  rectWidth : Q
}.
Definition set_drag (v : Drag.t) (u : t) : t :=
  mk v (currentFaces u) (currentSelectedId u) (overlayWidth u) (overlayHeight u)
     (rectWidth u).
End Ui.

(** Everything a handler can read or write; [clock] is what [Date.now()]
    returns. *)
Module World.
Record t : Type := mk {
  gfx : Gfx.t;
  app : State.t;
  queueRunning : bool;
  ui : Ui.t;
  clock : Z
}.
Definition set_gfx (v : Gfx.t) (w : t) : t :=
  mk v (app w) (queueRunning w) (ui w) (clock w).
Definition set_app (v : State.t) (w : t) : t :=
  mk (gfx w) v (queueRunning w) (ui w) (clock w).
Definition set_queueRunning (v : bool) (w : t) : t :=
  mk (gfx w) (app w) v (ui w) (clock w).
Definition set_ui (v : Ui.t) (w : t) : t :=
  mk (gfx w) (app w) (queueRunning w) v (clock w).
End World.

Definition M (A : Type) : Type := SE World.t A.

(** What awaiting [loadAndDetect(file, sensitivity)] yields: the decoded,
    orientation-corrected image with the faces the detector reports on it in
    full-resolution coordinates, or a rejection. *)
Inductive LoadResult : Type :=
| Decoded (image : Bitmap.t) (faces : list Face.t)
| Failed (message : string).

Class Collaborators : Type := {
  decode_and_detect : File.t -> string -> LoadResult
}.

(** ** js/app.js: the controller

    A photo object is referred to by its position in [state.photos].  Calls
    that only write the DOM ([showState], [showStatus], [hideStatus],
    [setFaceCount], [setUndoRedoState], [renderThumbnailStrip],
    [renderResult]) have no counterpart here; [renderOverlay] and
    [renderPreview] are kept for what they store. *)

Section App.

Context {R : Rasteriser} {ML : MathLib} {C : Collaborators}.

Local Coercion inject_Z : Z >-> Q.
Local Open Scope Q_scope.

Definition liftG {A} (m : G A) : M A :=
  fun w =>
    match m (World.gfx w) with
    | Returned a g => Returned a (World.set_gfx g w)
    | Thrown e g => Thrown e (World.set_gfx g w)
    end.

Definition app_state : M State.t := gets World.app.

Definition modify_app (f : State.t -> State.t) : M unit :=
  modify (fun w => World.set_app (f (World.app w)) w).

Definition modify_ui (f : Ui.t -> Ui.t) : M unit :=
  modify (fun w => World.set_ui (f (World.ui w)) w).

(** Truthiness of a string that may be [null]. *)
Definition truthy (s : option string) : bool :=
  match s with
  | Some s => negb (String.eqb s "")
  | None => false
  end.

(** [a === b] for a string [a] and a string-or-null [b]. *)
Definition same_id (a : string) (b : option string) : bool :=
  match b with
  | Some s => String.eqb a s
  | None => false
  end.

Fixpoint findIndex {A} (f : A -> bool) (l : list A) : option nat :=
  match l with
  | [] => None
  | a :: l' => if f a then Some O else option_map S (findIndex f l')
  end.

(** In-place mutation of the object at position [i]. *)
Fixpoint adjust {A} (i : nat) (f : A -> A) (l : list A) : list A :=
  match l, i with
  | [], _ => []
  | a :: l', O => f a :: l'
  | a :: l', S i' => a :: adjust i' f l'
  end.

Definition no_photo : Photo.t := Photo.create "" (File.mk "" "" 0).

Definition photo_at (i : nat) : M Photo.t :=
  gets (fun w => nth i (State.photos (World.app w)) no_photo).

Definition modify_photo (i : nat) (f : Photo.t -> Photo.t) : M unit :=
  modify_app (fun s => State.set_photos (adjust i f (State.photos s)) s).

(** Get the active photo state object. *)
Definition getActivePhoto : M (option nat) :=
  s <- app_state ;;
  if negb (truthy (State.activePhotoId s)) then ret None
  else
    match findIndex (fun p => same_id (Photo.id p) (State.activePhotoId s))
                    (State.photos s) with
    | None => modify_app (State.set_activePhotoId None) ;; ret None
    | Some i => ret (Some i)
    end.

(** [renderOverlay(faces, selectedFaceId)] saves its arguments for hit
    testing. *)
Definition renderOverlay (faces : list Face.t) (selectedFaceId : option string)
  : M unit :=
  modify_ui (fun u =>
    Ui.mk (Ui.drag u) faces selectedFaceId (Ui.overlayWidth u) (Ui.overlayHeight u)
          (Ui.rectWidth u)).

(** [renderPreview(fullCanvas)] sizes the overlay canvas like the image. *)
Definition renderPreview (fullCanvas : Ref) : M unit :=
  c <- liftG (lookup fullCanvas) ;;
  modify_ui (fun u =>
    Ui.mk (Ui.drag u) (Ui.currentFaces u) (Ui.currentSelectedId u)
          (Canvas.width c) (Canvas.height c) (Ui.rectWidth u)).

Definition updateUndoRedoButtons : M unit :=
  getActivePhoto ;; ret tt.

Definition updatePreview : M unit :=
  a <- getActivePhoto ;;
  match a with
  | None => ret tt
  | Some i =>
      photo <- photo_at i ;;
      match Photo.fullCanvas photo with
      | None => ret tt
      | Some fullCanvas =>
          if (List.length (Photo.faces photo) =? 0)%nat then ret tt
          else
            s <- app_state ;;
            processed <- liftG (processImage fullCanvas (Photo.faces photo)
                                  (State.effectId s) (State.intensity s)
                                  (State.options s)) ;;
            modify_photo i (Photo.set_processedCanvas (Some processed)) ;;
            renderOverlay (Photo.faces photo) (Photo.selectedFaceId photo)
      end
  end.

(** Evict old canvases to keep memory in check. *)
Definition is_loaded (p : Photo.t) : bool :=
  match Photo.fullCanvas p with Some _ => true | None => false end.

Definition evictCanvases : M unit :=
  modify_app (fun s =>
    let indexed := combine (seq 0 (List.length (State.photos s))) (State.photos s) in
    let loaded :=
      List.filter (fun ip => is_loaded (snd ip) &&
                             negb (same_id (Photo.id (snd ip)) (State.activePhotoId s)))
                  indexed in
    (* Keep at most MAX_LOADED_CANVASES - 1 inactive (plus 1 active = MAX total) *)
    let maxInactive := Nat.max 0 (MAX_LOADED_CANVASES - 1) in
    if (maxInactive <? List.length loaded)%nat then
      let toEvict := firstn (List.length loaded - maxInactive) loaded in
      State.set_photos
        (fold_left
           (fun photos ip =>
              adjust (fst ip)
                     (fun p => Photo.set_processedCanvas None (Photo.set_fullCanvas None p))
                     photos)
           toEvict (State.photos s))
        s
    else s).

(** [loadAndDetect]: the image is drawn on a new canvas. *)
Definition loadAndDetect (file : option File.t) (sensitivity : string)
  : M (Ref * list Face.t) :=
  match file with
  | None => throw TypeError
  | Some f =>
      match decode_and_detect f sensitivity with
      | Decoded image faces =>
          fullCanvas <- liftG (
            canvas <- createElement_canvas ;;
            update_canvas canvas (fun c =>
              Canvas.mk image initial_ctx [] [] (Canvas.log c)) ;;
            ret canvas) ;;
          ret (fullCanvas, faces)
      | Failed message => throw (Rejected message)
      end
  end.

Definition error_message (e : JsError) : string :=
  match e with
  | IndexSizeError => "IndexSizeError"
  | TypeError => "TypeError"
  | Rejected reason => reason
  end.

(** Load and detect faces for a single photo. *)
Definition processPhoto (i : nat) : M unit :=
  s <- app_state ;;
  (* Photo may have been removed while queued *)
  if negb (i <? List.length (State.photos s))%nat then ret tt
  else
    photo <- photo_at i ;;
    if match Photo.status photo with Detected => is_loaded photo | _ => false end
    then ret tt
    else
      modify_photo i (Photo.set_status Loading) ;;
      try_catch
        (s <- app_state ;;
         let isActive := same_id (Photo.id photo) (State.activePhotoId s) in
         loaded <- loadAndDetect (Photo.file photo) (State.sensitivity s) ;;
         let fullCanvas := fst loaded in
         let faces := snd loaded in
         modify_photo i (fun p =>
           Photo.set_status Detected
             (Photo.set_faces faces (Photo.set_fullCanvas (Some fullCanvas) p))) ;;
         (* If this is the active photo, update the display *)
         (if isActive then
            renderPreview fullCanvas ;;
            renderOverlay faces None ;;
            if (List.length faces =? 0)%nat then ret tt else updatePreview
          else ret tt) ;;
         evictCanvases)
        (fun err =>
           modify_photo i (fun p =>
             Photo.set_error (Some (error_message err)) (Photo.set_status Error p))).

(** Process queued photos sequentially in the background. *)
Definition processQueue : M unit :=
  w <- get ;;
  if World.queueRunning w then ret tt
  else
    modify (World.set_queueRunning true) ;;
    forM_ (seq 0 (List.length (State.photos (World.app w))))
          (fun i =>
             photo <- photo_at i ;;
             match Photo.status photo with
             | Pending => processPhoto i
             | _ => ret tt
             end) ;;
    modify (World.set_queueRunning false).

(** Switch to a different photo. *)
Definition switchToPhoto (photoId : string) : M unit :=
  s <- app_state ;;
  match findIndex (fun p => String.eqb (Photo.id p) photoId) (State.photos s) with
  | None => ret tt
  | Some i =>
      modify_app (State.set_activePhotoId (Some photoId)) ;;
      photo <- photo_at i ;;
      failed <-
        (if match Photo.status photo with Pending => true | _ => negb (is_loaded photo) end
         then
           processPhoto i ;;
           (* Check if photo failed or was removed during processing *)
           photo <- photo_at i ;;
           ret (match Photo.status photo with
                | Error => true
                | _ => negb (is_loaded photo)
                end)
         else ret false) ;;
      if (failed : bool) then ret tt
      else
        photo <- photo_at i ;;
        match Photo.fullCanvas photo with
        | None => throw TypeError
        | Some fullCanvas =>
            renderPreview fullCanvas ;;
            renderOverlay (Photo.faces photo) (Photo.selectedFaceId photo) ;;
            updateUndoRedoButtons ;;
            if (0 <? List.length (Photo.faces photo))%nat then updatePreview
            else ret tt
        end
  end.

Definition handlePhotoSwitch (photoId : string) : M unit :=
  s <- app_state ;;
  if same_id photoId (State.activePhotoId s) then ret tt
  else switchToPhoto photoId.

(** *** Undo / redo *)

Definition MAX_UNDO : nat := 50.

(** [{ ...f, box: { ...f.box }, landmarks: f.landmarks }] *)
Definition copy_face (f : Face.t) : Face.t :=
  Face.mk (Face.id f)
          (Box.mk (Box.x (Face.box f)) (Box.y (Face.box f))
                  (Box.width (Face.box f)) (Box.height (Face.box f)))
          (Face.score f) (Face.landmarks f) (Face.manual f)
          (Face.effectId f) (Face.intensity f) (Face.options f).

Definition current_snapshot (photo : Photo.t) : Snapshot.t :=
  Snapshot.mk (map copy_face (Photo.faces photo)) (Photo.selectedFaceId photo).

(** [stack.pop()]: the last entry and the stack without it. *)
Definition pop {A} (stack : list A) : option (A * list A) :=
  match rev stack with
  | [] => None
  | a :: rest => Some (a, rev rest)
  end.

(** What [pushUndo] does to the photo: push the snapshot, [shift] the oldest
    entry off a stack grown past [MAX_UNDO], clear the redo stack. *)
Definition push_snapshot (photo : Photo.t) : Photo.t :=
  let undoStack := Photo.undoStack photo ++ [current_snapshot photo] in
  let undoStack :=
    if (MAX_UNDO <? List.length undoStack)%nat then tl undoStack else undoStack in
  Photo.set_redoStack [] (Photo.set_undoStack undoStack photo).

Definition pushUndo (i : nat) : M unit :=
  modify_photo i push_snapshot ;;
  updateUndoRedoButtons.

Definition handleUndo : M unit :=
  a <- getActivePhoto ;;
  match a with
  | None => ret tt
  | Some i =>
      photo <- photo_at i ;;
      match pop (Photo.undoStack photo) with
      | None => ret tt
      | Some (prev, undoStack) =>
          modify_photo i (fun photo =>
            Photo.set_selectedFaceId (Snapshot.selectedFaceId prev)
              (Photo.set_faces (Snapshot.faces prev)
                 (Photo.set_undoStack undoStack
                    (Photo.set_redoStack
                       (Photo.redoStack photo ++ [current_snapshot photo]) photo)))) ;;
          photo <- photo_at i ;;
          renderOverlay (Photo.faces photo) (Photo.selectedFaceId photo) ;;
          updatePreview ;;
          updateUndoRedoButtons
      end
  end.

Definition handleRedo : M unit :=
  a <- getActivePhoto ;;
  match a with
  | None => ret tt
  | Some i =>
      photo <- photo_at i ;;
      match pop (Photo.redoStack photo) with
      | None => ret tt
      | Some (next, redoStack) =>
          modify_photo i (fun photo =>
            Photo.set_selectedFaceId (Snapshot.selectedFaceId next)
              (Photo.set_faces (Snapshot.faces next)
                 (Photo.set_redoStack redoStack
                    (Photo.set_undoStack
                       (Photo.undoStack photo ++ [current_snapshot photo]) photo)))) ;;
          photo <- photo_at i ;;
          renderOverlay (Photo.faces photo) (Photo.selectedFaceId photo) ;;
          updatePreview ;;
          updateUndoRedoButtons
      end
  end.

(** *** Canvas interaction handlers *)

(** [sizes.sort((a, b) => a - b)] *)
Fixpoint insert_ascending (a : Q) (l : list Q) : list Q :=
  match l with
  | [] => [a]
  | b :: l' => if a <=? b then a :: l else b :: insert_ascending a l'
  end.

Definition sort_ascending (l : list Q) : list Q := fold_right insert_ascending [] l.

Definition getDefaultFaceSize : M Q :=
  a <- getActivePhoto ;;
  match a with
  | None => ret 100
  | Some i =>
      photo <- photo_at i ;;
      match Photo.fullCanvas photo with
      | None => ret 100
      | Some fullCanvas =>
          let detectedFaces :=
            List.filter (fun f => negb (Face.manual f)) (Photo.faces photo) in
          if (List.length detectedFaces =? 0)%nat then
            c <- liftG (lookup fullCanvas) ;;
            ret (Math.min (Canvas.width c) (Canvas.height c) * MANUAL_REGION_RATIO)
          else
            let sizes :=
              sort_ascending
                (map (fun f => Math.max (Box.width (Face.box f)) (Box.height (Face.box f)))
                     detectedFaces) in
            ret (nth (List.length sizes / 2) sizes 0)
      end
  end.

Definition box_contains (b : Box.t) (x y : Q) : bool :=
  (x >=? Box.x b) && (x <=? Box.x b + Box.width b) &&
  (y >=? Box.y b) && (y <=? Box.y b + Box.height b).

Definition manual_face (id : string) (box : Box.t) : Face.t :=
  Face.mk id box 1 None true None None None.

Definition show_photo (i : nat) : M unit :=
  photo <- photo_at i ;;
  renderOverlay (Photo.faces photo) (Photo.selectedFaceId photo).

Definition handleCanvasClick (x y : Q) : M unit :=
  a <- getActivePhoto ;;
  match a with
  | None => ret tt
  | Some i =>
      photo <- photo_at i ;;
      if negb (is_loaded photo) then ret tt
      else
        let clickedFace :=
          find (fun f => box_contains (Face.box f) x y) (Photo.faces photo) in
        match clickedFace with
        | Some clickedFace =>
            modify_photo i (Photo.set_selectedFaceId (Some (Face.id clickedFace)))
        | None =>
            if truthy (Photo.selectedFaceId photo) then
              modify_photo i (Photo.set_selectedFaceId None)
            else
              pushUndo i ;;
              size <- getDefaultFaceSize ;;
              now <- gets World.clock ;;
              let newFace :=
                manual_face ("manual-" ++ decimal now)
                  (Box.mk (Math.max 0 (x - size / 2)) (Math.max 0 (y - size / 2))
                          size size) in
              modify_photo i (fun photo =>
                Photo.set_selectedFaceId (Some (Face.id newFace))
                  (Photo.set_faces (Photo.faces photo ++ [newFace]) photo))
        end ;;
        show_photo i ;;
        updatePreview
  end.

Definition handleFaceDrawn (box : Box.t) : M unit :=
  a <- getActivePhoto ;;
  match a with
  | None => ret tt
  | Some i =>
      photo <- photo_at i ;;
      if negb (is_loaded photo) then ret tt
      else
        pushUndo i ;;
        now <- gets World.clock ;;
        let newFace := manual_face ("manual-" ++ decimal now) box in
        modify_photo i (fun photo =>
          Photo.set_selectedFaceId (Some (Face.id newFace))
            (Photo.set_faces (Photo.faces photo ++ [newFace]) photo)) ;;
        show_photo i ;;
        updatePreview
  end.

Definition set_box (newBox : Box.t) (face : Face.t) : Face.t :=
  Face.mk (Face.id face) newBox (Face.score face) (Face.landmarks face)
          (Face.manual face) (Face.effectId face) (Face.intensity face)
          (Face.options face).

Definition handleFaceMoved (faceId : option string) (newBox : Box.t) : M unit :=
  a <- getActivePhoto ;;
  match a with
  | None => ret tt
  | Some i =>
      photo <- photo_at i ;;
      match findIndex (fun f => same_id (Face.id f) faceId) (Photo.faces photo) with
      | None => ret tt
      | Some face =>
          pushUndo i ;;
          modify_photo i (fun photo =>
            Photo.set_faces (adjust face (set_box newBox) (Photo.faces photo)) photo) ;;
          show_photo i ;;
          updatePreview
      end
  end.

Definition handleFaceResized (faceId : option string) (newBox : Box.t) : M unit :=
  a <- getActivePhoto ;;
  match a with
  | None => ret tt
  | Some i =>
      photo <- photo_at i ;;
      match findIndex (fun f => same_id (Face.id f) faceId) (Photo.faces photo) with
      | None => ret tt
      | Some face =>
          pushUndo i ;;
          modify_photo i (fun photo =>
            Photo.set_faces (adjust face (set_box newBox) (Photo.faces photo)) photo) ;;
          show_photo i ;;
          updatePreview
      end
  end.

(** [a.splice(idx, 1)] *)
Fixpoint remove_at {A} (idx : nat) (l : list A) : list A :=
  match l, idx with
  | [], _ => []
  | _ :: l', O => l'
  | a :: l', S idx' => a :: remove_at idx' l'
  end.

Definition handleFaceRemoved : M unit :=
  a <- getActivePhoto ;;
  match a with
  | None => ret tt
  | Some i =>
      photo <- photo_at i ;;
      if negb (truthy (Photo.selectedFaceId photo)) then ret tt
      else
        match findIndex (fun f => same_id (Face.id f) (Photo.selectedFaceId photo))
                        (Photo.faces photo) with
        | Some idx =>
            pushUndo i ;;
            modify_photo i (fun photo =>
              Photo.set_selectedFaceId None
                (Photo.set_faces (remove_at idx (Photo.faces photo)) photo)) ;;
            show_photo i ;;
            updatePreview
        | None => ret tt
        end
  end.

End App.

(** ** js/ui.js: canvas interaction

    The closures of [setupCanvasClick].  [Math.sqrt(a) <= b] with [b >= 0],
    and its strict variants, are compared on the squares. *)

Inductive Hit : Type :=
| HitDelete (face : Face.t)
| HitResize (face : Face.t)
| HitFace (face : Face.t)
| HitEmpty.

Module CanvasClick.
Section Closures.

Context {R : Rasteriser} {ML : MathLib} {C : Collaborators}.

Local Coercion inject_Z : Z >-> Q.
Local Open Scope Q_scope.

Definition getDisplayScale (u : Ui.t) : Q :=
  if Ui.rectWidth u >? 0 then Ui.rectWidth u / Ui.overlayWidth u else 1.

Definition getHandleSize (u : Ui.t) : Q :=
  (* Ensure minimum 44px screen touch target *)
  let displayScale := getDisplayScale u in
  let minCanvasPx := 44 / displayScale in
  Math.max minCanvasPx 24.

Definition getDeleteBtnSize (u : Ui.t) : Q :=
  let displayScale := getDisplayScale u in
  let minCanvasPx := 32 / displayScale in
  Math.max minCanvasPx 20.

Definition hitTest (u : Ui.t) (cx cy : Q) : Hit :=
  let on_selected :=
    if truthy (Ui.currentSelectedId u) then
      match find (fun f => same_id (Face.id f) (Ui.currentSelectedId u))
                 (Ui.currentFaces u) with
      | Some selected =>
          let b := Face.box selected in
          (* Check delete button (top-right) *)
          let ds := getDeleteBtnSize u in
          let dx := Box.x b + Box.width b - ds / 2 in
          let dy := Box.y b - ds / 2 in
          let dCx := dx + ds / 2 in
          let dCy := dy + ds / 2 in
          let dDist2 := (cx - dCx) * (cx - dCx) + (cy - dCy) * (cy - dCy) in
          if dDist2 <=? (ds / 2 + 4) * (ds / 2 + 4) then Some (HitDelete selected)
          else
            (* Check resize handle (bottom-right) *)
            let hs := getHandleSize u in
            let hx := Box.x b + Box.width b - hs in
            let hy := Box.y b + Box.height b - hs in
            if (cx >=? hx) && (cx <=? hx + hs) && (cy >=? hy) && (cy <=? hy + hs)
            then Some (HitResize selected)
            else None
      | None => None
      end
    else None in
  match on_selected with
  | Some hit => hit
  | None =>
      (* Check face boxes (reverse for z-order) *)
      match find (fun f => box_contains (Face.box f) cx cy) (rev (Ui.currentFaces u)) with
      | Some f => HitFace f
      | None => HitEmpty
      end
  end.

Definition getDragBox (d : Drag.t) : Box.t :=
  let x1 := Math.min (Drag.startX d) (Drag.currentX d) in
  let y1 := Math.min (Drag.startY d) (Drag.currentY d) in
  let x2 := Math.max (Drag.startX d) (Drag.currentX d) in
  let y2 := Math.max (Drag.startY d) (Drag.currentY d) in
  Box.mk x1 y1 (x2 - x1) (y2 - y1).

(** [drag.origBox] is an object whenever the mode is move or resize. *)
Definition getResizeBox (d : Drag.t) : M Box.t :=
  match Drag.origBox d with
  | None => throw TypeError
  | Some origBox =>
      let dx := Drag.currentX d - Drag.startX d in
      let dy := Drag.currentY d - Drag.startY d in
      ret (Box.mk (Box.x origBox) (Box.y origBox)
                  (Math.max 20 (Box.width origBox + dx))
                  (Math.max 20 (Box.height origBox + dy)))
  end.

Definition set_drag (f : Drag.t -> Drag.t) : M unit :=
  modify_ui (fun u => Ui.set_drag (f (Ui.drag u)) u).

Definition copy_box (b : Box.t) : Box.t :=
  Box.mk (Box.x b) (Box.y b) (Box.width b) (Box.height b).

Definition drawDragPreview : M unit :=
  u <- gets World.ui ;;
  renderOverlay (Ui.currentFaces u) (Ui.currentSelectedId u).

Definition handlePointerDown (x y : Q) : M unit :=
  u <- gets World.ui ;;
  let hit := hitTest u x y in
  set_drag (fun d =>
    Drag.mk (Drag.active d) (Drag.mode d) x y x y (Drag.targetFaceId d) (Drag.origBox d)) ;;
  match hit with
  | HitDelete _ =>
      (* Immediately delete the face *)
      handleFaceRemoved
  | HitResize face =>
      set_drag (fun d =>
        Drag.mk true (Some ModeResize) (Drag.startX d) (Drag.startY d)
                (Drag.currentX d) (Drag.currentY d)
                (Some (Face.id face)) (Some (copy_box (Face.box face))))
  | HitFace face =>
      if same_id (Face.id face) (Ui.currentSelectedId u) then
        (* Already selected: prepare for move *)
        set_drag (fun d =>
          Drag.mk true (Some ModeMove) (Drag.startX d) (Drag.startY d)
                  (Drag.currentX d) (Drag.currentY d)
                  (Some (Face.id face)) (Some (copy_box (Face.box face))))
      else
        (* Tap unselected face: select it *)
        handleCanvasClick x y
  | HitEmpty =>
      (* Empty space: start drawing new box *)
      set_drag (fun d =>
        Drag.mk true (Some ModeDraw) (Drag.startX d) (Drag.startY d)
                (Drag.currentX d) (Drag.currentY d) None None)
  end.

Definition handlePointerMove (x y : Q) : M unit :=
  u <- gets World.ui ;;
  if negb (Drag.active (Ui.drag u)) then ret tt
  else
    set_drag (fun d =>
      Drag.mk (Drag.active d) (Drag.mode d) (Drag.startX d) (Drag.startY d) x y
              (Drag.targetFaceId d) (Drag.origBox d)) ;;
    drawDragPreview.

Definition handlePointerUp (x y : Q) : M unit :=
  u <- gets World.ui ;;
  if negb (Drag.active (Ui.drag u)) then ret tt
  else
    set_drag (fun d =>
      Drag.mk (Drag.active d) (Drag.mode d) (Drag.startX d) (Drag.startY d) x y
              (Drag.targetFaceId d) (Drag.origBox d)) ;;
    u <- gets World.ui ;;
    let drag := Ui.drag u in
    let dx := x - Drag.startX drag in
    let dy := y - Drag.startY drag in
    let dist2 := dx * dx + dy * dy in
    match Drag.mode drag with
    | Some ModeDraw =>
        if dist2 <? 5 * 5 then
          (* Tiny drag = click on empty space *)
          handleCanvasClick x y
        else
          let box := getDragBox drag in
          if (Box.width box >? 10) && (Box.height box >? 10) then handleFaceDrawn box
          else ret tt
    | Some ModeMove =>
        if dist2 >? 3 * 3 then
          match Drag.origBox drag with
          | None => throw TypeError
          | Some origBox =>
              handleFaceMoved (Drag.targetFaceId drag)
                (Box.mk (Box.x origBox + dx) (Box.y origBox + dy)
                        (Box.width origBox) (Box.height origBox))
          end
        else ret tt
    | Some ModeResize =>
        box <- getResizeBox drag ;;
        handleFaceResized (Drag.targetFaceId drag) box
    | None => ret tt
    end ;;
    set_drag (fun d =>
      Drag.mk false None (Drag.startX d) (Drag.startY d) (Drag.currentX d)
              (Drag.currentY d) None None).

End Closures.
End CanvasClick.

(** The other copy of [ui.js] in the repository has no draw mode, and ends a
    move differently: a box dragged so that its centre leaves the canvas is
    removed.  Its hints ([clearDragHint]) only write the DOM. *)
Module CanvasClickRevised.
Section Closures.

Context {R : Rasteriser} {ML : MathLib} {C : Collaborators}.

Local Coercion inject_Z : Z >-> Q.
Local Open Scope Q_scope.

Definition getResizeBox (d : Drag.t) : M Box.t :=
  match Drag.origBox d with
  | None => throw TypeError
  | Some origBox =>
      let dx := Drag.currentX d - Drag.startX d in
      let dy := Drag.currentY d - Drag.startY d in
      (* Bottom-left handle: anchor is top-right corner *)
      let newWidth := Math.max 20 (Box.width origBox - dx) in
      let newHeight := Math.max 20 (Box.height origBox + dy) in
      let newX := Box.x origBox + Box.width origBox - newWidth in
      ret (Box.mk newX (Box.y origBox) newWidth newHeight)
  end.

Definition isOutsideCanvas (u : Ui.t) (x y : Q) : bool :=
  (x <? 0) || (y <? 0) || (x >? Ui.overlayWidth u) || (y >? Ui.overlayHeight u).

Definition handlePointerUp (x y : Q) : M unit :=
  u <- gets World.ui ;;
  if negb (Drag.active (Ui.drag u)) then ret tt
  else
    CanvasClick.set_drag (fun d =>
      Drag.mk (Drag.active d) (Drag.mode d) (Drag.startX d) (Drag.startY d) x y
              (Drag.targetFaceId d) (Drag.origBox d)) ;;
    u <- gets World.ui ;;
    let drag := Ui.drag u in
    let dx := x - Drag.startX drag in
    let dy := y - Drag.startY drag in
    let dist2 := dx * dx + dy * dy in
    match Drag.mode drag with
    | Some ModeMove =>
        match Drag.origBox drag with
        | None => throw TypeError
        | Some origBox =>
            let newCenterX := Box.x origBox + Box.width origBox / 2 + dx in
            let newCenterY := Box.y origBox + Box.height origBox / 2 + dy in
            if isOutsideCanvas u newCenterX newCenterY then
              (* Dragged outside: remove face *)
              handleFaceRemoved
            else if dist2 >? 3 * 3 then
              handleFaceMoved (Drag.targetFaceId drag)
                (Box.mk (Box.x origBox + dx) (Box.y origBox + dy)
                        (Box.width origBox) (Box.height origBox))
            else ret tt
        end
    | Some ModeResize =>
        box <- getResizeBox drag ;;
        handleFaceResized (Drag.targetFaceId drag) box
    | _ => ret tt
    end ;;
    CanvasClick.set_drag (fun d =>
      Drag.mk false None (Drag.startX d) (Drag.startY d) (Drag.currentX d)
              (Drag.currentY d) None None).

End Closures.
End CanvasClickRevised.

(** The event loop: a handler runs to completion; an exception it lets
    escape is reported and the state it had reached stays. *)
Definition dispatch {S A} (handler : SE S A) (s : S) : S := final (handler s).

(** ** A reference browser

    A small executable instance of the interfaces: a rasteriser without
    anti-aliasing (a pixel is painted when its centre is covered), with
    source-over compositing, nearest-neighbour sampling, a box blur and a
    disc for a glyph; rational approximations of the math library; a decoder
    that yields an empty 8 x 8 image for every image file. *)

Module Reference.

Local Coercion inject_Z : Z >-> Q.
Local Open Scope Q_scope.

Definition hex_digit (c : ascii) : option Z :=
  let n := Z.of_nat (nat_of_ascii c) in
  if ((48 <=? n) && (n <=? 57))%Z then Some (n - 48)%Z
  else if ((97 <=? n) && (n <=? 102))%Z then Some (n - 87)%Z
  else if ((65 <=? n) && (n <=? 70))%Z then Some (n - 55)%Z
  else None.

Definition hex_byte (a b : ascii) : option Z :=
  match hex_digit a, hex_digit b with
  | Some h, Some l => Some (16 * h + l)%Z
  | _, _ => None
  end.

(** ["#rrggbb"]; anything else paints black. *)
Definition parse_hex (s : string) : Z * Z * Z :=
  match s with
  | String "#" (String r1 (String r2 (String g1 (String g2
      (String b1 (String b2 EmptyString)))))) =>
      match hex_byte r1 r2, hex_byte g1 g2, hex_byte b1 b2 with
      | Some r, Some g, Some b => (r, g, b)
      | _, _, _ => (0, 0, 0)%Z
      end
  | _ => (0, 0, 0)%Z
  end.

Definition rgba_of (s : Style) : Z * Z * Z * Q :=
  match s with
  | Css str => (parse_hex str, 1)
  | CssRgb r g b => (r, g, b, 1)
  | CssRgba r g b a => (r, g, b, a)
  end.

(** Source-over compositing of a colour with opacity [alpha]. *)
Definition over (src : Z * Z * Z * Q) (dst : Z * Z * Z * Z) : Z * Z * Z * Z :=
  let '(r, g, b, alpha) := src in
  let '(r', g', b', a') := dst in
  let a := a' / 255 in
  let out := alpha + a * (1 - alpha) in
  if out <=? 0 then (0, 0, 0, 0)%Z
  else
    let mix (c c' : Z) := Math.round ((c * alpha + c' * a * (1 - alpha)) / out) in
    (mix r r', mix g g', mix b b', Math.round (out * 255)).

Definition in_bbox (b : BBox.t) (x y : Q) : bool :=
  (BBox.x0 b <=? x) && (x <=? BBox.x1 b) && (BBox.y0 b <=? y) && (y <=? BBox.y1 b).

Definition in_ellipse (s : PathSeg) (x y : Q) : bool :=
  match s with
  | EllipseArc cx cy rx ry =>
      (x - cx) * (x - cx) * (ry * ry) + (y - cy) * (y - cy) * (rx * rx)
      <=? rx * rx * (ry * ry)
  | _ => false
  end.

(** The vertices of the polygon a path traces; a curve goes through its
    control point. *)
Definition vertices (p : Path) : list (Q * Q) :=
  flat_map (fun s => match s with EllipseArc _ _ _ _ => [] | _ => seg_points s end) p.

Definition crosses (x y : Q) (a b : Q * Q) : bool :=
  let '(x1, y1) := a in
  let '(x2, y2) := b in
  negb (Bool.eqb (y1 >? y) (y2 >? y)) &&
  (x <? x1 + (y - y1) * (x2 - x1) / (y2 - y1)).

Fixpoint crossings (x y : Q) (first : Q * Q) (pts : list (Q * Q)) : nat :=
  match pts with
  | [] => O
  | [a] => if crosses x y a first then 1%nat else O
  | a :: (b :: _) as rest =>
      ((if crosses x y a b then 1 else 0) + crossings x y first rest)%nat
  end.

Definition in_polygon (pts : list (Q * Q)) (x y : Q) : bool :=
  match pts with
  | [] => false
  | first :: _ => Nat.odd (crossings x y first pts)
  end.

Definition in_path (p : Path) (x y : Q) : bool :=
  in_bbox (path_bbox p) x y &&
  (existsb (fun s => in_ellipse s x y) p || in_polygon (vertices p) x y).

Definition in_clip (clip : list Path) (x y : Q) : bool :=
  forallb (fun c => in_path c x y) clip.

Definition font_size (f : Font) : Q :=
  match f with
  | FontDefault => 10
  | FontPxSerif size => size
  end.

Definition covers (op : DrawOp) (x y : Q) : bool :=
  match op with
  | DFillRect _ clip rx ry w h => in_bbox (rect_bbox rx ry w h) x y && in_clip clip x y
  | DFill _ clip path => in_path path x y && in_clip clip x y
  | DFillText _ clip font _ _ _ tx ty =>
      ((x - tx) * (x - tx) + (y - ty) * (y - ty)
       <=? (font_size font / 2) * (font_size font / 2)) && in_clip clip x y
  | DImage clip _ _ _ _ _ sw sh dx dy dw dh =>
      negb (Qeq_bool sw 0) && negb (Qeq_bool sh 0) &&
      negb (Qeq_bool dw 0) && negb (Qeq_bool dh 0) &&
      in_bbox (rect_bbox dx dy dw dh) x y && in_clip clip x y
  | DPutImageData _ _ _ => false
  end.

(** The mean of the source pixels within [r] of [(i, j)]. *)
Definition box_mean (src : Bitmap.t) (i j r : Z) : Z * Z * Z * Q :=
  let window :=
    flat_map (fun b => map (fun a => ((i + a)%Z, (j + b)%Z)) (range (- r) (r + 1)))
             (range (- r) (r + 1)) in
  let n := Z.of_nat (List.length window) in
  let sum (k : Z) :=
    fold_left (fun acc ij => (acc + Bitmap.channel src (fst ij) (snd ij) k)%Z) window 0%Z in
  if (n =? 0)%Z then (0%Z, 0%Z, 0%Z, 0)
  else ((sum 0%Z / n)%Z, (sum 1%Z / n)%Z, (sum 2%Z / n)%Z, sum 3%Z / n / 255).

Definition shade (op : DrawOp) (x y : Q) : Z * Z * Z * Q :=
  match op with
  | DFillRect style _ _ _ _ _ => rgba_of style
  | DFill style _ _ => rgba_of style
  | DFillText style _ _ _ _ _ _ _ => rgba_of style
  | DImage _ filter _ src sx sy sw sh dx dy dw dh =>
      let u := Math.floor (sx + (x - dx) * sw / dw) in
      let v := Math.floor (sy + (y - dy) * sh / dh) in
      let r := match filter with Some (FilterBlur px) => Z.max 0 px | _ => 0%Z end in
      box_mean src u v r
  | DPutImageData _ _ _ => (0%Z, 0%Z, 0%Z, 0)
  end.

Definition component (px : Z * Z * Z * Z) (k : Z) : Z :=
  let '(r, g, b, a) := px in
  if (k =? 0)%Z then r else if (k =? 1)%Z then g else if (k =? 2)%Z then b else a.

Definition paint (b : Bitmap.t) (op : DrawOp) : Bitmap.t :=
  match op with
  | DPutImageData img dx dy => Bitmap.putImageData b img dx dy
  | _ =>
      Bitmap.mk (Bitmap.width b) (Bitmap.height b)
        (mapi (fun p old =>
                 let i := ((p / 4) mod Bitmap.width b)%Z in
                 let j := ((p / 4) / Bitmap.width b)%Z in
                 let x := i + 0.5 in
                 let y := j + 0.5 in
                 if covers op x y
                 then component (over (shade op x y) (Bitmap.getPixel b i j)) (p mod 4)
                 else old)
              (Bitmap.data b))
  end.

(** Six decimals of [sqrt], and of [cos] and [sin] by their Taylor
    polynomials after reduction to [[-pi, pi]]. *)
Definition micro (a : Q) : Q := Qred (inject_Z (Qfloor (a * 1000000)) / 1000000).

Definition pi : Q := 3.141592.

Definition sqrt (a : Q) : Q :=
  if a <=? 0 then 0
  else inject_Z (Z.sqrt (Qfloor (a * 1000000000000))) / 1000000.

Definition reduce (a : Q) : Q :=
  micro (a - 2 * pi * inject_Z (Qfloor (a / (2 * pi) + 0.5))).

(** [sum_{k < n} term_k] with [term_{k+1} = - term_k * t^2 / ((m+1)(m+2))]. *)
Fixpoint taylor (n : nat) (t2 term : Q) (m : Z) : Q :=
  match n with
  | O => 0
  | S n' => term + taylor n' t2 (micro (- term * t2 / ((m + 1)%Z * (m + 2)%Z))) (m + 2)%Z
  end.

Definition cos (a : Q) : Q := let t := reduce a in micro (taylor 10 (t * t) 1 0).
Definition sin (a : Q) : Q := let t := reduce a in micro (taylor 10 (t * t) t 1).

Definition decode_and_detect (f : File.t) (sensitivity : string) : LoadResult :=
  if String.prefix "image/" (File.type f) then Decoded (Bitmap.blank 8 8) []
  else Failed "Failed to load image".

End Reference.

#[export] Instance reference_math : MathLib :=
  {| PI := Reference.pi; sqrt := Reference.sqrt;
     cos := Reference.cos; sin := Reference.sin |}.

#[export] Instance reference_collaborators : Collaborators :=
  {| decode_and_detect := Reference.decode_and_detect |}.

(** ** Example states *)

Module Example.

Local Open Scope Q_scope.

(** A canvas holding the given pixels. *)
Definition canvas_of {RA : Rasteriser} (b : Bitmap.t) : Canvas.t :=
  Canvas.mk b initial_ctx [] [] [].

(** A generator whose first draws are [l] and whose later draws are [d]. *)
Definition draws (l : list Q) (d : Q) : Rng.t := Rng.mk (fun n => nth n l d) 0.

(** One canvas, at reference 0. *)
Definition gfx_with {RA : Rasteriser} (b : Bitmap.t) (r : Rng.t) : Gfx.t :=
  Gfx.mk (fun _ => canvas_of b) 1 r.

(** Four pixels in a row, from dark to light. *)
Definition row4 : Bitmap.t :=
  Bitmap.mk 4 1 [10; 11; 12; 255; 20; 21; 22; 255; 30; 31; 32; 255; 40; 41; 42; 255]%Z.

Definition detected (id : string) (box : Box.t) : Face.t :=
  Face.mk id box 0.9 None false None None None.

End Example.

(** ** The vocabulary of the specification *)

(** The in-bounds intersection of a face box with the canvas
    [[0, canvasWidth) x [0, canvasHeight)], in the words of the
    specification, and whether it has zero area. *)
Definition in_bounds_intersection (box : Box.t) (canvasWidth canvasHeight : Z)
  : BBox.t :=
  BBox.mk (Math.max 0 (Box.x box)) (Math.max 0 (Box.y box))
          (Math.min (inject_Z canvasWidth) (Box.x box + Box.width box)%Q)
          (Math.min (inject_Z canvasHeight) (Box.y box + Box.height box)%Q).

Definition zero_area (b : BBox.t) : bool :=
  (BBox.x1 b <=? BBox.x0 b)%Q || (BBox.y1 b <=? BBox.y0 b)%Q.

(** The position [getActivePhoto] finds. *)
Definition active_index (s : State.t) : option nat :=
  if truthy (State.activePhotoId s) then
    findIndex (fun p => same_id (Photo.id p) (State.activePhotoId s)) (State.photos s)
  else None.

(** The photo at a position of [state.photos]. *)
Definition photo (w : World.t) (i : nat) : Photo.t :=
  nth i (State.photos (World.app w)) no_photo.

(** A photo without its processed canvas, and what a session consists of
    apart from pixels and the overlay: the clock, the active id and the
    photos. *)
Definition document (p : Photo.t) : Photo.t := Photo.set_processedCanvas None p.

Definition documents (w : World.t) : Z * option string * list Photo.t :=
  (World.clock w, State.activePhotoId (World.app w),
   map document (State.photos (World.app w))).

(** The photo at a position replaced by its image under [f]. *)
Definition with_photo (i : nat) (f : Photo.t -> Photo.t) (w : World.t) : World.t :=
  World.set_app
    (State.set_photos (adjust i f (State.photos (World.app w))) (World.app w)) w.

(** What undo and redo are about: the face list, the selection and the two
    stacks of a photo. *)
Definition history (p : Photo.t)
  : list Face.t * option string * list Snapshot.t * list Snapshot.t :=
  (Photo.faces p, Photo.selectedFaceId p, Photo.undoStack p, Photo.redoStack p).

(** The operations that change a face list. *)
Inductive Mutation : Type :=
| Add (box : Box.t)
| AddByClick (x y : Q)
| Move (faceId : string) (newBox : Box.t)
| Resize (faceId : string) (newBox : Box.t)
| Remove.

Definition perform {RA : Rasteriser} {ML : MathLib} {CO : Collaborators}
  (op : Mutation) : M unit :=
  match op with
  | Add box => handleFaceDrawn box
  | AddByClick x y => handleCanvasClick x y
  | Move faceId newBox => handleFaceMoved (Some faceId) newBox
  | Resize faceId newBox => handleFaceResized (Some faceId) newBox
  | Remove => handleFaceRemoved
  end.

(** Whether an operation has something to change on the active photo: a
    loaded image to add a region to (by a click: on empty space, with nothing
    selected), the face to move or resize, a selected face to remove. *)
Definition mutates (op : Mutation) (p : Photo.t) : bool :=
  match op with
  | Add _ => is_loaded p
  | AddByClick x y =>
      is_loaded p &&
      match find (fun f => box_contains (Face.box f) x y) (Photo.faces p) with
      | Some _ => false
      | None => negb (truthy (Photo.selectedFaceId p))
      end
  | Move faceId _ | Resize faceId _ =>
      match findIndex (fun f => same_id (Face.id f) (Some faceId)) (Photo.faces p) with
      | Some _ => true
      | None => false
      end
  | Remove =>
      truthy (Photo.selectedFaceId p) &&
      match findIndex (fun f => same_id (Face.id f) (Photo.selectedFaceId p))
                      (Photo.faces p) with
      | Some _ => true
      | None => false
      end
  end.

(** A run of operations each of which finds something to change on the photo
    at position [i]. *)
Fixpoint mutating_run {RA : Rasteriser} {ML : MathLib} {CO : Collaborators}
  (ops : list Mutation) (i : nat) (w : World.t) : Prop :=
  match ops with
  | [] => True
  | op :: rest =>
      mutates op (photo w i) = true /\
      mutating_run rest i (dispatch (perform op) w)
  end.

Definition perform_all {RA : Rasteriser} {ML : MathLib} {CO : Collaborators}
  (ops : list Mutation) (w : World.t) : World.t :=
  fold_left (fun w op => dispatch (perform op) w) ops w.

(** [n] times undo. *)
Definition undo_times {RA : Rasteriser} {ML : MathLib} {CO : Collaborators}
  (n : nat) (w : World.t) : World.t :=
  Nat.iter n (dispatch handleUndo) w.

(** A computation that changes no document when there is an active photo. *)
Definition quiet {A} (m : M A) : Prop :=
  forall w i, active_index (World.app w) = Some i ->
              documents (final (m w)) = documents w.

(** ** Example sessions *)

Module Session.

Local Open Scope Q_scope.

(** A detected photo whose image is the canvas at [fullCanvas]. *)
Definition loaded (id : string) (fullCanvas : Ref) (faces : list Face.t) : Photo.t :=
  Photo.mk id None id (Some fullCanvas) None faces None None [] [] Detected None.

Definition idle : Drag.t := Drag.mk false None 0 0 0 0 None None.

(** A session over the graphics state [g], showing nothing yet. *)
Definition world (g : Gfx.t) (photos : list Photo.t) (active : option string)
  : World.t :=
  World.mk g
           (State.mk photos active "blackout" 50 "medium" (Options.mk None None)
                     "image/jpeg" 0.9)
           false (Ui.mk idle [] None 0 0 0) 1700000000000.

(** One photo, with one detected face. *)
Definition one_face {RA : Rasteriser} : World.t :=
  world (Example.gfx_with Example.row4 (Example.draws [] 0))
        [loaded "photo-1" 0%nat [Example.detected "face-0" (Box.mk 0 0 2 1)]]
        (Some "photo-1"%string).

(** The face moved to [x = 1], [x = 2], ..., [x = n], one move at a time. *)
Definition moves (n : nat) : list Mutation :=
  map (fun k => Move "face-0" (Box.mk (inject_Z (Z.of_nat (S k))) 0 2 1)) (seq 0 n).

(** Four photos just added, the first one showing. *)
Definition four_photos {RA : Rasteriser} : World.t :=
  world (Example.gfx_with Example.row4 (Example.draws [] 0))
        (map (fun id => Photo.create id (File.mk (id ++ ".jpg") "image/jpeg" 1000))
             ["A"; "B"; "C"; "D"]%string)
        (Some "A"%string).

(** Four photos that all hold a surface, the first one showing. *)
Definition four_loaded {RA : Rasteriser} : World.t :=
  world (Example.gfx_with Example.row4 (Example.draws [] 0))
        (map (fun id => loaded id 0%nat []) ["A"; "B"; "C"; "D"]%string)
        (Some "A"%string).

(** A 32 x 32 photo shown ten times enlarged, its one face selected. *)
Definition selected_face {RA : Rasteriser} : World.t :=
  let faces := [Example.detected "face-0" (Box.mk 2 6 26 26)] in
  World.mk (Example.gfx_with (Bitmap.blank 32 32) (Example.draws [] 0))
           (State.mk [Photo.mk "photo-1" None "photo-1" (Some 0%nat) None faces
                               (Some "face-0"%string) None [] [] Detected None]
                     (Some "photo-1"%string) "blackout" 50 "medium"
                     (Options.mk None None) "image/jpeg" 0.9)
           false (Ui.mk idle faces (Some "face-0"%string) 32 32 320) 1700000000000.

End Session.






(** Eviction, photo by photo: an inactive photo that holds a surface, the
    photo after eviction, and the list with its first [n] inactive loaded
    photos evicted. *)
Definition inactive_loaded (active : option string) (p : Photo.t) : bool :=
  is_loaded p && negb (same_id (Photo.id p) active).

Definition evicted (p : Photo.t) : Photo.t :=
  Photo.set_processedCanvas None (Photo.set_fullCanvas None p).

Definition evict_inactive (active : option string) (p : Photo.t) : Photo.t :=
  if inactive_loaded active p then evicted p else p.

Fixpoint evict_first (active : option string) (n : nat) (l : list Photo.t)
  : list Photo.t :=
  match n, l with
  | O, _ => l
  | _, [] => []
  | S n', p :: l' =>
      if inactive_loaded active p then evicted p :: evict_first active n' l'
      else p :: evict_first active n l'
  end.

Definition count_loaded (l : list Photo.t) : nat :=
  List.length (List.filter is_loaded l).

Definition count_active (active : option string) (l : list Photo.t) : nat :=
  List.length (List.filter (fun p => same_id (Photo.id p) active) l).

(** ** Regions of the canvas *)

(** The face box scaled about its centre, and the face box grown by a number
    of pixels on every side. *)
Definition box_scaled (box : Box.t) (kx ky : Q) : BBox.t :=
  let cx := (Box.x box + Box.width box / 2)%Q in
  let cy := (Box.y box + Box.height box / 2)%Q in
  BBox.mk (cx - kx * (Box.width box / 2)) (cy - ky * (Box.height box / 2))
          (cx + kx * (Box.width box / 2)) (cy + ky * (Box.height box / 2))%Q.

Definition grown_box (box : Box.t) (px : Q) : BBox.t :=
  BBox.mk (Box.x box - px) (Box.y box - px)
          (Box.x box + Box.width box + px) (Box.y box + Box.height box + px)%Q.

Definition box_itself (box : Box.t) : BBox.t := grown_box box 0.

Definition bbox_inside (inner outer : BBox.t) : Prop :=
  (BBox.x0 outer <= BBox.x0 inner /\ BBox.x1 inner <= BBox.x1 outer /\
   BBox.y0 outer <= BBox.y0 inner /\ BBox.y1 inner <= BBox.y1 outer)%Q.

(** [Math.random] returns numbers in [[0, 1)]. *)
Definition unit_draws (g : Gfx.t) : Prop :=
  forall n, (0 <= Rng.draws (Gfx.rng g) n < 1)%Q.

(** The pixel [(i, j)] of canvas [r] in a graphics state. *)
Definition pixel_at (g : Gfx.t) (r : Ref) (i j : Z) : Z * Z * Z * Z :=
  Bitmap.getPixel (Canvas.bitmap (Gfx.cells g r)) i j.

(** A computation that, from a state satisfying [P], ends (returning or
    throwing) in a state satisfying [P] with pixel [(i, j)] of canvas [ctx] as
    it was. *)
Definition keeps (P : Gfx.t -> Prop) (ctx : Ref) (i j : Z) {A} (m : G A) : Prop :=
  forall g, P g ->
    P (final (m g)) /\ pixel_at (final (m g)) ctx i j = pixel_at g ctx i j.

Definition any_state (g : Gfx.t) : Prop := True.

(** A computation that never throws. *)
Definition returns {S A} (m : SE S A) : Prop :=
  forall s, exists a s', m s = Returned a s'.

(** The padding of the blur clip: 5% of the smaller box dimension, at most
    20 pixels. *)
Definition blur_padding (box : Box.t) : Q :=
  Math.min (Math.min (Box.width box) (Box.height box) * 0.05) 20.

(** Whether pixel [(i, j)] lies in the rectangle of [w] by [h] pixels at
    [(x, y)]. *)
Definition in_rectangle (x y w h i j : Z) : Prop :=
  (x <= i < x + w /\ y <= j < y + h)%Z.

(** The rectangle of a [fillRect] covers a point. *)
Definition bar_covers (bar : DrawOp) (p : Point.t) : Prop :=
  match bar with
  | DFillRect _ _ bx by_ bw bh =>
      (bx <= Point.x p <= bx + bw /\ by_ <= Point.y p <= by_ + bh)%Q
  | _ => False
  end.


(** Sixty-eight landmark points on a zigzag. *)
Definition sixty_eight_points : list Point.t :=
  map (fun k => Point.mk (inject_Z (Z.of_nat k)) (inject_Z (Z.of_nat (k mod 7))))
      (seq 0 68).

(** A computation that changes the size of no canvas that exists. *)
Definition steady (n : nat) {A} (m : G A) : Prop :=
  forall g, (n <= Gfx.size g)%nat ->
    (Gfx.size g <= Gfx.size (final (m g)))%nat /\
    forall r, (r < n)%nat ->
      Canvas.width (Gfx.cells (final (m g)) r) = Canvas.width (Gfx.cells g r) /\
      Canvas.height (Gfx.cells (final (m g)) r) = Canvas.height (Gfx.cells g r).


(** ** Events of the history manager *)

(** An edit of the face list, an undo or a redo. *)
Inductive HistoryEvent : Type :=
| Edit (op : Mutation)
| Undo
| Redo.

Definition handle {RA : Rasteriser} {ML : MathLib} {CO : Collaborators}
  (e : HistoryEvent) : M unit :=
  match e with
  | Edit op => perform op
  | Undo => handleUndo
  | Redo => handleRedo
  end.

Definition handle_all {RA : Rasteriser} {ML : MathLib} {CO : Collaborators}
  (events : list HistoryEvent) (w : World.t) : World.t :=
  fold_left (fun w e => dispatch (handle e) w) events w.

(** The number of snapshots a photo holds on its two stacks. *)
Definition snapshots (p : Photo.t) : nat :=
  (List.length (Photo.undoStack p) + List.length (Photo.redoStack p))%nat.





(** A gesture on the canvas: the pointer goes down at [(x0, y0)], moves
    through the points of [path] and goes up at [(x, y)], each event handled
    to completion before the next. *)
Definition gesture {RA : Rasteriser} {ML : MathLib} {CO : Collaborators}
  (x0 y0 : Q) (path : list (Q * Q)) (x y : Q) (w : World.t) : World.t :=
  dispatch (CanvasClick.handlePointerUp x y)
    (fold_left (fun w p => dispatch (CanvasClick.handlePointerMove (fst p) (snd p)) w)
               path
               (dispatch (CanvasClick.handlePointerDown x0 y0) w)).

(** A drag in progress that began at [(x0, y0)]: what the handlers have set
    since the pointer went down in the session [w0]. *)
Definition dragging (mode : DragMode) (x0 y0 : Q) (target : option string)
  (orig : option Box.t) (w0 w : World.t) : Prop :=
  World.app w = World.app w0 /\ World.gfx w = World.gfx w0 /\
  World.clock w = World.clock w0 /\
  Drag.active (Ui.drag (World.ui w)) = true /\
  Drag.mode (Ui.drag (World.ui w)) = Some mode /\
  Drag.startX (Ui.drag (World.ui w)) = x0 /\
  Drag.startY (Ui.drag (World.ui w)) = y0 /\
  Drag.targetFaceId (Ui.drag (World.ui w)) = target /\
  Drag.origBox (Ui.drag (World.ui w)) = orig.


(** * More of the program *)

(** ** js/canvas-utils.js: the detection canvas *)

Section DetectionCanvas.

Context {R : Rasteriser}.

Local Coercion inject_Z : Z >-> Q.
Local Open Scope Q_scope.




End DetectionCanvas.

(** ** js/detector.js *)

(** One result of [faceapi.detectAllFaces(canvas, options).withFaceLandmarks()]:
    [detection.box], [detection.score] and [landmarks]. *)
Module Detection.
Record t : Type := mk { box : Box.t; score : Q; landmarks : Landmarks }.
End Detection.

(** [window.faceapi], as far as [detectFaces] uses it: the results for the
    pixels of a canvas and the [minConfidence] of the options ([None] for
    [undefined]), or the reason of a rejection. *)
Definition FaceApi : Type := Bitmap.t -> option Q -> list Detection.t + string.

(** What the module reads: [window.faceapi] and [modelsLoaded]. *)
Module Detector.
Record t : Type := mk { faceapi : option FaceApi; modelsLoaded : bool }.
End Detector.

Section Detector.

Context {R : Rasteriser}.

Local Coercion inject_Z : Z >-> Q.
Local Open Scope Q_scope.

Definition SENSITIVITY_PRESETS : list (string * Q) :=
  [("low"%string, 0.5); ("medium"%string, 0.3); ("high"%string, 0.15)].

(** The property names every object inherits from [Object.prototype]. *)
Definition inherited_names : list string :=
  ["constructor"; "__defineGetter__"; "__defineSetter__"; "hasOwnProperty";
   "__lookupGetter__"; "__lookupSetter__"; "isPrototypeOf";
   "propertyIsEnumerable"; "toString"; "valueOf"; "__proto__";
   "toLocaleString"]%string.

Fixpoint own_property {A} (key : string) (o : list (string * A)) : option A :=
  match o with
  | [] => None
  | (k, v) :: o' => if String.eqb k key then Some v else own_property key o'
  end.

(** [(SENSITIVITY_PRESETS[sensitivity] || SENSITIVITY_PRESETS.medium).minConfidence]:
    an inherited name finds a function or [Object.prototype], which is truthy
    and has no [minConfidence]. *)
Definition minConfidence (sensitivity : string) : option Q :=
  match own_property sensitivity SENSITIVITY_PRESETS with
  | Some c => Some c
  | None =>
      if existsb (String.eqb sensitivity) inherited_names then None
      else own_property "medium" SENSITIVITY_PRESETS
  end.

(** [results.map((r, index) => ...)], for the positions from [index] on. *)
Fixpoint map_indexed {A B} (f : A -> nat -> B) (index : nat) (l : list A) : list B :=
  match l with
  | [] => []
  | a :: l' => f a index :: map_indexed f (S index) l'
  end.

(** Detect faces in a canvas element; [detectionScale] is not zero. *)
Definition detectFaces (d : Detector.t) (canvas : Ref) (sensitivity : string)
  (detectionScale : Q) : G (list Face.t) :=
  if negb (Detector.modelsLoaded d) then throw (Rejected "Models not loaded")
  else
    match Detector.faceapi d with
    | None => throw (Rejected "face-api.js not loaded. Check script tag in index.html.")
    | Some faceapi =>
        c <- lookup canvas ;;
        match faceapi (Canvas.bitmap c) (minConfidence sensitivity) with
        | inr reason => throw (Rejected reason)
        | inl results =>
            (* Scale coordinates back to full resolution and normalize the output *)
            ret (map_indexed
                   (fun r index =>
                      let box := Detection.box r in
                      let scale := 1 / detectionScale in
                      let scaledBox :=
                        Box.mk (Box.x box * scale) (Box.y box * scale)
                               (Box.width box * scale) (Box.height box * scale) in
                      let scaledLandmarks :=
                        match Detection.landmarks r with
                        | Some positions =>
                            Some (map (fun p => Point.mk (Point.x p * scale)
                                                         (Point.y p * scale))
                                      positions)
                        | None => None
                        end in
                      Face.mk ("face-" ++ decimal (Z.of_nat index)) scaledBox
                              (Detection.score r) scaledLandmarks false
                              None None None)
                   0%nat results)
        end
    end.

(** ** js/processor.js: detecting again *)


End Detector.

(** ** js/app.js: the sensitivity of the detector *)

Section Sensitivity.

Context {R : Rasteriser} {ML : MathLib} {C : Collaborators}.



End Sensitivity.

(** ** Detection *)

(** A face as [detectFaces] makes it from a result of the detector: not
    manual, with the score of the result, and a box that is the box of the
    result once scaled by [detectionScale]. *)
Definition detected_from (detectionScale : Q) (r : Detection.t) (f : Face.t) : Prop :=
  Face.manual f = false /\ Face.score f = Detection.score r /\
  (Box.x (Face.box f) * detectionScale == Box.x (Detection.box r))%Q /\
  (Box.y (Face.box f) * detectionScale == Box.y (Detection.box r))%Q /\
  (Box.width (Face.box f) * detectionScale == Box.width (Detection.box r))%Q /\
  (Box.height (Face.box f) * detectionScale == Box.height (Detection.box r))%Q.

(** ** js/canvas-utils.js and js/processor.js: export *)

(** What [canvas.toBlob] hands to its callback: the pixels, encoded as
    [type] at [quality]. *)
Module Blob.
Record t : Type := mk { image : Bitmap.t; type : string; quality : Q }.
End Blob.

(** What [downloadBlob] asks the browser to save. *)
Module Download.
Record t : Type := mk { blob : Blob.t; filename : string }.
End Download.

Section Exporting.

Context {R : Rasteriser} {ML : MathLib}.

Local Coercion inject_Z : Z >-> Q.
Local Open Scope Q_scope.

(** Export a canvas as a Blob: [null] for a canvas without pixels. *)
Definition exportAsBlob (canvas : Ref) (format : string) (quality : Q)
  : G (option Blob.t) :=
  c <- lookup canvas ;;
  if (Canvas.width c =? 0)%Z || (Canvas.height c =? 0)%Z then ret None
  else ret (Some (Blob.mk (Canvas.bitmap c) format quality)).

(** Trigger a download of a Blob; [URL.createObjectURL(null)] is a
    [TypeError].  The value returned is the download triggered. *)
Definition downloadBlob (blob : option Blob.t) (filename : string) : G Download.t :=
  match blob with
  | None => throw TypeError
  | Some b => ret (Download.mk b filename)
  end.

Fixpoint dot_free (s : string) : bool :=
  match s with
  | EmptyString => true
  | String c s' => negb (Ascii.eqb c ".") && dot_free s'
  end.

(** [s.replace(/\.[^.]+$/, '')]: the match, if there is one, begins at the
    first dot that is followed to the end of the string by one or more
    characters other than a dot. *)
Fixpoint strip_extension (s : string) : string :=
  match s with
  | EmptyString => EmptyString
  | String c rest =>
      if Ascii.eqb c "." && negb (String.eqb rest "") && dot_free rest
      then EmptyString
      else String c (strip_extension rest)
  end.

(** Export the processed canvas and trigger download.  Returns the file
    name, here with the download. *)
Definition exportImage (processedCanvas : Ref) (format : string) (quality : Q)
  (originalFilename : string) : G (string * Download.t) :=
  let mimeType :=
    (if String.eqb format "jpeg" then "image/jpeg" else "image/png")%string in
  let ext := (if String.eqb format "jpeg" then ".jpg" else ".png")%string in
  (* Build output filename *)
  let baseName :=
    if negb (String.eqb originalFilename "") then strip_extension originalFilename
    else "photo"%string in
  let filename := ("faceblock_" ++ baseName ++ ext)%string in
  blob <- exportAsBlob processedCanvas mimeType quality ;;
  download <- downloadBlob blob filename ;;
  ret (filename, download).

End Exporting.

(** ** js/app.js: downloads *)

(** The files of a [JSZip] archive, in the order they were added. *)
Definition Zip : Type := list (string * option Blob.t).

Section Downloads.

Context {R : Rasteriser} {ML : MathLib} {C : Collaborators}.

Local Coercion inject_Z : Z >-> Q.
Local Open Scope Q_scope.

(** A failure of the export is reported on the page and goes no further. *)
Definition handleDownload : M (option Download.t) :=
  a <- getActivePhoto ;;
  match a with
  | None => ret None
  | Some i =>
      photo <- photo_at i ;;
      match Photo.fullCanvas photo with
      | None => ret None
      | Some fullCanvas =>
          if (List.length (Photo.faces photo) =? 0)%nat then ret None
          else
            try_catch
              (s <- app_state ;;
               processed <- liftG (processImage fullCanvas (Photo.faces photo)
                                     (State.effectId s) (State.intensity s)
                                     (State.options s)) ;;
               exported <- liftG (exportImage processed (State.format s)
                                    (State.quality s)
                                    (Photo.originalFilename photo)) ;;
               ret (Some (snd exported)))
              (fun _ => ret None)
      end
  end.

(** [zip.file(name, data)]: a file of that name is replaced. *)
Definition zip_file (name : string) (data : option Blob.t) (zip : Zip) : Zip :=
  if existsb (fun e => String.eqb (fst e) name) zip then
    map (fun e => if String.eqb (fst e) name then (name, data) else e) zip
  else zip ++ [(name, data)].

(** The loop that handles duplicate names, at most [fuel] turns of it:
    [while (usedNames.has(filename)) { filename = ...; counter++; }]. *)
Fixpoint unused_name (fuel : nat) (usedNames : list string) (baseName ext : string)
  (filename : string) (counter : Z) : string :=
  match fuel with
  | O => filename
  | S fuel' =>
      if existsb (String.eqb filename) usedNames then
        unused_name fuel' usedNames baseName ext
          ("faceblock_" ++ baseName ++ "(" ++ decimal counter ++ ")" ++ ext)%string
          (counter + 1)%Z
      else filename
  end.

(** [jszip] is [JSZip] if it is defined: whether [generateAsync] fulfils for
    an archive.  The value returned is the archive downloaded as
    faceblock_photos.zip, if one is. *)
Definition handleDownloadAll (jszip : option (Zip -> bool)) : M (option Zip) :=
  s <- app_state ;;
  if (List.length (State.photos s) =? 0)%nat then ret None
  else
    match jszip with
    | None => ret None
    | Some generateAsync =>
        archive <-
          foldM (fun (acc : Zip * list string) i =>
                   let zip := fst acc in
                   let usedNames := snd acc in
                   photo <- photo_at i ;;
                   (* Ensure canvas is loaded *)
                   (if negb (is_loaded photo) then processPhoto i else ret tt) ;;
                   photo <- photo_at i ;;
                   match Photo.fullCanvas photo with
                   | None => ret acc (* Skip errored photos *)
                   | Some fullCanvas =>
                       s <- app_state ;;
                       processed <- liftG (processImage fullCanvas (Photo.faces photo)
                                             (State.effectId s) (State.intensity s)
                                             (State.options s)) ;;
                       let mimeType :=
                         (if String.eqb (State.format s) "jpeg" then "image/jpeg"
                          else "image/png")%string in
                       let ext :=
                         (if String.eqb (State.format s) "jpeg" then ".jpg"
                          else ".png")%string in
                       let baseName := strip_extension (Photo.originalFilename photo) in
                       (* Handle duplicate names *)
                       let filename :=
                         unused_name (List.length usedNames) usedNames baseName ext
                                     ("faceblock_" ++ baseName ++ ext)%string 1%Z in
                       blob <- liftG (exportAsBlob processed mimeType (State.quality s)) ;;
                       ret (zip_file filename blob zip, usedNames ++ [filename])
                   end)
                (seq 0 (List.length (State.photos s))) ([], []) ;;
        if generateAsync (fst archive) then ret (Some (fst archive)) else ret None
    end.

End Downloads.

(** ** Export *)




(** ** js/app.js: adding and removing photos *)

Section Photos.

Context {R : Rasteriser} {ML : MathLib} {C : Collaborators}.

(** [Math.random().toString(36)] of a number, and what awaiting
    [generateThumbnail(file)] yields: a data URL, or [null]. *)
Variable toString36 : Q -> string.
Variable generateThumbnail : File.t -> option string.

Definition set_file (v : option File.t) (p : Photo.t) : Photo.t :=
  Photo.mk (Photo.id p) v (Photo.originalFilename p) (Photo.fullCanvas p)
           (Photo.thumbnailDataUrl p) (Photo.faces p) (Photo.selectedFaceId p)
           (Photo.processedCanvas p) (Photo.undoStack p) (Photo.redoStack p)
           (Photo.status p) (Photo.error p).

Definition set_thumbnailDataUrl (v : option string) (p : Photo.t) : Photo.t :=
  Photo.mk (Photo.id p) (Photo.file p) (Photo.originalFilename p) (Photo.fullCanvas p)
           v (Photo.faces p) (Photo.selectedFaceId p)
           (Photo.processedCanvas p) (Photo.undoStack p) (Photo.redoStack p)
           (Photo.status p) (Photo.error p).

(** Create a new per-photo state object. *)
Definition createPhotoState (file : File.t) : M Photo.t :=
  now <- gets World.clock ;;
  r <- liftG random ;;
  ret (Photo.create ("photo-" ++ decimal now ++ "-" ++ substring 2 6 (toString36 r)) file).

(** [files.map(f => createPhotoState(f))] *)
Fixpoint createPhotoStates (files : list File.t) : M (list Photo.t) :=
  match files with
  | [] => ret []
  | f :: files' =>
      photo <- createPhotoState f ;;
      photos <- createPhotoStates files' ;;
      ret (photo :: photos)
  end.

(** Handle file selection (supports multiple files).  [switchToPhoto] is
    awaited; [processQueue] is started and left to itself. *)
Definition handleFilesSelected (files : list File.t) : M unit :=
  let imageFiles :=
    List.filter (fun f => prefix "image/" (File.type f) &&
                          (File.size f <=? 50 * 1024 * 1024)%Z) files in
  if (List.length imageFiles =? 0)%nat then ret tt
  else
    s <- app_state ;;
    (* Enforce photo limit *)
    let slotsAvailable := (Z.of_nat MAX_PHOTOS - Z.of_nat (List.length (State.photos s)))%Z in
    if (slotsAvailable <=? 0)%Z then ret tt
    else
      let toAdd := firstn (Z.to_nat slotsAvailable) imageFiles in
      (* Create photo states and generate thumbnails *)
      newPhotos <- createPhotoStates toAdd ;;
      modify_app (fun s => State.set_photos (State.photos s ++ newPhotos) s) ;;
      forM_ (seq (List.length (State.photos s)) (List.length newPhotos))
            (fun i =>
               photo <- photo_at i ;;
               modify_photo i (set_thumbnailDataUrl
                                 (match Photo.file photo with
                                  | Some file => generateThumbnail file
                                  | None => None
                                  end))) ;;
      (* Switch to first new photo if no active photo *)
      s <- app_state ;;
      (if negb (truthy (State.activePhotoId s)) then
         modify_app (State.set_activePhotoId
                       (Some (Photo.id (nth 0 newPhotos no_photo))))
       else ret tt) ;;
      (* Process the active photo first, then queue the rest *)
      s <- app_state ;;
      match State.activePhotoId s with
      | Some activePhotoId => switchToPhoto activePhotoId
      | None => ret tt
      end ;;
      try_catch processQueue (fun _ => ret tt).

(** [switchToPhoto] is started and left to itself: a failure in it goes no
    further. *)
Definition handlePhotoRemoved (photoId : string) : M unit :=
  s <- app_state ;;
  match findIndex (fun p => String.eqb (Photo.id p) photoId) (State.photos s) with
  | None => ret tt
  | Some idx =>
      (* Clean up canvas references *)
      modify_photo idx (fun removed =>
        set_file None (Photo.set_processedCanvas None (Photo.set_fullCanvas None removed))) ;;
      modify_app (fun s => State.set_photos (remove_at idx (State.photos s)) s) ;;
      s <- app_state ;;
      if (List.length (State.photos s) =? 0)%nat then
        (* No photos left: reset to empty state *)
        modify_app (State.set_activePhotoId None)
      else if same_id photoId (State.activePhotoId s) then
        (* Switch to nearest photo *)
        let newIdx := Nat.min idx (List.length (State.photos s) - 1) in
        try_catch (switchToPhoto (Photo.id (nth newIdx (State.photos s) no_photo)))
                  (fun _ => ret tt)
      else ret tt
  end.

Definition handleNewPhoto : M unit :=
  modify_app (fun s => State.set_activePhotoId None (State.set_photos [] s)).

End Photos.

(** ** The photos of a session *)

(** The id and the file of each photo, in the order of [state.photos], with
    the id of the active photo. *)
Definition roster (w : World.t) : option string * list (string * option File.t) :=
  (State.activePhotoId (World.app w),
   map (fun p => (Photo.id p, Photo.file p)) (State.photos (World.app w))).

(** The active id, when there is one, is the id of a photo. *)
Definition consistent (w : World.t) : Prop :=
  truthy (State.activePhotoId (World.app w)) = true ->
  active_index (World.app w) <> None.

(** A computation that, in a consistent session, changes neither the ids or
    the files of the photos nor the active id, whether it returns or
    throws. *)
Definition rostered {A} (m : M A) : Prop :=
  forall w, consistent w -> roster (final (m w)) = roster w.

(** * Properties *)

(** ** Lists, typed arrays and bitmaps *)

Lemma length_mapi_from {A B} (f : Z -> A -> B) (l : list A) (s : Z) :
  List.length (mapi_from f s l) = List.length l.
Proof.
  revert s. induction l as [|a l IH]; intros s; simpl; [reflexivity|].
  now rewrite IH.
Qed.

Lemma length_mapi {A B} (f : Z -> A -> B) (l : list A) :
  List.length (mapi f l) = List.length l.
Proof. apply length_mapi_from. Qed.

Lemma nth_mapi_from (f : Z -> Z -> Z) (l : list Z) (s : Z) (n : nat) :
  (n < List.length l)%nat ->
  nth n (mapi_from f s l) 0 = f (s + Z.of_nat n) (nth n l 0).
Proof.
  revert s n. induction l as [|a l IH]; intros s n Hn; simpl in Hn; [lia|].
  destruct n as [|n]; simpl.
  - now rewrite Z.add_0_r.
  - rewrite IH by lia. f_equal. lia.
Qed.

Lemma aget_mapi_in (f : Z -> Z -> Z) (l : list Z) (p : Z) :
  0 <= p < Z.of_nat (List.length l) ->
  aget (mapi f l) p = f p (aget l p).
Proof.
  intros Hp. unfold aget, mapi.
  destruct (p <? 0) eqn:E; [apply Z.ltb_lt in E; lia|].
  rewrite nth_mapi_from by lia.
  now rewrite Z.add_0_l, Z2Nat.id by lia.
Qed.

Lemma aget_beyond (l : list Z) (p : Z) :
  Z.of_nat (List.length l) <= p -> aget l p = 0.
Proof.
  intros Hp. unfold aget. destruct (p <? 0); [reflexivity|].
  apply nth_overflow. lia.
Qed.

Lemma pixel_index (w i j k : Z) :
  0 <= i < w -> 0 <= j -> 0 <= k < 4 ->
  let p := 4 * (j * w + i) + k in
  0 <= p /\ p mod 4 = k /\ (p / 4) mod w = i /\ (p / 4) / w = j.
Proof.
  intros Hi Hj Hk p.
  assert (Hq : p / 4 = j * w + i).
  { unfold p. rewrite (Z.mul_comm 4), Z.div_add_l by lia.
    rewrite (Z.div_small k 4) by lia. lia. }
  assert (Hm : p mod 4 = k).
  { unfold p. rewrite Z.add_comm, (Z.mul_comm 4), Z.mod_add by lia.
    apply Z.mod_small; lia. }
  rewrite Hq. repeat split.
  - unfold p. nia.
  - exact Hm.
  - rewrite Z.add_comm, Z.mod_add by lia. apply Z.mod_small; lia.
  - rewrite Z.div_add_l by lia. rewrite (Z.div_small i w) by lia. lia.
Qed.

Lemma inside_true (b : Bitmap.t) (i j : Z) :
  Bitmap.inside b i j = true ->
  0 <= i < Bitmap.width b /\ 0 <= j < Bitmap.height b.
Proof.
  unfold Bitmap.inside. intros H.
  repeat (apply andb_prop in H; destruct H as [H ?]).
  repeat match goal with
         | H : (_ <=? _) = true |- _ => apply Z.leb_le in H
         | H : (_ <? _) = true |- _ => apply Z.ltb_lt in H
         end.
  lia.
Qed.

(** A bitmap rewritten byte by byte keeps every byte the rewriting function
    leaves alone. *)
Lemma channel_mapi_frame (b : Bitmap.t) (f : Z -> Z -> Z) (i j k : Z) :
  0 <= k < 4 ->
  (0 <= i < Bitmap.width b -> 0 <= j < Bitmap.height b ->
   forall old, f (4 * (j * Bitmap.width b + i) + k) old = old) ->
  Bitmap.channel (Bitmap.mk (Bitmap.width b) (Bitmap.height b)
                            (mapi f (Bitmap.data b))) i j k
  = Bitmap.channel b i j k.
Proof.
  intros Hk Hf. unfold Bitmap.channel, Bitmap.inside. simpl.
  fold (Bitmap.inside b i j).
  destruct (Bitmap.inside b i j) eqn:Hin; [|reflexivity].
  apply inside_true in Hin. destruct Hin as [Hi Hj].
  assert (Hp : 0 <= 4 * (j * Bitmap.width b + i) + k) by nia.
  destruct (Z_lt_le_dec (4 * (j * Bitmap.width b + i) + k)
                        (Z.of_nat (List.length (Bitmap.data b)))) as [Hlt|Hge].
  - rewrite aget_mapi_in by (split; assumption). now apply Hf.
  - rewrite !aget_beyond; [reflexivity|assumption|now rewrite length_mapi].
Qed.

Lemma getPixel_mapi_frame (b : Bitmap.t) (f : Z -> Z -> Z) (i j : Z) :
  (0 <= i < Bitmap.width b -> 0 <= j < Bitmap.height b ->
   forall k old, 0 <= k < 4 -> f (4 * (j * Bitmap.width b + i) + k) old = old) ->
  Bitmap.getPixel (Bitmap.mk (Bitmap.width b) (Bitmap.height b)
                             (mapi f (Bitmap.data b))) i j
  = Bitmap.getPixel b i j.
Proof.
  intros Hf. unfold Bitmap.getPixel.
  rewrite !channel_mapi_frame; try lia; try reflexivity;
    intros; apply Hf; lia.
Qed.

(** [putImageData] writes inside the rectangle of the image only. *)
Lemma putImageData_frame (b img : Bitmap.t) (dx dy i j : Z) :
  ~ (dx <= i < dx + Bitmap.width img /\ dy <= j < dy + Bitmap.height img) ->
  Bitmap.getPixel (Bitmap.putImageData b img dx dy) i j = Bitmap.getPixel b i j.
Proof.
  intros Hout. unfold Bitmap.putImageData.
  apply getPixel_mapi_frame. intros Hi Hj k old Hk.
  destruct (@pixel_index (Bitmap.width b) i j k) as (_ & _ & Hx & Hy); try lia.
  cbv zeta in Hx, Hy. rewrite Hx, Hy.
  destruct ((dx <=? i) && (i <? dx + Bitmap.width img) &&
            (dy <=? j) && (j <? dy + Bitmap.height img)) eqn:E; [|reflexivity].
  exfalso. apply Hout.
  repeat (apply andb_prop in E; destruct E as [E ?]).
  repeat match goal with
         | H : (_ <=? _) = true |- _ => apply Z.leb_le in H
         | H : (_ <? _) = true |- _ => apply Z.ltb_lt in H
         end.
  lia.
Qed.

(** ** The reference rasteriser obeys the interface *)

Lemma outside_not_in_bbox (i j : Z) (bb : BBox.t) :
  pixel_outside i j bb ->
  Reference.in_bbox bb (inject_Z i + 0.5) (inject_Z j + 0.5) = false.
Proof.
  unfold pixel_outside, Reference.in_bbox. intros H.
  rewrite !inject_Z_plus in H. change (inject_Z 1) with 1%Q in H.
  apply not_true_is_false. intros E.
  repeat (apply andb_prop in E; destruct E as [E ?]).
  repeat match goal with
         | H : Qle_bool _ _ = true |- _ => apply Qle_bool_iff in H
         end.
  destruct H as [H|[H|[H|H]]]; lra.
Qed.

Lemma clipped_not_in_clip (i j : Z) (clip : list Path) :
  clipped_away i j clip ->
  Reference.in_clip clip (inject_Z i + 0.5) (inject_Z j + 0.5) = false.
Proof.
  intros (c & Hc & Hout). unfold Reference.in_clip.
  apply not_true_is_false. intros E.
  rewrite forallb_forall in E. specialize (E c Hc).
  unfold Reference.in_path in E. apply andb_prop in E. destruct E as [E _].
  now rewrite (outside_not_in_bbox Hout) in E.
Qed.

Lemma untouched_not_covered (op : DrawOp) (i j : Z) :
  untouched_by op i j ->
  match op with DPutImageData _ _ _ => True | _ =>
    Reference.covers op (inject_Z i + 0.5) (inject_Z j + 0.5) = false
  end.
Proof.
  destruct op; simpl; intros H; try exact I.
  - destruct H as [H|H].
    + now rewrite (outside_not_in_bbox H).
    + rewrite (clipped_not_in_clip H). apply andb_false_r.
  - destruct H as [H|H].
    + unfold Reference.in_path. now rewrite (outside_not_in_bbox H).
    + rewrite (clipped_not_in_clip H). apply andb_false_r.
  - rewrite (clipped_not_in_clip H). apply andb_false_r.
  - destruct H as [[_ H]|H].
    + rewrite (outside_not_in_bbox H). rewrite andb_false_r. reflexivity.
    + rewrite (clipped_not_in_clip H). apply andb_false_r.
Qed.

Lemma reference_paint_width (b : Bitmap.t) (op : DrawOp) :
  Bitmap.width (Reference.paint b op) = Bitmap.width b.
Proof. destruct op; reflexivity. Qed.

Lemma reference_paint_height (b : Bitmap.t) (op : DrawOp) :
  Bitmap.height (Reference.paint b op) = Bitmap.height b.
Proof. destruct op; reflexivity. Qed.

Lemma reference_paint_frame (b : Bitmap.t) (op : DrawOp) (i j : Z) :
  untouched_by op i j ->
  Bitmap.getPixel (Reference.paint b op) i j = Bitmap.getPixel b i j.
Proof.
  intros H. pose proof (@untouched_not_covered op i j H) as Hc.
  destruct op;
    try (unfold Reference.paint; apply getPixel_mapi_frame;
         intros Hi Hj k old Hk;
         destruct (@pixel_index (Bitmap.width b) i j k) as (_ & _ & Hx & Hy);
         try lia; cbv zeta in Hx, Hy; cbv zeta; rewrite Hx, Hy, Hc; reflexivity).
  simpl in *. now apply putImageData_frame.
Qed.

#[export] Instance reference_rasteriser : Rasteriser :=
  {| supportsFilter := true;
     rasterise := Reference.paint;
     rasterise_width := reference_paint_width;
     rasterise_height := reference_paint_height;
     rasterise_frame := reference_paint_frame |}.

(** ** Running monadic code symbolically *)

Lemma upd_same (h : Ref -> Canvas.t) (r : Ref) (c : Canvas.t) : upd h r c r = c.
Proof. unfold upd. now rewrite Nat.eqb_refl. Qed.

Lemma upd_other (h : Ref -> Canvas.t) (r r' : Ref) (c : Canvas.t) :
  r' <> r -> upd h r c r' = h r'.
Proof. unfold upd. intros E. apply Nat.eqb_neq in E. now rewrite E. Qed.

Lemma upd_upd (h : Ref -> Canvas.t) (r : Ref) (c c' : Canvas.t) :
  upd (upd h r c) r c' = upd h r c'.
Proof.
  apply functional_extensionality. intros r'. unfold upd.
  now destruct (Nat.eqb r' r).
Qed.

Lemma run_bind_assoc {S A B C} (m : SE S A) (f : A -> SE S B) (k : B -> SE S C) (s : S) :
  bind (bind m f) k s = bind m (fun a => bind (f a) k) s.
Proof. unfold bind. destruct (m s); reflexivity. Qed.

Lemma run_bind_gets {S A B} (f : S -> A) (k : A -> SE S B) (s : S) :
  bind (gets f) k s = k (f s) s.
Proof. reflexivity. Qed.

Lemma run_bind_get {S B} (k : S -> SE S B) (s : S) : bind get k s = k s s.
Proof. reflexivity. Qed.

Lemma run_bind_modify {S B} (f : S -> S) (k : unit -> SE S B) (s : S) :
  bind (modify f) k s = k tt (f s).
Proof. reflexivity. Qed.

Lemma run_bind_ret {S A B} (a : A) (k : A -> SE S B) (s : S) :
  bind (ret a) k s = k a s.
Proof. reflexivity. Qed.

Lemma run_bind_throw {S A B} (e : JsError) (k : A -> SE S B) (s : S) :
  bind (throw e) k s = Thrown e s.
Proof. reflexivity. Qed.

Lemma run_modify {S} (f : S -> S) (s : S) : modify f s = Returned tt (f s).
Proof. reflexivity. Qed.

Lemma run_gets {S A} (f : S -> A) (s : S) : gets f s = Returned (f s) s.
Proof. reflexivity. Qed.

Lemma run_ret {S A} (a : A) (s : S) : ret a s = Returned a s.
Proof. reflexivity. Qed.

Lemma run_throw {S A} (e : JsError) (s : S) : @throw S A e s = Thrown e s.
Proof. reflexivity. Qed.

Lemma run_bind_create {RA : Rasteriser} {B} (k : Ref -> G B) (g : Gfx.t) :
  bind createElement_canvas k g
  = k (Gfx.size g)
      (Gfx.mk (upd (Gfx.cells g) (Gfx.size g) (fresh_canvas 300 150))
              (S (Gfx.size g)) (Gfx.rng g)).
Proof. reflexivity. Qed.

Lemma run_bind_random {B} (k : Q -> G B) (g : Gfx.t) :
  bind random k g
  = k (Rng.draws (Gfx.rng g) (Rng.next (Gfx.rng g)))
      (Gfx.mk (Gfx.cells g) (Gfx.size g)
              (Rng.mk (Rng.draws (Gfx.rng g)) (S (Rng.next (Gfx.rng g))))).
Proof. reflexivity. Qed.

Lemma blank_width (w h : Z) : Bitmap.width (Bitmap.blank w h) = w.
Proof. reflexivity. Qed.

Lemma blank_height (w h : Z) : Bitmap.height (Bitmap.blank w h) = h.
Proof. reflexivity. Qed.

Lemma render_width {RA : Rasteriser} (b : Bitmap.t) (op : DrawOp) :
  Bitmap.width (render b op) = Bitmap.width b.
Proof. destruct op; simpl; try apply rasterise_width; reflexivity. Qed.

Lemma render_height {RA : Rasteriser} (b : Bitmap.t) (op : DrawOp) :
  Bitmap.height (render b op) = Bitmap.height b.
Proof. destruct op; simpl; try apply rasterise_height; reflexivity. Qed.

(** Drawing leaves alone every pixel the operation cannot touch. *)
Lemma render_frame {RA : Rasteriser} (b : Bitmap.t) (op : DrawOp) (i j : Z) :
  untouched_by op i j ->
  Bitmap.getPixel (render b op) i j = Bitmap.getPixel b i j.
Proof.
  intros H. destruct op; simpl; try (now apply rasterise_frame).
  now apply putImageData_frame.
Qed.

(** The methods of the context, in terms of [gets] and [modify]. *)
Ltac unfold_methods :=
  unfold set_width, set_height, save, restore, beginPath, moveTo, lineTo,
    quadraticCurveTo, closePath, clip, set_fillStyle, set_font,
    set_textAlign, set_textBaseline, set_filter, set_imageSmoothingEnabled,
    fillRect, fill, fillText, drawImage3, drawImage9, putImageData, draw,
    set_path, update_ctx, update_canvas, lookup.

Ltac simp_state :=
  cbv zeta;
  unfold Canvas.width, Canvas.height;
  repeat (progress
    (cbn [Gfx.cells Gfx.size Gfx.rng Canvas.bitmap Canvas.ctx Canvas.saved
          Canvas.path Canvas.log Ctx.fillStyle Ctx.font Ctx.textAlign
          Ctx.textBaseline Ctx.filter Ctx.imageSmoothingEnabled Ctx.clip
          fresh_canvas fst snd];
     repeat first [ rewrite upd_same | rewrite upd_other by lia
                  | rewrite upd_upd
                  | rewrite blank_width | rewrite blank_height
                  | rewrite render_width | rewrite render_height ])).

(** One statement at a time: run the head of the program on the state, then
    bring the state back into shape. *)
Ltac exec :=
  repeat (first [ rewrite run_bind_assoc | rewrite run_bind_gets
                | rewrite run_bind_get | rewrite run_bind_modify
                | rewrite run_bind_ret | rewrite run_bind_throw
                | rewrite run_bind_create | rewrite run_bind_random
                | rewrite run_modify | rewrite run_gets | rewrite run_ret
                | rewrite run_throw ];
          simp_state).

(** ** Comparisons on rationals *)

Lemma Qltb_false (a b : Q) : (b <= a)%Q -> Qltb a b = false.
Proof. intros H. unfold Qltb. apply Qle_bool_iff in H. now rewrite H. Qed.

Lemma Qltb_true (a b : Q) : (a < b)%Q -> Qltb a b = true.
Proof.
  intros H. unfold Qltb. destruct (Qle_bool b a) eqn:E; [|reflexivity].
  apply Qle_bool_iff in E. lra.
Qed.


Lemma Qltb_ge (a b : Q) : Qltb a b = false -> (b <= a)%Q.
Proof.
  unfold Qltb. intros H. apply Qle_bool_iff.
  destruct (Qle_bool b a); [reflexivity|discriminate].
Qed.

Lemma Qmin_le_l (a b : Q) : (Qmin a b <= a)%Q.
Proof. apply Q.le_min_l. Qed.

Lemma Qmin_le_r (a b : Q) : (Qmin a b <= b)%Q.
Proof. apply Q.le_min_r. Qed.

Lemma Qmax_ge_l (a b : Q) : (a <= Qmax a b)%Q.
Proof. apply Q.le_max_l. Qed.

Lemma Qmax_ge_r (a b : Q) : (b <= Qmax a b)%Q.
Proof. apply Q.le_max_r. Qed.

Lemma Qmin_cases (a b : Q) : (Qmin a b == a \/ Qmin a b == b)%Q.
Proof.
  destruct (Q.min_spec a b) as [[_ H]|[_ H]]; [left|right]; exact H.
Qed.

Lemma Qmax_cases (a b : Q) : (Qmax a b == a \/ Qmax a b == b)%Q.
Proof.
  destruct (Q.max_spec a b) as [[_ H]|[_ H]]; [right|left]; exact H.
Qed.

(** Replace every [Qmin] and [Qmax] of the goal by a variable with its
    defining inequalities, for linear arithmetic. *)
Ltac qminmax :=
  unfold Math.min, Math.max in *;
  repeat match goal with
         | |- context [Qmin ?a ?b] =>
             let m := fresh "m" in
             pose proof (Qmin_le_l a b); pose proof (Qmin_le_r a b);
             pose proof (Qmin_cases a b);
             set (m := Qmin a b) in *; clearbody m
         | |- context [Qmax ?a ?b] =>
             let m := fresh "m" in
             pose proof (Qmax_ge_l a b); pose proof (Qmax_ge_r a b);
             pose proof (Qmax_cases a b);
             set (m := Qmax a b) in *; clearbody m
         | H : context [Qmin ?a ?b] |- _ =>
             let m := fresh "m" in
             pose proof (Qmin_le_l a b); pose proof (Qmin_le_r a b);
             pose proof (Qmin_cases a b);
             set (m := Qmin a b) in *; clearbody m
         | H : context [Qmax ?a ?b] |- _ =>
             let m := fresh "m" in
             pose proof (Qmax_ge_l a b); pose proof (Qmax_ge_r a b);
             pose proof (Qmax_cases a b);
             set (m := Qmax a b) in *; clearbody m
         end.

(** [Math.round] is within a half of its argument. *)
Lemma round_bounds (a : Q) :
  (inject_Z (Math.round a) <= a + 0.5 /\ a - 0.5 < inject_Z (Math.round a))%Q.
Proof.
  unfold Math.round.
  pose proof (Qfloor_le (a + (1 # 2))) as Hl.
  pose proof (Qlt_floor (a + (1 # 2))) as Hu.
  rewrite inject_Z_plus in Hu. change (inject_Z 1) with 1%Q in Hu.
  split; lra.
Qed.


(** ** The effects, one by one *)

Local Coercion inject_Z : Z >-> Q.
Local Open Scope Q_scope.

Lemma blockSize_ge_2 (box : Box.t) (intensity : Q) : (2 <= blockSize box intensity)%Z.
Proof. unfold blockSize. lia. Qed.




(** The bar of the eye-bar effect when there are no usable landmarks. *)
Definition fallback_bar (box : Box.t) (intensity : Q) (bar : DrawOp) : Prop :=
  match bar with
  | DFillRect style _ bx by_ bw bh =>
      style = Css "#000000" /\
      bx == Box.x box /\ bw == Box.width box /\
      by_ == Box.y box + 0.28 * Box.height box /\
      bh == 0.16 * Box.height box * (0.5 + 1.5 * (intensity / 100))
  | _ => False
  end.

(** The lower edge of a bar, as a share of the box height below its top. *)
Definition bar_ends_by (box : Box.t) (share : Q) (bar : DrawOp) : Prop :=
  match bar with
  | DFillRect _ _ _ by_ _ bh => by_ + bh <= Box.y box + share * Box.height box
  | _ => False
  end.

(** C7, as amended.  Without 48 landmark points the eye-bar effect never
    throws and draws exactly one black rectangle, as wide as the box, whose
    top is 28% of the box height below the box top and whose height is 16%
    of the box height times the thickness multiplier
    [0.5 + 1.5 * intensity/100]: it ends at most 60% down, and at most 44%
    down exactly when the intensity is at most 100/3. *)
Theorem eye_bar_fallback {RA : Rasteriser} (g : Gfx.t) (ctx src : Ref) (box : Box.t) (intensity : Q)
  (landmarks : Landmarks) :
  positions_at_least 48 landmarks = None ->
  0 <= intensity <= 100 -> 0 <= Box.height box ->
  exists g' bar,
    applyBlackBarEyes ctx src box intensity landmarks g = Returned tt g' /\
    Canvas.log (Gfx.cells g' ctx) = Canvas.log (Gfx.cells g ctx) ++ [bar] /\
    fallback_bar box intensity bar /\
    bar_ends_by box 0.60 bar /\
    (intensity <= 100 / 3 -> bar_ends_by box 0.44 bar) /\
    (bar_ends_by box 0.44 bar -> 0 < Box.height box -> intensity <= 100 / 3).
Proof.
  intros Hlm [Hi0 Hi1] Hh.
  unfold applyBlackBarEyes. rewrite Hlm. unfold_methods.
  eexists. eexists. split; [exec; reflexivity|].
  simp_state. split; [reflexivity|].
  unfold fallback_bar, bar_ends_by, thicknessMultiplier.
  set (h := Box.height box) in *. set (y := Box.y box). clearbody h y.
  assert (Hd : intensity / 100 == intensity * (1 # 100)) by (field).
  assert (Ht : 100 / 3 == (100 # 3)) by reflexivity.
  repeat split; try lra; rewrite ?Hd, ?Ht.
  - assert (0 <= h * (100 - intensity)) by (apply Qmult_le_0_compat; lra). lra.
  - intros Hi.
    assert (0 <= h * ((100 # 3) - intensity)) by (apply Qmult_le_0_compat; lra). lra.
  - intros Hb Hpos. apply Qnot_lt_le. intros Hgt.
    assert (0 < h * (intensity - (100 # 3))) by (apply Qmult_lt_0_compat; lra). lra.
Qed.

Lemma eye_bar_fallback_witness :
  exists g' bar,
    applyBlackBarEyes 0%nat 0%nat (Box.mk 10 20 80 100) 20 None
                      (Example.gfx_with Example.row4 (Example.draws [] 0))
    = Returned tt g' /\
    Canvas.log (Gfx.cells g' 0%nat) = [] ++ [bar] /\
    fallback_bar (Box.mk 10 20 80 100) 20 bar /\
    bar_ends_by (Box.mk 10 20 80 100) 0.60 bar /\
    (20 <= 100 / 3 -> bar_ends_by (Box.mk 10 20 80 100) 0.44 bar) /\
    (bar_ends_by (Box.mk 10 20 80 100) 0.44 bar -> 0 < 100 -> 20 <= 100 / 3).
Proof.
  apply (@eye_bar_fallback reference_rasteriser
           (Example.gfx_with Example.row4 (Example.draws [] 0))
           0%nat 0%nat (Box.mk 10 20 80 100) 20 None);
    [ reflexivity | split; vm_compute; discriminate | vm_compute; discriminate ].
Defined.

(** C7, as stated, fails: at intensity 100 the bar on a 100 x 100 box runs
    from 28 to 60, past the 44% line. *)
Lemma eye_bar_fallback_passes_44_percent :
  let box := Box.mk 0 0 100 100 in
  let g := Example.gfx_with Example.row4 (Example.draws [] 0) in
  exists g' bar,
    @applyBlackBarEyes reference_rasteriser 0%nat 0%nat box 100 None g = Returned tt g' /\
    Canvas.log (Gfx.cells g' 0%nat) = [bar] /\
    fallback_bar box 100 bar /\
    ~ bar_ends_by box 0.44 bar.
Proof.
  eexists. eexists. split; [vm_compute; reflexivity|].
  split; [vm_compute; reflexivity|].
  split.
  - repeat split; vm_compute; reflexivity.
  - vm_compute. intros H. apply H. reflexivity.
Qed.


(** ** Which canvases a computation writes

    [frames n ctx m]: run on a heap of at least [n] canvases, [m] only grows
    the heap and leaves every canvas below [n] other than [ctx] as it was,
    whether it returns or throws. *)

Definition frames (n : nat) (ctx : Ref) {A} (m : G A) : Prop :=
  forall g, (n <= Gfx.size g)%nat ->
    (Gfx.size g <= Gfx.size (final (m g)))%nat /\
    forall r, (r < n)%nat -> r <> ctx ->
              Gfx.cells (final (m g)) r = Gfx.cells g r.

Lemma frames_ret (n : nat) (ctx : Ref) {A} (a : A) : frames n ctx (ret a).
Proof. intros g Hn. simpl. split; [lia|reflexivity]. Qed.

Lemma frames_throw (n : nat) (ctx : Ref) {A} (e : JsError) :
  frames n ctx (@throw Gfx.t A e).
Proof. intros g Hn. simpl. split; [lia|reflexivity]. Qed.

Lemma frames_lookup {RA : Rasteriser} (n : nat) (ctx r : Ref) : frames n ctx (lookup r).
Proof. intros g Hn. simpl. split; [lia|reflexivity]. Qed.

Lemma frames_random (n : nat) (ctx : Ref) : frames n ctx random.
Proof. intros g Hn. simpl. split; [lia|reflexivity]. Qed.

Lemma frames_update_canvas {RA : Rasteriser} (n : nat) (ctx a : Ref)
  (f : Canvas.t -> Canvas.t) :
  (n <= a)%nat \/ a = ctx -> frames n ctx (update_canvas a f).
Proof.
  intros Ha g Hn. simpl. split; [lia|].
  intros r Hr Hne. apply upd_other. destruct Ha; [lia|congruence].
Qed.

Lemma frames_bind (n : nat) (ctx : Ref) {A B} (m : G A) (k : A -> G B) :
  frames n ctx m -> (forall a, frames n ctx (k a)) -> frames n ctx (bind m k).
Proof.
  intros Hm Hk g Hn. specialize (Hm g Hn). unfold bind.
  destruct (m g) as [a g1|e g1]; simpl in Hm; [|exact Hm].
  destruct Hm as [Hs Hc].
  destruct (Hk a g1) as [Hs' Hc']; [lia|].
  split; [lia|]. intros r Hr Hne. rewrite Hc' by assumption. now apply Hc.
Qed.

(** A canvas created while [m] runs is the computation's own. *)
Lemma frames_create {RA : Rasteriser} (n : nat) (ctx : Ref) {B} (k : Ref -> G B) :
  (forall a, (n <= a)%nat -> frames n ctx (k a)) ->
  frames n ctx (bind createElement_canvas k).
Proof.
  intros Hk g Hn. rewrite run_bind_create.
  destruct (Hk (Gfx.size g) Hn
               (Gfx.mk (upd (Gfx.cells g) (Gfx.size g) (fresh_canvas 300 150))
                       (S (Gfx.size g)) (Gfx.rng g))) as [Hs Hc];
    [simpl; lia|].
  simpl in Hs. split; [lia|].
  intros r Hr Hne. rewrite Hc by assumption. simpl. apply upd_other. lia.
Qed.

Lemma frames_forM_ (n : nat) (ctx : Ref) {A} (l : list A) (body : A -> G unit) :
  (forall a, frames n ctx (body a)) -> frames n ctx (forM_ l body).
Proof.
  intros Hb. induction l as [|a l IH]; simpl.
  - apply frames_ret.
  - apply frames_bind; [apply Hb|intros _; exact IH].
Qed.

Lemma frames_foldM (n : nat) (ctx : Ref) {A B} (body : B -> A -> G B)
  (l : list A) (b : B) :
  (forall b a, frames n ctx (body b a)) -> frames n ctx (foldM body l b).
Proof.
  intros Hb. revert b. induction l as [|a l IH]; intros b; simpl.
  - apply frames_ret.
  - apply frames_bind; [apply Hb|intros b'; apply IH].
Qed.

Lemma frames_assoc (n : nat) (ctx : Ref) {A B C} (m : G A) (f : A -> G B)
  (k : B -> G C) :
  frames n ctx (bind m (fun a => bind (f a) k)) -> frames n ctx (bind (bind m f) k).
Proof. intros H g Hn. rewrite run_bind_assoc. now apply H. Qed.

Lemma frames_bind_ret (n : nat) (ctx : Ref) {A B} (a : A) (k : A -> G B) :
  frames n ctx (k a) -> frames n ctx (bind (ret a) k).
Proof. intros H g Hn. rewrite run_bind_ret. now apply H. Qed.

(** The methods of the context, in terms of [lookup] and [update_canvas]. *)
Ltac unfold_to_updates :=
  unfold set_width, set_height, save, restore, beginPath, moveTo, lineTo,
    quadraticCurveTo, closePath, ellipse, clip, set_fillStyle, set_font,
    set_textAlign, set_textBaseline, set_filter, set_imageSmoothingEnabled,
    fillRect, fill, fillText, drawImage3, drawImage9, getImageData,
    createImageData, putImageData, draw, set_path, update_ctx.

Ltac frames_step :=
  match goal with
  | |- frames _ _ (ret _) => apply frames_ret
  | |- frames _ _ (throw _) => apply frames_throw
  | |- frames _ _ (lookup _) => apply frames_lookup
  | |- frames _ _ random => apply frames_random
  | |- frames _ _ (update_canvas _ _) =>
      apply frames_update_canvas;
      first [ left; assumption | right; reflexivity | assumption ]
  | |- frames _ _ (bind (bind _ _) _) => apply frames_assoc
  | |- frames _ _ (bind (ret _) _) => apply frames_bind_ret
  | |- frames _ _ (bind createElement_canvas _) => apply frames_create; intros ? ?
  | |- frames _ _ (forM_ _ _) => apply frames_forM_; intros ?
  | |- frames _ _ (foldM _ _ _) => apply frames_foldM; intros ? ?
  | |- frames _ _ (bind _ _) => apply frames_bind; [ | intros ? ]
  | |- frames _ _ (if ?c then _ else _) => destruct c
  | |- frames _ _ (match ?x with _ => _ end) => destruct x
  end.

Ltac frames_auto := cbv zeta; unfold_to_updates; repeat frames_step.

Section Frames.

Context {RA : Rasteriser} {ML : MathLib}.
Variables (n : nat) (c0 ctx : Ref).
Hypothesis Hctx : (n <= ctx)%nat \/ ctx = c0.

Lemma frames_applyPixelate src box intensity :
  frames n c0 (applyPixelate ctx src box intensity).
Proof. unfold applyPixelate. frames_auto. Qed.

Lemma frames_applyBlur src box intensity :
  frames n c0 (applyBlur ctx src box intensity).
Proof. unfold applyBlur, applyPixelate. frames_auto. Qed.

Lemma frames_applyBlackBarEyes src box intensity landmarks :
  frames n c0 (applyBlackBarEyes ctx src box intensity landmarks).
Proof. unfold applyBlackBarEyes. frames_auto. Qed.

Lemma frames_applyBlackout src box intensity :
  frames n c0 (applyBlackout ctx src box intensity).
Proof. unfold applyBlackout. frames_auto. Qed.

Lemma frames_applyEmoji src box intensity landmarks emoji :
  frames n c0 (applyEmoji ctx src box intensity landmarks emoji).
Proof. unfold applyEmoji. frames_auto. Qed.

Lemma frames_applySolidColor src box intensity landmarks color :
  frames n c0 (applySolidColor ctx src box intensity landmarks color).
Proof. unfold applySolidColor. frames_auto. Qed.

Lemma frames_applyGlitch src box intensity :
  frames n c0 (applyGlitch ctx src box intensity).
Proof. unfold applyGlitch. frames_auto. Qed.

Lemma frames_applySwirl src box intensity :
  frames n c0 (applySwirl ctx src box intensity).
Proof. unfold applySwirl. frames_auto. Qed.

Lemma frames_applySilhouette src box intensity landmarks :
  frames n c0 (applySilhouette ctx src box intensity landmarks).
Proof. unfold applySilhouette. frames_auto. Qed.

Lemma frames_applyRedact src box intensity :
  frames n c0 (applyRedact ctx src box intensity).
Proof. unfold applyRedact. frames_auto. Qed.

Lemma frames_applyEffect src box effectId intensity landmarks options :
  frames n c0 (applyEffect ctx src box effectId intensity landmarks options).
Proof.
  unfold applyEffect.
  repeat match goal with
         | |- frames _ _ (if ?c then _ else _) => destruct c
         end;
    auto using frames_applyBlur, frames_applyPixelate, frames_applyBlackBarEyes,
      frames_applyBlackout, frames_applyEmoji, frames_applySolidColor,
      frames_applyGlitch, frames_applySwirl, frames_applySilhouette,
      frames_applyRedact.
Qed.

End Frames.

Lemma frames_processImage {RA : Rasteriser} {ML : MathLib} (n : nat) (c0 : Ref)
  (fullCanvas : Ref) (faces : list Face.t) (globalEffectId : string)
  (globalIntensity : Q) (globalOptions : Options.t) :
  frames n c0 (processImage fullCanvas faces globalEffectId globalIntensity globalOptions).
Proof.
  unfold processImage, cloneCanvas.
  frames_auto.
  apply frames_applyEffect. left. assumption.
Qed.

(** [cloneCanvas] never throws and returns a canvas that did not exist
    before. *)
Lemma cloneCanvas_returns {RA : Rasteriser} (source : Ref) (g : Gfx.t) :
  exists g1, cloneCanvas source g = Returned (Gfx.size g) g1.
Proof.
  unfold cloneCanvas. unfold_methods. eexists. exec. reflexivity.
Qed.

(** C9. [processImage] draws on a clone: whatever the faces and the effect
    settings, and whether it returns or an effect throws, every canvas that
    existed before the call, the input canvas among them, is left exactly
    as it was, pixel for pixel; the canvas returned is a new one. *)
Theorem processImage_preserves_input {RA : Rasteriser} {ML : MathLib}
  (g : Gfx.t) (fullCanvas : Ref) (faces : list Face.t) (globalEffectId : string)
  (globalIntensity : Q) (globalOptions : Options.t) :
  (fullCanvas < Gfx.size g)%nat ->
  let out := processImage fullCanvas faces globalEffectId globalIntensity
                          globalOptions g in
  Gfx.cells (final out) fullCanvas = Gfx.cells g fullCanvas /\
  (forall i j,
      Bitmap.getPixel (Canvas.bitmap (Gfx.cells (final out) fullCanvas)) i j
      = Bitmap.getPixel (Canvas.bitmap (Gfx.cells g fullCanvas)) i j) /\
  (forall r, (r < Gfx.size g)%nat -> Gfx.cells (final out) r = Gfx.cells g r) /\
  (forall processed g',
      out = Returned processed g' ->
      processed = Gfx.size g /\ processed <> fullCanvas).
Proof.
  intros Hfull out.
  destruct (@frames_processImage RA ML (Gfx.size g) (Gfx.size g) fullCanvas faces
              globalEffectId globalIntensity globalOptions g (le_n _)) as [_ Hc].
  fold out in Hc.
  assert (Hall : forall r, (r < Gfx.size g)%nat ->
                           Gfx.cells (final out) r = Gfx.cells g r).
  { intros r Hr. apply Hc; lia. }
  split; [now apply Hall|]. split; [intros i j; now rewrite Hall|].
  split; [exact Hall|].
  intros processed g' Hout. unfold out, processImage in Hout.
  destruct (cloneCanvas_returns fullCanvas g) as [g1 Hclone].
  unfold bind in Hout at 1. rewrite Hclone in Hout.
  unfold bind in Hout.
  match type of Hout with
  | match ?m with _ => _ end = _ => destruct m; simpl in Hout
  end; [|discriminate].
  injection Hout as Hp _. subst processed. split; [reflexivity|lia].
Qed.

Lemma processImage_preserves_input_witness :
  let g := Example.gfx_with Example.row4 (Example.draws [0; 0] 0.99) in
  let faces := [Example.detected "face-0" (Box.mk 0 0 4 1)] in
  let out := processImage 0%nat faces "glitch" 100 (Options.mk None None) g in
  Gfx.cells (final out) 0%nat = Gfx.cells g 0%nat /\
  (forall i j,
      Bitmap.getPixel (Canvas.bitmap (Gfx.cells (final out) 0%nat)) i j
      = Bitmap.getPixel (Canvas.bitmap (Gfx.cells g 0%nat)) i j) /\
  (forall r, (r < Gfx.size g)%nat -> Gfx.cells (final out) r = Gfx.cells g r) /\
  (forall processed g',
      out = Returned processed g' ->
      processed = Gfx.size g /\ processed <> 0%nat).
Proof.
  apply (@processImage_preserves_input reference_rasteriser reference_math
           (Example.gfx_with Example.row4 (Example.draws [0; 0] 0.99)) 0%nat
           [Example.detected "face-0" (Box.mk 0 0 4 1)] "glitch" 100
           (Options.mk None None)).
  simpl. lia.
Defined.

(** ** Effects that do not draw random numbers are functions of the two
    canvases they are given *)

(** Two runs end alike: both return, with the same canvas behind the
    context, or both throw. *)
Definition same_outcome (ctx ctx' : Ref) (o o' : Outcome Gfx.t unit) : Prop :=
  match o, o' with
  | Returned _ g1, Returned _ g1' => Gfx.cells g1 ctx = Gfx.cells g1' ctx'
  | Thrown _ _, Thrown _ _ => True
  | _, _ => False
  end.

Definition repeatable (effect : Ref -> Ref -> G unit) : Prop :=
  forall g g' ctx ctx' src src',
    (ctx < Gfx.size g)%nat -> (src < Gfx.size g)%nat -> ctx <> src ->
    (ctx' < Gfx.size g')%nat -> (src' < Gfx.size g')%nat -> ctx' <> src' ->
    Gfx.cells g ctx = Gfx.cells g' ctx' ->
    Gfx.cells g src = Gfx.cells g' src' ->
    same_outcome ctx ctx' (effect ctx src g) (effect ctx' src' g').

(** The jaw line of the silhouette, in closed form. *)
Definition add_line (p : Point.t) (c : Canvas.t) : Canvas.t :=
  Canvas.mk (Canvas.bitmap c) (Canvas.ctx c) (Canvas.saved c)
            (Canvas.path c ++ [LineTo (Point.x p) (Point.y p)]) (Canvas.log c).

Lemma run_lines {RA : Rasteriser} (ctx : Ref) (l : list Point.t) (g : Gfx.t) :
  forM_ l (fun p => lineTo ctx (Point.x p) (Point.y p)) g
  = Returned tt
      (Gfx.mk (upd (Gfx.cells g) ctx
                   (fold_left (fun c p => add_line p c) l (Gfx.cells g ctx)))
              (Gfx.size g) (Gfx.rng g)).
Proof.
  revert g. induction l as [|p l IH]; intros g.
  - simpl. unfold ret. f_equal. destruct g as [cells size rng]. simpl. f_equal.
    apply functional_extensionality. intros r. unfold upd.
    destruct (Nat.eqb r ctx) eqn:E; [|reflexivity].
    apply Nat.eqb_eq in E. now subst.
  - change (forM_ (p :: l) (fun p => lineTo ctx (Point.x p) (Point.y p)))
      with (bind (lineTo ctx (Point.x p) (Point.y p))
                 (fun _ => forM_ l (fun p => lineTo ctx (Point.x p) (Point.y p)))).
    unfold lineTo at 1. unfold_methods. rewrite run_bind_modify, IH.
    simp_state. reflexivity.
Qed.

Lemma run_bind_lines {RA : Rasteriser} {B} (ctx : Ref) (l : list Point.t)
  (k : unit -> G B) (g : Gfx.t) :
  bind (forM_ l (fun p => lineTo ctx (Point.x p) (Point.y p))) k g
  = k tt (Gfx.mk (upd (Gfx.cells g) ctx
                      (fold_left (fun c p => add_line p c) l (Gfx.cells g ctx)))
                 (Gfx.size g) (Gfx.rng g)).
Proof. unfold bind. now rewrite run_lines. Qed.

Lemma run_bind_lineTo {RA : Rasteriser} {B} (ctx : Ref) (x y : Q)
  (k : unit -> G B) (g : Gfx.t) :
  bind (lineTo ctx x y) k g
  = k tt (Gfx.mk (upd (Gfx.cells g) ctx
                      (Canvas.mk (Canvas.bitmap (Gfx.cells g ctx))
                                 (Canvas.ctx (Gfx.cells g ctx))
                                 (Canvas.saved (Gfx.cells g ctx))
                                 (Canvas.path (Gfx.cells g ctx) ++ [LineTo x y])
                                 (Canvas.log (Gfx.cells g ctx))))
                 (Gfx.size g) (Gfx.rng g)).
Proof. reflexivity. Qed.

(** As [unfold_methods], keeping [lineTo] for the loop over the jaw. *)
Ltac unfold_methods_keep_lineTo :=
  unfold set_width, set_height, save, restore, beginPath, moveTo,
    quadraticCurveTo, closePath, clip, set_fillStyle, set_font,
    set_textAlign, set_textBaseline, set_filter, set_imageSmoothingEnabled,
    fillRect, fill, fillText, drawImage3, drawImage9, putImageData, draw,
    set_path, update_ctx, update_canvas, lookup.

Ltac rel_split :=
  match goal with
  | |- context [if ?c then _ else _] => destruct c eqn:?
  | |- context [match ?x with Some _ => _ | None => _ end] => destruct x eqn:?
  | |- context [match ?x with [] => _ | _ :: _ => _ end] => destruct x eqn:?
  end.

Ltac rel_auto Hc Hs :=
  cbv zeta; unfold ellipse, getImageData, createImageData;
  unfold_methods_keep_lineTo;
  repeat (exec; rewrite ?run_bind_lines, ?run_bind_lineTo; rewrite ?Hc, ?Hs;
          try rel_split);
  cbn [same_outcome]; simp_state; rewrite ?Hc, ?Hs;
  first [ reflexivity | exact I ].

Section Repeatable.

Context {RA : Rasteriser} {ML : MathLib}.
Variables (box : Box.t) (intensity : Q) (landmarks : Landmarks).

Lemma repeatable_applyPixelate :
  repeatable (fun ctx src => applyPixelate ctx src box intensity).
Proof.
  intros g g' ctx ctx' src src' H1 H2 H3 H4 H5 H6 Hc Hs.
  unfold applyPixelate. rel_auto Hc Hs.
Qed.

Lemma repeatable_applyBlur :
  repeatable (fun ctx src => applyBlur ctx src box intensity).
Proof.
  intros g g' ctx ctx' src src' H1 H2 H3 H4 H5 H6 Hc Hs.
  unfold applyBlur, applyPixelate. rel_auto Hc Hs.
Qed.

Lemma repeatable_applyBlackBarEyes :
  repeatable (fun ctx src => applyBlackBarEyes ctx src box intensity landmarks).
Proof.
  intros g g' ctx ctx' src src' H1 H2 H3 H4 H5 H6 Hc Hs.
  unfold applyBlackBarEyes. rel_auto Hc Hs.
Qed.

Lemma repeatable_applyBlackout :
  repeatable (fun ctx src => applyBlackout ctx src box intensity).
Proof.
  intros g g' ctx ctx' src src' H1 H2 H3 H4 H5 H6 Hc Hs.
  unfold applyBlackout. rel_auto Hc Hs.
Qed.

Lemma repeatable_applyEmoji (emoji : option string) :
  repeatable (fun ctx src => applyEmoji ctx src box intensity landmarks emoji).
Proof.
  intros g g' ctx ctx' src src' H1 H2 H3 H4 H5 H6 Hc Hs.
  unfold applyEmoji. rel_auto Hc Hs.
Qed.

Lemma repeatable_applySolidColor (color : option string) :
  repeatable (fun ctx src => applySolidColor ctx src box intensity landmarks color).
Proof.
  intros g g' ctx ctx' src src' H1 H2 H3 H4 H5 H6 Hc Hs.
  unfold applySolidColor. rel_auto Hc Hs.
Qed.

Lemma repeatable_applySwirl :
  repeatable (fun ctx src => applySwirl ctx src box intensity).
Proof.
  intros g g' ctx ctx' src src' H1 H2 H3 H4 H5 H6 Hc Hs.
  unfold applySwirl. rel_auto Hc Hs.
Qed.

Lemma repeatable_applySilhouette :
  repeatable (fun ctx src => applySilhouette ctx src box intensity landmarks).
Proof.
  intros g g' ctx ctx' src src' H1 H2 H3 H4 H5 H6 Hc Hs.
  unfold applySilhouette. rel_auto Hc Hs.
Qed.

End Repeatable.

(** The effects whose code calls [Math.random]. *)
Definition draws_random (effectId : string) : bool :=
  String.eqb effectId "glitch" || String.eqb effectId "redact".

Lemma repeatable_applyEffect {RA : Rasteriser} {ML : MathLib} (box : Box.t)
  (effectId : string) (intensity : Q) (landmarks : Landmarks) (options : Options.t) :
  draws_random effectId = false ->
  repeatable (fun ctx src =>
                applyEffect ctx src box effectId intensity landmarks options).
Proof.
  intros Hr. unfold draws_random in Hr. apply orb_false_elim in Hr.
  destruct Hr as [Hg Hd]. unfold applyEffect. rewrite Hg, Hd.
  repeat match goal with
         | |- repeatable (fun ctx src => if ?c then _ else _) => destruct c
         end;
    auto using repeatable_applyBlur, repeatable_applyPixelate,
      repeatable_applyBlackBarEyes, repeatable_applyBlackout,
      repeatable_applyEmoji, repeatable_applySolidColor, repeatable_applySwirl,
      repeatable_applySilhouette.
Qed.

(** What [processImage] does for one face. *)
Definition render_face {RA : Rasteriser} {ML : MathLib} (ctx fullCanvas : Ref)
  (globalEffectId : string) (globalIntensity : Q) (globalOptions : Options.t)
  (face : Face.t) : G unit :=
  applyEffect ctx fullCanvas (Face.box face)
    (or_string (Face.effectId face) globalEffectId)
    (match Face.intensity face with Some i => i | None => globalIntensity end)
    (Face.landmarks face)
    (match Face.options face with Some o => o | None => globalOptions end).

Definition no_random_effect (globalEffectId : string) (faces : list Face.t) : Prop :=
  Forall (fun face => draws_random (or_string (Face.effectId face) globalEffectId) = false)
         faces.

Lemma repeatable_faces {RA : Rasteriser} {ML : MathLib} (globalEffectId : string)
  (globalIntensity : Q) (globalOptions : Options.t) (faces : list Face.t) :
  no_random_effect globalEffectId faces ->
  repeatable (fun ctx src =>
    forM_ faces (render_face ctx src globalEffectId globalIntensity globalOptions)).
Proof.
  intros Hf. induction Hf as [|face faces Hface _ IH].
  - intros g g' ctx ctx' src src' _ _ _ _ _ _ Hc _. exact Hc.
  - intros g g' ctx ctx' src src' H1 H2 H3 H4 H5 H6 Hc Hs.
    cbn [forM_]. unfold bind.
    assert (Hone : same_outcome ctx ctx'
              (render_face ctx src globalEffectId globalIntensity globalOptions face g)
              (render_face ctx' src' globalEffectId globalIntensity globalOptions face g'))
      by (unfold render_face; now apply repeatable_applyEffect).
    assert (Hfr : frames (Gfx.size g) ctx
              (render_face ctx src globalEffectId globalIntensity globalOptions face))
      by (unfold render_face; apply frames_applyEffect; now right).
    assert (Hfr' : frames (Gfx.size g') ctx'
              (render_face ctx' src' globalEffectId globalIntensity globalOptions face))
      by (unfold render_face; apply frames_applyEffect; now right).
    destruct (Hfr g (le_n _)) as [Hz Hk]. destruct (Hfr' g' (le_n _)) as [Hz' Hk'].
    clear Hfr Hfr'.
    destruct (render_face ctx src globalEffectId globalIntensity globalOptions face g)
      as [[] g1|e g1];
      destruct (render_face ctx' src' globalEffectId globalIntensity globalOptions face g')
      as [[] g1'|e' g1']; simpl in Hone, Hz, Hk, Hz', Hk'; try contradiction;
      [|exact I].
    apply IH; try lia; try assumption.
    rewrite Hk, Hk' by (try lia; congruence). exact Hs.
Qed.

Lemma cloneCanvas_same {RA : Rasteriser} (g g' : Gfx.t) (src src' : Ref) :
  (src < Gfx.size g)%nat -> (src' < Gfx.size g')%nat ->
  Gfx.cells g src = Gfx.cells g' src' ->
  exists g1 g1',
    cloneCanvas src g = Returned (Gfx.size g) g1 /\
    cloneCanvas src' g' = Returned (Gfx.size g') g1' /\
    Gfx.cells g1 (Gfx.size g) = Gfx.cells g1' (Gfx.size g') /\
    Gfx.size g1 = S (Gfx.size g) /\ Gfx.size g1' = S (Gfx.size g') /\
    Gfx.cells g1 src = Gfx.cells g src /\ Gfx.cells g1' src' = Gfx.cells g' src'.
Proof.
  intros Hs Hs' Heq. unfold cloneCanvas. unfold_methods.
  do 2 eexists.
  split; [exec; reflexivity|]. split; [exec; reflexivity|].
  simp_state. rewrite Heq. repeat split; reflexivity.
Qed.

(** [processImage] once the clone is made. *)
Lemma processImage_after_clone {RA : Rasteriser} {ML : MathLib} (g g1 : Gfx.t)
  (fullCanvas c : Ref) (faces : list Face.t) (globalEffectId : string)
  (globalIntensity : Q) (globalOptions : Options.t) :
  cloneCanvas fullCanvas g = Returned c g1 ->
  processImage fullCanvas faces globalEffectId globalIntensity globalOptions g =
  match forM_ faces (render_face c fullCanvas globalEffectId globalIntensity
                                 globalOptions) g1 with
  | Returned _ g2 => Returned c g2
  | Thrown e g2 => Thrown e g2
  end.
Proof.
  intros Hc. unfold processImage. unfold bind at 1. rewrite Hc. reflexivity.
Qed.

(** The clone is one more canvas. *)
Lemma cloneCanvas_grows {RA : Rasteriser} (source : Ref) (g : Gfx.t) :
  exists g1, cloneCanvas source g = Returned (Gfx.size g) g1 /\
             Gfx.size g1 = S (Gfx.size g).
Proof.
  unfold cloneCanvas. unfold_methods. eexists. split; [exec; reflexivity|].
  simp_state. reflexivity.
Qed.

(** [processImage] returns the canvas it allocated. *)
Lemma processImage_returns_fresh {RA : Rasteriser} {ML : MathLib} (g g' : Gfx.t)
  (fullCanvas p : Ref) (faces : list Face.t) (globalEffectId : string)
  (globalIntensity : Q) (globalOptions : Options.t) :
  processImage fullCanvas faces globalEffectId globalIntensity globalOptions g =
    Returned p g' ->
  p = Gfx.size g /\ (Gfx.size g < Gfx.size g')%nat.
Proof.
  destruct (cloneCanvas_grows fullCanvas g) as [g1 [Hc Hz]].
  rewrite (processImage_after_clone faces globalEffectId globalIntensity globalOptions Hc).
  assert (Hfr : frames (Gfx.size g1) (Gfx.size g)
            (forM_ faces (render_face (Gfx.size g) fullCanvas globalEffectId
                                      globalIntensity globalOptions)))
    by (apply frames_forM_; intros face; unfold render_face;
        apply frames_applyEffect; now right).
  destruct (Hfr g1 (le_n _)) as [Hle _].
  destruct (forM_ _ _ g1); intros E; inversion E; subst; simpl in Hle.
  split; [reflexivity|lia].
Qed.

(** Two runs of [processImage] from states that hold the same input canvas. *)
Lemma processImage_same {RA : Rasteriser} {ML : MathLib} (g g' : Gfx.t)
  (fullCanvas : Ref) (faces : list Face.t) (globalEffectId : string)
  (globalIntensity : Q) (globalOptions : Options.t) :
  (fullCanvas < Gfx.size g)%nat -> (fullCanvas < Gfx.size g')%nat ->
  Gfx.cells g fullCanvas = Gfx.cells g' fullCanvas ->
  no_random_effect globalEffectId faces ->
  match processImage fullCanvas faces globalEffectId globalIntensity globalOptions g,
        processImage fullCanvas faces globalEffectId globalIntensity globalOptions g'
  with
  | Returned p g1, Returned p' g1' => Gfx.cells g1 p = Gfx.cells g1' p'
  | Thrown _ _, Thrown _ _ => True
  | _, _ => False
  end.
Proof.
  intros Hs Hs' Heq Hf.
  destruct (cloneCanvas_same g g' Hs Hs' Heq)
    as (g1 & g1' & Hc & Hc' & Hp & Hz & Hz' & Hk & Hk').
  rewrite (processImage_after_clone faces globalEffectId globalIntensity
             globalOptions Hc),
          (processImage_after_clone faces globalEffectId globalIntensity
             globalOptions Hc').
  pose proof (@repeatable_faces RA ML globalEffectId globalIntensity globalOptions
                faces Hf g1 g1' (Gfx.size g) (Gfx.size g') fullCanvas fullCanvas)
    as Hloop.
  cbv beta in Hloop.
  assert (Hout : same_outcome (Gfx.size g) (Gfx.size g')
            (forM_ faces (render_face (Gfx.size g) fullCanvas globalEffectId
                                      globalIntensity globalOptions) g1)
            (forM_ faces (render_face (Gfx.size g') fullCanvas globalEffectId
                                      globalIntensity globalOptions) g1'))
    by (apply Hloop; try lia; congruence).
  clear Hloop.
  destruct (forM_ _ _ g1) as [[] g2|e g2]; destruct (forM_ _ _ g1') as [[] g2'|e' g2'];
    simpl in Hout; try contradiction; [exact Hout | exact I].
Qed.

(** C1, as amended.  When no face is rendered with glitch or redact, the two
    effects that call [Math.random], two successive invocations of
    [processImage] on the same canvas, face list and settings end alike:
    both return, and their output canvases hold identical pixels (the first
    output is still intact when the second is produced), or both throw. *)
Theorem processImage_repeatable {RA : Rasteriser} {ML : MathLib} (g : Gfx.t)
  (fullCanvas : Ref) (faces : list Face.t) (globalEffectId : string)
  (globalIntensity : Q) (globalOptions : Options.t) :
  (fullCanvas < Gfx.size g)%nat ->
  no_random_effect globalEffectId faces ->
  let first :=
    processImage fullCanvas faces globalEffectId globalIntensity globalOptions g in
  let second :=
    processImage fullCanvas faces globalEffectId globalIntensity globalOptions
                 (final first) in
  match first, second with
  | Returned p1 g1, Returned p2 g2 =>
      Canvas.bitmap (Gfx.cells g2 p2) = Canvas.bitmap (Gfx.cells g1 p1) /\
      Gfx.cells g2 p1 = Gfx.cells g1 p1
  | Thrown _ _, Thrown _ _ => True
  | _, _ => False
  end.
Proof.
  intros Hs Hf first second.
  destruct (@frames_processImage RA ML (Gfx.size g) (Gfx.size g) fullCanvas faces
              globalEffectId globalIntensity globalOptions g (le_n _)) as [Hz Hk].
  fold first in Hz, Hk.
  assert (Hin : Gfx.cells (final first) fullCanvas = Gfx.cells g fullCanvas)
    by (apply Hk; lia).
  pose proof (@processImage_same RA ML g (final first) fullCanvas faces globalEffectId
                globalIntensity globalOptions Hs ltac:(lia) (eq_sym Hin) Hf) as Hsame.
  fold first second in Hsame.
  destruct first as [p1 g1|e1 g1] eqn:E1; destruct second as [p2 g2|e2 g2] eqn:E2;
    simpl in *; try contradiction; try exact I.
  split; [now rewrite Hsame|].
  destruct (@frames_processImage RA ML (Gfx.size g1) (Gfx.size g1) fullCanvas faces
              globalEffectId globalIntensity globalOptions g1 (le_n _)) as [_ Hk2].
  unfold second in E2. rewrite E2 in Hk2. simpl in Hk2.
  destruct (@processImage_returns_fresh _ _ _ _ _ _ _ _ _ _ E1) as [-> Hlt].
  apply Hk2; lia.
Qed.

(** The amended C1 at a pixelated face. *)
Lemma processImage_repeatable_witness :
  let g := Example.gfx_with Example.row4 (Example.draws [] 0) in
  let faces := [Example.detected "face-0" (Box.mk 0 0 4 1)] in
  (0 < Gfx.size g)%nat /\ no_random_effect "pixelate" faces /\
  match processImage 0%nat faces "pixelate" 50 (Options.mk None None) g,
        processImage 0%nat faces "pixelate" 50 (Options.mk None None)
          (final (processImage 0%nat faces "pixelate" 50 (Options.mk None None) g))
  with
  | Returned p1 g1, Returned p2 g2 =>
      Canvas.bitmap (Gfx.cells g2 p2) = Canvas.bitmap (Gfx.cells g1 p1) /\
      Gfx.cells g2 p1 = Gfx.cells g1 p1
  | Thrown _ _, Thrown _ _ => True
  | _, _ => False
  end.
Proof.
  intros g faces.
  assert (Hs : (0 < Gfx.size g)%nat) by (vm_compute; lia).
  assert (Hf : no_random_effect "pixelate" faces)
    by (repeat constructor).
  split; [exact Hs|]. split; [exact Hf|].
  exact (@processImage_repeatable reference_rasteriser reference_math g 0%nat faces
           "pixelate" 50 (Options.mk None None) Hs Hf).
Defined.

(** C1 as stated fails for glitch.  A 4x1 canvas, one face covering it, glitch
    at intensity 100: with the first two draws of [Math.random] at 0 the first
    rendering displaces the row by one pixel; the second rendering, whose
    draws are all 0.99, leaves the pixels as they were. *)
Lemma processImage_glitch_differs :
  match processImage 0%nat [Example.detected "face-0" (Box.mk 0 0 4 1)] "glitch" 100
          (Options.mk None None)
          (Example.gfx_with Example.row4 (Example.draws [0; 0] 0.99)) with
  | Returned p1 g1 =>
      match processImage 0%nat [Example.detected "face-0" (Box.mk 0 0 4 1)] "glitch"
              100 (Options.mk None None) g1 with
      | Returned p2 g2 =>
          Bitmap.data (Canvas.bitmap (Gfx.cells g1 p1)) =
            [10; 21; 22; 255; 20; 31; 32; 255; 30; 41; 42; 255; 40; 41; 42; 255]%Z /\
          Bitmap.data (Canvas.bitmap (Gfx.cells g2 p2)) =
            [10; 11; 12; 255; 20; 21; 22; 255; 30; 31; 32; 255; 40; 41; 42; 255]%Z /\
          Canvas.bitmap (Gfx.cells g2 p2) <> Canvas.bitmap (Gfx.cells g1 p1)
      | Thrown _ _ => False
      end
  | Thrown _ _ => False
  end.
Proof. vm_compute. repeat split; discriminate. Qed.

(** ** Glitch on a box outside the canvas *)

(** C8.  The glitch effect clamps the origin of its region at the left and
    top edges without shortening the region by what was cut off.  On a 4 x 1
    canvas a box covering x in [-3, 0) meets the canvas in nothing, yet the
    effect does not return early: it rewrites the pixels of columns 0 to 2. *)
Theorem applyGlitch_left_of_canvas :
  zero_area (in_bounds_intersection (Box.mk (-3) 0 3 1) 4 1) = true /\
  exists g',
    applyGlitch 0%nat 0%nat (Box.mk (-3) 0 3 1) 100
                (Example.gfx_with Example.row4 (Example.draws [0; 0] 0.99))
    = Returned tt g' /\
    Bitmap.data (Canvas.bitmap (Gfx.cells g' 0%nat)) =
      [10; 21; 22; 255; 20; 31; 32; 255; 30; 31; 32; 255; 40; 41; 42; 255]%Z /\
    Canvas.bitmap (Gfx.cells g' 0%nat) <> Example.row4.
Proof.
  split; [reflexivity|].
  eexists. split; [vm_compute; reflexivity|].
  split; [vm_compute; reflexivity|].
  vm_compute. discriminate.
Qed.

(** A box half beyond the right edge: the region written is the in-bounds
    part, columns 2 and 3, and nothing is thrown. *)
Lemma applyGlitch_right_edge :
  exists g',
    applyGlitch 0%nat 0%nat (Box.mk 2 0 4 1) 100
                (Example.gfx_with Example.row4 (Example.draws [0; 0] 0.99))
    = Returned tt g' /\
    Bitmap.data (Canvas.bitmap (Gfx.cells g' 0%nat)) =
      [10; 11; 12; 255; 20; 21; 22; 255; 30; 41; 42; 255; 40; 41; 42; 255]%Z.
Proof.
  eexists. split; [vm_compute; reflexivity|]. vm_compute. reflexivity.
Qed.

(** ** The controller *)

Lemma findIndex_map {A B} (f : B -> bool) (g : A -> B) (l : list A) :
  findIndex f (map g l) = findIndex (fun a => f (g a)) l.
Proof.
  induction l as [|a l IH]; simpl; [reflexivity|].
  destruct (f (g a)); [reflexivity|]. now rewrite IH.
Qed.

Lemma map_adjust_same {A B} (f : A -> B) (g : A -> A) (i : nat) (l : list A) :
  (forall a, f (g a) = f a) -> map f (adjust i g l) = map f l.
Proof.
  intros H. revert i. induction l as [|a l IH]; intros [|i]; simpl;
    rewrite ?H, ?IH; reflexivity.
Qed.

Lemma nth_adjust {A} (i : nat) (g : A -> A) (l : list A) (d : A) :
  (i < List.length l)%nat -> nth i (adjust i g l) d = g (nth i l d).
Proof.
  revert i. induction l as [|a l IH]; intros [|i] H; simpl in *; try lia;
    [reflexivity|]. apply IH. lia.
Qed.


Lemma length_adjust {A} (i : nat) (g : A -> A) (l : list A) :
  List.length (adjust i g l) = List.length l.
Proof.
  revert i. induction l as [|a l IH]; intros [|i]; simpl; rewrite ?IH; reflexivity.
Qed.

Lemma findIndex_bound {A} (f : A -> bool) (l : list A) (i : nat) :
  findIndex f l = Some i -> (i < List.length l)%nat.
Proof.
  revert i. induction l as [|a l IH]; intros i; simpl; [discriminate|].
  destruct (f a); [intros [= <-]; lia|].
  destruct (findIndex f l) as [k|]; simpl; [|discriminate].
  intros [= <-]. specialize (IH k eq_refl). lia.
Qed.

Lemma findIndex_holds {A} (f : A -> bool) (l : list A) (i : nat) (d : A) :
  findIndex f l = Some i -> f (nth i l d) = true.
Proof.
  revert i. induction l as [|a l IH]; intros i; simpl; [discriminate|].
  destruct (f a) eqn:E; [intros [= <-]; exact E|].
  destruct (findIndex f l) as [k|]; simpl; [|discriminate].
  intros [= <-]. now apply IH.
Qed.

Section Controller.

Context {RA : Rasteriser} {ML : MathLib} {CO : Collaborators}.

Lemma active_index_bound (s : State.t) (i : nat) :
  active_index s = Some i -> (i < List.length (State.photos s))%nat.
Proof.
  unfold active_index. destruct (truthy _); [|discriminate]. apply findIndex_bound.
Qed.

Lemma getActivePhoto_found (w : World.t) (i : nat) :
  active_index (World.app w) = Some i -> getActivePhoto w = Returned (Some i) w.
Proof.
  unfold active_index, getActivePhoto, app_state. intros H.
  rewrite run_bind_gets. destruct (truthy _); [|discriminate]. simpl.
  rewrite H. reflexivity.
Qed.

Lemma run_bind_getActivePhoto {B} (k : option nat -> M B) (w : World.t) (i : nat) :
  active_index (World.app w) = Some i -> bind getActivePhoto k w = k (Some i) w.
Proof. intros H. unfold bind at 1. now rewrite (getActivePhoto_found _ H). Qed.

Lemma active_index_documents (w w' : World.t) :
  documents w' = documents w ->
  active_index (World.app w') = active_index (World.app w).
Proof.
  unfold documents, active_index. intros [= _ Ha Hp]. rewrite Ha.
  destruct (truthy _); [|reflexivity].
  transitivity (findIndex (fun p => same_id (Photo.id p) (State.activePhotoId (World.app w)))
                          (map document (State.photos (World.app w')))).
  - now rewrite findIndex_map.
  - rewrite Hp. now rewrite findIndex_map.
Qed.

Lemma photo_documents (w w' : World.t) (i : nat) :
  documents w' = documents w -> document (photo w' i) = document (photo w i).
Proof.
  unfold documents, photo. intros [= _ _ Hp].
  change (document (nth i (State.photos (World.app w')) no_photo))
    with ((fun p => document p) (nth i (State.photos (World.app w')) no_photo)).
  rewrite <- !(map_nth document). now rewrite Hp.
Qed.

(** Rendering the preview changes no document. *)
Lemma updatePreview_documents (w : World.t) (i : nat) :
  active_index (World.app w) = Some i ->
  documents (final (updatePreview w)) = documents w.
Proof.
  intros Ha. unfold updatePreview. rewrite (run_bind_getActivePhoto _ _ Ha).
  unfold photo_at. rewrite run_bind_gets.
  destruct (Photo.fullCanvas _) as [fullCanvas|]; [|reflexivity].
  destruct (_ =? _)%nat; [reflexivity|].
  unfold app_state. rewrite run_bind_gets.
  unfold bind at 1, liftG.
  destruct (processImage _ _ _ _ _ _) as [p g|e g]; [|reflexivity].
  unfold modify_photo, modify_app, renderOverlay, modify_ui.
  rewrite run_bind_modify, run_modify. unfold documents. simpl.
  now rewrite map_adjust_same by (intros []; reflexivity).
Qed.

End Controller.


(** ** Handlers and documents *)

Section Handlers.

Context {RA : Rasteriser} {ML : MathLib} {CO : Collaborators}.

Lemma run_bind_returned {S A B} (m : SE S A) (k : A -> SE S B) (s s' : S) (a : A) :
  m s = Returned a s' -> bind m k s = k a s'.
Proof. intros H. unfold bind. now rewrite H. Qed.

Lemma quiet_ret {A} (a : A) : quiet (ret a).
Proof. intros w i _. reflexivity. Qed.

Lemma quiet_gets {A} (f : World.t -> A) : quiet (gets f).
Proof. intros w i _. reflexivity. Qed.

Lemma quiet_bind {A B} (m : M A) (k : A -> M B) :
  quiet m -> (forall a, quiet (k a)) -> quiet (bind m k).
Proof.
  intros Hm Hk w i Ha. unfold bind. specialize (Hm w i Ha).
  destruct (m w) as [a w1|e w1]; simpl in Hm; [|exact Hm].
  rewrite <- Hm. apply (Hk a w1 i).
  now rewrite (active_index_documents Hm).
Qed.

Lemma quiet_modify_ui (f : Ui.t -> Ui.t) : quiet (modify_ui f).
Proof. intros w i _. reflexivity. Qed.

Lemma quiet_renderOverlay (faces : list Face.t) (selectedFaceId : option string) :
  quiet (renderOverlay faces selectedFaceId).
Proof. apply quiet_modify_ui. Qed.

Lemma quiet_getActivePhoto : quiet getActivePhoto.
Proof. intros w i Ha. now rewrite (@getActivePhoto_found w i Ha). Qed.

Lemma quiet_updateUndoRedoButtons : quiet updateUndoRedoButtons.
Proof.
  apply quiet_bind; [apply quiet_getActivePhoto|intros; apply quiet_ret].
Qed.

Lemma quiet_updatePreview : quiet updatePreview.
Proof. intros w i Ha. now apply updatePreview_documents with i. Qed.

Lemma quiet_show_photo (i : nat) : quiet (show_photo i).
Proof.
  apply quiet_bind; [apply quiet_gets|intros; apply quiet_renderOverlay].
Qed.

Lemma quiet_show_and_preview (i : nat) : quiet (show_photo i ;; updatePreview).
Proof.
  apply quiet_bind; [apply quiet_show_photo|intros; apply quiet_updatePreview].
Qed.

Lemma active_index_with_photo (j : nat) (f : Photo.t -> Photo.t) (w : World.t) :
  (forall p, Photo.id (f p) = Photo.id p) ->
  active_index (World.app (with_photo j f w)) = active_index (World.app w).
Proof.
  intros Hf. unfold active_index, with_photo. simpl.
  destruct (truthy _); [|reflexivity].
  rewrite <- (findIndex_map (fun id => same_id id (State.activePhotoId (World.app w)))
                Photo.id (adjust j f _)).
  rewrite map_adjust_same by exact Hf. now rewrite findIndex_map.
Qed.

Lemma photo_with_photo (i : nat) (f : Photo.t -> Photo.t) (w : World.t) :
  (i < List.length (State.photos (World.app w)))%nat ->
  photo (with_photo i f w) i = f (photo w i).
Proof. intros H. unfold photo, with_photo. simpl. now apply nth_adjust. Qed.

Lemma push_snapshot_id (p : Photo.t) : Photo.id (push_snapshot p) = Photo.id p.
Proof. reflexivity. Qed.

Lemma run_bind_pushUndo {B} (k : unit -> M B) (w : World.t) (i : nat) :
  active_index (World.app w) = Some i ->
  bind (pushUndo i) k w = k tt (with_photo i push_snapshot w).
Proof.
  intros Ha. unfold pushUndo, updateUndoRedoButtons, modify_photo, modify_app.
  rewrite run_bind_assoc, run_bind_modify, run_bind_assoc.
  rewrite (@run_bind_getActivePhoto _ _ _ i); [reflexivity|].
  change (World.set_app _ w) with (with_photo i push_snapshot w).
  now rewrite active_index_with_photo by apply push_snapshot_id.
Qed.

Lemma history_document (p : Photo.t) : history (document p) = history p.
Proof. reflexivity. Qed.

Lemma history_documents (w w' : World.t) (i : nat) :
  documents w' = documents w -> history (photo w' i) = history (photo w i).
Proof.
  intros H. rewrite <- (history_document (photo w' i)), <- (history_document (photo w i)).
  now rewrite (photo_documents i H).
Qed.

(** Each operation that finds something to change pushes one snapshot. *)
Lemma perform_documents (op : Mutation) (w : World.t) (i : nat) :
  active_index (World.app w) = Some i ->
  mutates op (photo w i) = true ->
  exists change : Photo.t -> Photo.t,
    (forall p, Photo.id (change p) = Photo.id p /\
               Photo.undoStack (change p) = Photo.undoStack p /\
               Photo.redoStack (change p) = Photo.redoStack p) /\
    documents (dispatch (perform op) w) =
    documents (with_photo i change (with_photo i push_snapshot w)).
Proof.
  intros Ha Hm.
  assert (Ha1 : active_index (World.app (with_photo i push_snapshot w)) = Some i)
    by (now rewrite active_index_with_photo by apply push_snapshot_id).
  assert (Hq : forall (change : Photo.t -> Photo.t) w1,
             (forall p, Photo.id (change p) = Photo.id p) ->
             active_index (World.app w1) = Some i ->
             documents (final ((show_photo i ;; updatePreview) (with_photo i change w1)))
             = documents (with_photo i change w1)).
  { intros change w1 Hid Hw1. apply quiet_show_and_preview with i.
    now rewrite active_index_with_photo. }
  unfold dispatch.
  destruct op as [box|x y|faceId newBox|faceId newBox|]; cbn [mutates perform] in Hm |- *.
  - unfold handleFaceDrawn. rewrite (run_bind_getActivePhoto _ _ Ha).
    unfold photo_at at 1. rewrite run_bind_gets. fold (photo w i). rewrite Hm. simpl.
    rewrite (run_bind_pushUndo _ _ Ha). rewrite run_bind_gets.
    unfold modify_photo, modify_app. rewrite run_bind_modify.
    eexists. split; [|apply Hq; [reflexivity|exact Ha1]].
    intros p. repeat split.
  - apply andb_prop in Hm. destruct Hm as [Hl Hm].
    destruct (find _ _) eqn:Hfind in Hm; [discriminate|].
    unfold handleCanvasClick. rewrite (run_bind_getActivePhoto _ _ Ha).
    unfold photo_at at 1. rewrite run_bind_gets. fold (photo w i). rewrite Hl. simpl.
    rewrite Hfind. apply negb_true_iff in Hm. rewrite Hm.
    rewrite !run_bind_assoc. rewrite (run_bind_pushUndo _ _ Ha).
    assert (Hsize : exists size, getDefaultFaceSize (with_photo i push_snapshot w)
                                 = Returned size (with_photo i push_snapshot w)).
    { unfold getDefaultFaceSize. rewrite (run_bind_getActivePhoto _ _ Ha1).
      unfold photo_at. rewrite run_bind_gets.
      destruct (Photo.fullCanvas _); [|eexists; reflexivity].
      destruct (_ =? _)%nat; [|eexists; reflexivity].
      unfold bind, liftG, lookup, gets. eexists. destruct w as [g a q u c].
      reflexivity. }
    destruct Hsize as [size Hsize]. rewrite !run_bind_assoc.
    rewrite (@run_bind_returned _ _ _ _ _ _ _ _ Hsize). rewrite !run_bind_assoc, run_bind_gets.
    unfold modify_photo, modify_app. rewrite run_bind_modify.
    eexists. split; [|apply Hq; [reflexivity|exact Ha1]].
    intros p. repeat split.
  - destruct (findIndex _ _) as [face|] eqn:Hfind; [|discriminate].
    unfold handleFaceMoved. rewrite (run_bind_getActivePhoto _ _ Ha).
    unfold photo_at at 1. rewrite run_bind_gets. fold (photo w i). rewrite Hfind.
    rewrite (run_bind_pushUndo _ _ Ha).
    unfold modify_photo, modify_app. rewrite run_bind_modify.
    eexists. split; [|apply Hq; [reflexivity|exact Ha1]].
    intros p. repeat split.
  - destruct (findIndex _ _) as [face|] eqn:Hfind; [|discriminate].
    unfold handleFaceResized. rewrite (run_bind_getActivePhoto _ _ Ha).
    unfold photo_at at 1. rewrite run_bind_gets. fold (photo w i). rewrite Hfind.
    rewrite (run_bind_pushUndo _ _ Ha).
    unfold modify_photo, modify_app. rewrite run_bind_modify.
    eexists. split; [|apply Hq; [reflexivity|exact Ha1]].
    intros p. repeat split.
  - apply andb_prop in Hm. destruct Hm as [Hsel Hm].
    destruct (findIndex _ _) as [idx|] eqn:Hfind; [|discriminate].
    unfold handleFaceRemoved. rewrite (run_bind_getActivePhoto _ _ Ha).
    unfold photo_at at 1. rewrite run_bind_gets. fold (photo w i). rewrite Hsel. simpl.
    rewrite Hfind.
    rewrite (run_bind_pushUndo _ _ Ha).
    unfold modify_photo, modify_app. rewrite run_bind_modify.
    eexists. split; [|apply Hq; [reflexivity|exact Ha1]].
    intros p. repeat split.
Qed.

End Handlers.

(** ** Undo and redo *)

Lemma copy_face_same (f : Face.t) : copy_face f = f.
Proof. destruct f as [id [x y w h] score lm manual e i o]. reflexivity. Qed.

Lemma map_copy_face (l : list Face.t) : map copy_face l = l.
Proof. induction l as [|f l IH]; simpl; rewrite ?copy_face_same, ?IH; reflexivity. Qed.

Lemma pop_last {A} (l : list A) (a : A) : pop (l ++ [a]) = Some (a, l).
Proof. unfold pop. rewrite rev_unit, rev_involutive. reflexivity. Qed.

(** Pushing keeps the newest entries as long as fewer than [MAX_UNDO] of
    them are to be kept. *)
Lemma push_snapshot_stack (p : Photo.t) (pre rest : list Snapshot.t) :
  Photo.undoStack p = pre ++ rest ->
  (List.length rest + 1 <= MAX_UNDO)%nat ->
  exists pre',
    Photo.undoStack (push_snapshot p) = pre' ++ rest ++ [current_snapshot p].
Proof.
  intros Hu Hn. unfold push_snapshot. cbv zeta. cbn [Photo.undoStack Photo.set_redoStack Photo.set_undoStack].
  rewrite Hu. destruct (Nat.ltb_spec MAX_UNDO (List.length ((pre ++ rest) ++ [current_snapshot p]))) as [Hlt|Hge].
  - destruct pre as [|a pre].
    + rewrite !length_app in Hlt. unfold MAX_UNDO in *. simpl in Hlt. lia.
    + exists pre. simpl. now rewrite <- app_assoc.
  - exists pre. now rewrite <- app_assoc.
Qed.

Section History.

Context {RA : Rasteriser} {ML : MathLib} {CO : Collaborators}.

Lemma length_with_photo (i : nat) (f : Photo.t -> Photo.t) (w : World.t) :
  List.length (State.photos (World.app (with_photo i f w))) =
  List.length (State.photos (World.app w)).
Proof. apply length_adjust. Qed.

(** An operation that finds something to change pushes a snapshot of the
    photo as it was. *)
Lemma perform_pushes (op : Mutation) (w : World.t) (i : nat) :
  active_index (World.app w) = Some i ->
  mutates op (photo w i) = true ->
  active_index (World.app (dispatch (perform op) w)) = Some i /\
  Photo.undoStack (photo (dispatch (perform op) w) i) =
    Photo.undoStack (push_snapshot (photo w i)) /\
  Photo.redoStack (photo (dispatch (perform op) w) i) = [].
Proof.
  intros Ha Hm. destruct (perform_documents op w Ha Hm) as (change & Hc & Hd).
  pose proof (active_index_bound _ Ha) as Hi.
  split.
  - rewrite (active_index_documents Hd).
    rewrite !active_index_with_photo; [exact Ha|apply push_snapshot_id|apply Hc].
  - pose proof (history_documents i Hd) as Hh.
    rewrite photo_with_photo in Hh by (now rewrite length_with_photo).
    rewrite photo_with_photo in Hh by exact Hi.
    unfold history in Hh. injection Hh as _ _ Hu Hr.
    rewrite Hu, Hr. destruct (Hc (push_snapshot (photo w i))) as (_ & -> & ->).
    split; reflexivity.
Qed.

Lemma stack_after_ops (i : nat) (ops : list Mutation) :
  forall (w : World.t) (pre rest : list Snapshot.t),
    active_index (World.app w) = Some i ->
    mutating_run ops i w ->
    Photo.undoStack (photo w i) = pre ++ rest ->
    (List.length rest + List.length ops <= MAX_UNDO)%nat ->
    exists pre' more,
      Photo.undoStack (photo (perform_all ops w) i) = pre' ++ rest ++ more /\
      List.length more = List.length ops /\
      active_index (World.app (perform_all ops w)) = Some i /\
      (ops <> [] -> hd_error more = Some (current_snapshot (photo w i))).
Proof.
  induction ops as [|op ops IH]; intros w pre rest Ha Hrun Hu Hn.
  - exists pre, []. rewrite app_nil_r. repeat split; try assumption. congruence.
  - destruct Hrun as [Hm Hrun]. simpl in Hn.
    destruct (perform_pushes op w Ha Hm) as (Ha' & Hu' & _).
    destruct (push_snapshot_stack (photo w i) pre rest Hu ltac:(lia)) as [pre1 Hp].
    rewrite Hp in Hu'.
    destruct (IH _ pre1 (rest ++ [current_snapshot (photo w i)]) Ha' Hrun Hu')
      as (pre' & more & Hs & Hl & Ha2 & _).
    { rewrite length_app. simpl. lia. }
    exists pre', (current_snapshot (photo w i) :: more).
    unfold perform_all in *. simpl. rewrite Hs.
    repeat split; try assumption.
    + now rewrite <- !app_assoc.
    + simpl. now rewrite Hl.
Qed.

(** One undo. *)
Lemma handleUndo_pops (w : World.t) (i : nat) (st : list Snapshot.t) (s : Snapshot.t) :
  active_index (World.app w) = Some i ->
  Photo.undoStack (photo w i) = st ++ [s] ->
  active_index (World.app (dispatch handleUndo w)) = Some i /\
  history (photo (dispatch handleUndo w) i) =
    (Snapshot.faces s, Snapshot.selectedFaceId s, st,
     Photo.redoStack (photo w i) ++ [current_snapshot (photo w i)]).
Proof.
  intros Ha Hu. pose proof (active_index_bound _ Ha) as Hi.
  set (undone := fun photo : Photo.t =>
         Photo.set_selectedFaceId (Snapshot.selectedFaceId s)
           (Photo.set_faces (Snapshot.faces s)
              (Photo.set_undoStack st
                 (Photo.set_redoStack
                    (Photo.redoStack photo ++ [current_snapshot photo]) photo)))).
  assert (Hd : documents (dispatch handleUndo w) = documents (with_photo i undone w)).
  { unfold dispatch, handleUndo. rewrite (run_bind_getActivePhoto _ _ Ha).
    unfold photo_at at 1. rewrite run_bind_gets. fold (photo w i).
    rewrite Hu, pop_last. unfold modify_photo, modify_app. rewrite run_bind_modify.
    fold undone. change (World.set_app _ w) with (with_photo i undone w).
    assert (Hq : quiet (photo <- photo_at i ;;
                        renderOverlay (Photo.faces photo) (Photo.selectedFaceId photo) ;;
                        updatePreview ;; updateUndoRedoButtons)).
    { apply quiet_bind; [apply quiet_gets|intros p].
      apply quiet_bind; [apply quiet_renderOverlay|intros _].
      apply quiet_bind; [apply quiet_updatePreview|intros _].
      apply quiet_updateUndoRedoButtons. }
    apply Hq with i. now rewrite active_index_with_photo. }
  split.
  - rewrite (active_index_documents Hd). now rewrite active_index_with_photo.
  - rewrite (history_documents i Hd). now rewrite photo_with_photo.
Qed.

(** One redo. *)
Lemma handleRedo_pops (w : World.t) (i : nat) (st : list Snapshot.t) (s : Snapshot.t) :
  active_index (World.app w) = Some i ->
  Photo.redoStack (photo w i) = st ++ [s] ->
  active_index (World.app (dispatch handleRedo w)) = Some i /\
  history (photo (dispatch handleRedo w) i) =
    (Snapshot.faces s, Snapshot.selectedFaceId s,
     Photo.undoStack (photo w i) ++ [current_snapshot (photo w i)], st).
Proof.
  intros Ha Hu. pose proof (active_index_bound _ Ha) as Hi.
  set (redone := fun photo : Photo.t =>
         Photo.set_selectedFaceId (Snapshot.selectedFaceId s)
           (Photo.set_faces (Snapshot.faces s)
              (Photo.set_redoStack st
                 (Photo.set_undoStack
                    (Photo.undoStack photo ++ [current_snapshot photo]) photo)))).
  assert (Hd : documents (dispatch handleRedo w) = documents (with_photo i redone w)).
  { unfold dispatch, handleRedo. rewrite (run_bind_getActivePhoto _ _ Ha).
    unfold photo_at at 1. rewrite run_bind_gets. fold (photo w i).
    rewrite Hu, pop_last. unfold modify_photo, modify_app. rewrite run_bind_modify.
    fold redone. change (World.set_app _ w) with (with_photo i redone w).
    assert (Hq : quiet (photo <- photo_at i ;;
                        renderOverlay (Photo.faces photo) (Photo.selectedFaceId photo) ;;
                        updatePreview ;; updateUndoRedoButtons)).
    { apply quiet_bind; [apply quiet_gets|intros p].
      apply quiet_bind; [apply quiet_renderOverlay|intros _].
      apply quiet_bind; [apply quiet_updatePreview|intros _].
      apply quiet_updateUndoRedoButtons. }
    apply Hq with i. now rewrite active_index_with_photo. }
  split.
  - rewrite (active_index_documents Hd). now rewrite active_index_with_photo.
  - rewrite (history_documents i Hd). now rewrite photo_with_photo.
Qed.

Lemma undo_times_succ (n : nat) (w : World.t) :
  undo_times (S n) w = undo_times n (dispatch handleUndo w).
Proof. unfold undo_times. now rewrite Nat.iter_succ_r. Qed.

(** As many undos as there are entries above [s0] and one more restore [s0]. *)
Lemma undo_down_to (i : nat) (others : list Snapshot.t) :
  forall (w : World.t) (pre : list Snapshot.t) (s0 : Snapshot.t),
    active_index (World.app w) = Some i ->
    Photo.undoStack (photo w i) = pre ++ s0 :: others ->
    Photo.faces (photo (undo_times (S (List.length others)) w) i) = Snapshot.faces s0 /\
    Photo.selectedFaceId (photo (undo_times (S (List.length others)) w) i) =
      Snapshot.selectedFaceId s0.
Proof.
  induction others as [|s others IH] using rev_ind; intros w pre s0 Ha Hu.
  - destruct (handleUndo_pops w pre s0 Ha Hu) as [_ Hh].
    unfold undo_times. simpl. unfold history in Hh. now injection Hh as -> -> _ _.
  - rewrite length_app, Nat.add_comm. cbn [List.length Nat.add].
    rewrite undo_times_succ.
    destruct (handleUndo_pops w (pre ++ s0 :: others) s Ha) as [Ha' Hh].
    { rewrite Hu. now rewrite <- app_assoc. }
    apply IH with pre; [exact Ha'|].
    unfold history in Hh. now injection Hh as _ _ -> _.
Qed.

(** Redo after undo restores faces, selection and both stacks. *)
Lemma redo_after_undo (w : World.t) (i : nat) (st : list Snapshot.t) (s : Snapshot.t) :
  active_index (World.app w) = Some i ->
  Photo.undoStack (photo w i) = st ++ [s] ->
  history (photo (dispatch handleRedo (dispatch handleUndo w)) i) = history (photo w i).
Proof.
  intros Ha Hu. destruct (handleUndo_pops w st s Ha Hu) as [Ha' Hh].
  unfold history in Hh. injection Hh as Hf Hs Hu' Hr.
  destruct (handleRedo_pops _ _ _ Ha' Hr) as [_ Hh'].
  rewrite Hh'. unfold history, current_snapshot. cbn [Snapshot.faces Snapshot.selectedFaceId].
  rewrite Hu', Hf, Hs, Hu, !map_copy_face. destruct s. reflexivity.
Qed.

End History.

(** C6, as amended.  The undo stack holds at most [MAX_UNDO] = 50 snapshots.
    For any run of N <= 50 add, move, resize and remove operations on the
    active photo, each of which finds something to change, N undos bring the
    face list and the selected-face id back to their values before the run;
    and when N >= 1, a redo after an undo restores the mutated state: face
    list, selection, undo stack and redo stack. *)
Theorem undo_redo_round_trip {RA : Rasteriser} {ML : MathLib} {CO : Collaborators}
  (w : World.t) (i : nat) (ops : list Mutation) :
  active_index (World.app w) = Some i ->
  (List.length ops <= MAX_UNDO)%nat ->
  mutating_run ops i w ->
  let mutated := perform_all ops w in
  let undone := undo_times (List.length ops) mutated in
  Photo.faces (photo undone i) = Photo.faces (photo w i) /\
  Photo.selectedFaceId (photo undone i) = Photo.selectedFaceId (photo w i) /\
  (ops <> [] ->
   history (photo (dispatch handleRedo (dispatch handleUndo mutated)) i) =
   history (photo mutated i)).
Proof.
  intros Ha Hn Hrun mutated undone.
  destruct (@stack_after_ops RA ML CO i ops w (Photo.undoStack (photo w i)) [] Ha Hrun)
    as (pre & more & Hs & Hl & Ha' & Hhd).
  { now rewrite app_nil_r. }
  { simpl. exact Hn. }
  fold mutated in Hs, Ha'. simpl in Hs.
  destruct ops as [|op ops].
  - repeat split; congruence.
  - destruct more as [|s0 others]; [discriminate|].
    specialize (Hhd ltac:(discriminate)). injection Hhd as ->.
    injection Hl as Hl.
    destruct (@undo_down_to RA ML CO i others mutated pre _ Ha' Hs) as [Hf Hsel].
    unfold undone. cbn [List.length]. rewrite <- Hl.
    rewrite Hf, Hsel. unfold current_snapshot. cbn [Snapshot.faces Snapshot.selectedFaceId].
    rewrite map_copy_face. repeat split. intros _.
    destruct (@exists_last _ (current_snapshot (photo w i) :: others) ltac:(discriminate))
      as (st & s & Heq).
    apply (@redo_after_undo RA ML mutated i (pre ++ st) s); [exact Ha'|].
    rewrite Hs, Heq. apply app_assoc.
Qed.

Lemma undo_redo_round_trip_witness :
  let w := Session.one_face in
  let ops := Session.moves 3 in
  let mutated := perform_all ops w in
  let undone := undo_times (List.length ops) mutated in
  Photo.faces (photo undone 0) = Photo.faces (photo w 0) /\
  Photo.selectedFaceId (photo undone 0) = Photo.selectedFaceId (photo w 0) /\
  (ops <> [] ->
   history (photo (dispatch handleRedo (dispatch handleUndo mutated)) 0) =
   history (photo mutated 0)).
Proof.
  apply (@undo_redo_round_trip reference_rasteriser reference_math
           reference_collaborators Session.one_face 0%nat (Session.moves 3)).
  - reflexivity.
  - vm_compute. lia.
  - vm_compute. repeat split.
Defined.

(** C6 as stated fails past 50 operations: after 51 moves of a face the
    oldest snapshot is gone, the 51st undo finds the undo stack empty, and the
    face stays where the first move put it. *)
Lemma undo_stack_forgets :
  let w := @Session.one_face reference_rasteriser in
  let undone := undo_times 51 (perform_all (Session.moves 51) w) in
  mutating_run (Session.moves 51) 0 w /\
  map Face.box (Photo.faces (photo w 0)) = [Box.mk 0 0 2 1] /\
  map Face.box (Photo.faces (photo undone 0)) = [Box.mk 1 0 2 1] /\
  Photo.faces (photo undone 0) <> Photo.faces (photo w 0).
Proof.
  split; [vm_compute; repeat split|].
  split; [reflexivity|].
  split; [vm_compute; reflexivity|].
  vm_compute. discriminate.
Qed.

(** ** The size of a manual region *)













(** ** Eviction *)

Lemma evict_first_0 (a : option string) (l : list Photo.t) : evict_first a 0 l = l.
Proof. destruct l; reflexivity. Qed.

Lemma adjust_app {A} (f : A -> A) (pre : list A) (p : A) (l : list A) :
  adjust (List.length pre) f (pre ++ p :: l) = pre ++ f p :: l.
Proof. induction pre as [|q pre IH]; simpl; [reflexivity|]. now rewrite IH. Qed.

(** The loop of [evictCanvases] over the first [n] entries of the filtered
    list is [evict_first]. *)
Lemma evict_loop (a : option string) (l : list Photo.t) :
  forall (n : nat) (pre : list Photo.t),
    fold_left (fun photos (ip : nat * Photo.t) => adjust (fst ip) evicted photos)
      (firstn n (List.filter (fun ip => inactive_loaded a (snd ip))
                   (combine (seq (List.length pre) (List.length l)) l)))
      (pre ++ l)
    = pre ++ evict_first a n l.
Proof.
  induction l as [|p l IH]; intros n pre.
  - simpl. rewrite firstn_nil. simpl. now destruct n.
  - destruct n as [|n]; [reflexivity|].
    cbn [List.length seq combine List.filter snd evict_first].
    destruct (inactive_loaded a p).
    + cbn [firstn fold_left fst]. rewrite adjust_app.
      change (pre ++ evicted p :: l) with (pre ++ [evicted p] ++ l).
      rewrite app_assoc.
      replace (S (List.length pre)) with (List.length (pre ++ [evicted p]))
        by (rewrite length_app; simpl; lia).
      rewrite IH. now rewrite <- app_assoc.
    + change (pre ++ p :: l) with (pre ++ [p] ++ l). rewrite app_assoc.
      replace (S (List.length pre)) with (List.length (pre ++ [p]))
        by (rewrite length_app; simpl; lia).
      rewrite IH. now rewrite <- app_assoc.
Qed.

Lemma length_filter_indexed (f : Photo.t -> bool) (l : list Photo.t) :
  forall off,
    List.length (List.filter (fun ip : nat * Photo.t => f (snd ip))
                   (combine (seq off (List.length l)) l))
    = List.length (List.filter f l).
Proof.
  induction l as [|p l IH]; intros off; simpl; [reflexivity|].
  destruct (f p); simpl; now rewrite IH.
Qed.

(** What [evictCanvases] leaves. *)
Lemma evictCanvases_photos (w : World.t) :
  let s := World.app w in
  State.activePhotoId (World.app (dispatch evictCanvases w)) = State.activePhotoId s /\
  State.photos (World.app (dispatch evictCanvases w)) =
    evict_first (State.activePhotoId s)
      (List.length (List.filter (inactive_loaded (State.activePhotoId s))
                      (State.photos s)) - (MAX_LOADED_CANVASES - 1))
      (State.photos s).
Proof.
  cbv zeta. unfold dispatch, evictCanvases, modify_app. rewrite run_modify.
  cbn [final World.app World.set_app].
  change (fun ip : nat * Photo.t =>
            is_loaded (snd ip) &&
            negb (same_id (Photo.id (snd ip)) (State.activePhotoId (World.app w))))
    with (fun ip : nat * Photo.t =>
            inactive_loaded (State.activePhotoId (World.app w)) (snd ip)).
  rewrite (length_filter_indexed (inactive_loaded (State.activePhotoId (World.app w)))
             (State.photos (World.app w)) 0).
  change (Nat.max 0 (MAX_LOADED_CANVASES - 1)) with (MAX_LOADED_CANVASES - 1)%nat.
  destruct (Nat.ltb_spec (MAX_LOADED_CANVASES - 1)
              (List.length (List.filter (inactive_loaded (State.activePhotoId (World.app w)))
                              (State.photos (World.app w))))) as [Hlt|Hge].
  - split; [reflexivity|]. cbn [State.photos State.set_photos].
    exact (evict_loop (State.activePhotoId (World.app w)) (State.photos (World.app w))
             _ []).
  - split; [reflexivity|].
    replace (_ - _)%nat with 0%nat by lia. now rewrite evict_first_0.
Qed.

Lemma inactive_loaded_evicted (a : option string) (p : Photo.t) :
  inactive_loaded a (evicted p) = false.
Proof. reflexivity. Qed.

Lemma evict_first_inactive (a : option string) (l : list Photo.t) :
  forall n,
    List.length (List.filter (inactive_loaded a) (evict_first a n l)) =
    (List.length (List.filter (inactive_loaded a) l) - n)%nat.
Proof.
  induction l as [|p l IH]; intros [|n]; try reflexivity.
  - simpl. lia.
  - cbn [evict_first List.filter]. destruct (inactive_loaded a p) eqn:E.
    + cbn [List.filter]. rewrite inactive_loaded_evicted. cbn [List.length].
      now rewrite IH.
    + cbn [List.filter]. rewrite E. apply IH.
Qed.

Lemma evict_first_active (a : option string) (l : list Photo.t) :
  forall n, count_active a (evict_first a n l) = count_active a l.
Proof.
  unfold count_active.
  induction l as [|p l IH]; intros [|n]; try reflexivity.
  cbn [evict_first List.filter]. destruct (inactive_loaded a p).
  - cbn [List.filter evicted Photo.id Photo.set_processedCanvas Photo.set_fullCanvas].
    destruct (same_id (Photo.id p) a); cbn [List.length]; now rewrite IH.
  - cbn [List.filter]. destruct (same_id (Photo.id p) a); cbn [List.length]; now rewrite IH.
Qed.

Lemma evict_first_status (a : option string) (l : list Photo.t) :
  forall n, map Photo.status (evict_first a n l) = map Photo.status l.
Proof.
  induction l as [|p l IH]; intros [|n]; try reflexivity.
  cbn [evict_first]. destruct (inactive_loaded a p); simpl; now rewrite IH.
Qed.

(** Evictions happen from the front of the list. *)
Lemma evict_first_prefix (a : option string) (l : list Photo.t) :
  forall n, exists m,
    evict_first a n l = map (evict_inactive a) (firstn m l) ++ skipn m l.
Proof.
  induction l as [|p l IH]; intros [|n]; try (exists 0%nat; reflexivity).
  cbn [evict_first]. destruct (inactive_loaded a p) eqn:E.
  - destruct (IH n) as [m Hm]. exists (S m). simpl. unfold evict_inactive at 1.
    now rewrite E, Hm.
  - destruct (IH (S n)) as [m Hm]. exists (S m). simpl. unfold evict_inactive at 1.
    now rewrite E, Hm.
Qed.

Lemma loaded_inactive_or_active (a : option string) (l : list Photo.t) :
  (count_loaded l <=
   List.length (List.filter (inactive_loaded a) l) + count_active a l)%nat.
Proof.
  unfold count_loaded, count_active, inactive_loaded.
  induction l as [|p l IH]; simpl; [lia|].
  destruct (is_loaded p), (same_id (Photo.id p) a); simpl; lia.
Qed.

Lemma evict_first_keeps_active (a : option string) (l : list Photo.t) (d : Photo.t) :
  forall n k,
    same_id (Photo.id (nth k l d)) a = true ->
    nth k (evict_first a n l) d = nth k l d.
Proof.
  induction l as [|p l IH]; intros [|n] k H; try reflexivity.
  cbn [evict_first]. unfold inactive_loaded at 1.
  destruct k as [|k]; simpl in H |- *.
  - rewrite H, andb_false_r. reflexivity.
  - destruct (is_loaded p && negb (same_id (Photo.id p) a)); simpl; now apply IH.
Qed.

(** C4, as amended.  When at most one photo carries the active id, after
    [evictCanvases] at most [MAX_LOADED_CANVASES] = 3 photos hold a surface;
    the active photo is left as it is; no status changes, so an evicted photo
    that was 'detected' still is; and the photos evicted are the inactive
    loaded ones among the first [m] of the photo list, for some [m]: eviction
    goes by position in the list, not by how recently a photo was active. *)
Theorem evictCanvases_evicts_from_the_front (w : World.t) :
  let active := State.activePhotoId (World.app w) in
  let before := State.photos (World.app w) in
  let after := State.photos (World.app (dispatch evictCanvases w)) in
  (count_active active before <= 1)%nat ->
  (count_loaded after <= MAX_LOADED_CANVASES)%nat /\
  State.activePhotoId (World.app (dispatch evictCanvases w)) = active /\
  (forall k, same_id (Photo.id (nth k before no_photo)) active = true ->
             nth k after no_photo = nth k before no_photo) /\
  map Photo.status after = map Photo.status before /\
  exists m, after = map (evict_inactive active) (firstn m before) ++ skipn m before.
Proof.
  intros active before after Hone.
  destruct (evictCanvases_photos w) as [Ha Hp]. cbv zeta in Ha, Hp.
  fold active before in Ha, Hp. fold after in Hp.
  split; [|split; [exact Ha|split; [|split]]].
  - pose proof (loaded_inactive_or_active active after) as H.
    rewrite Hp in H at 2 3. rewrite evict_first_inactive, evict_first_active in H.
    unfold MAX_LOADED_CANVASES in *. lia.
  - intros k Hk. rewrite Hp. now apply evict_first_keeps_active.
  - rewrite Hp. apply evict_first_status.
  - rewrite Hp. apply evict_first_prefix.
Qed.

Lemma evictCanvases_evicts_from_the_front_witness :
  let w := @Session.four_loaded reference_rasteriser in
  let active := State.activePhotoId (World.app w) in
  let before := State.photos (World.app w) in
  let after := State.photos (World.app (dispatch evictCanvases w)) in
  (count_loaded after <= MAX_LOADED_CANVASES)%nat /\
  State.activePhotoId (World.app (dispatch evictCanvases w)) = active /\
  (forall k, same_id (Photo.id (nth k before no_photo)) active = true ->
             nth k after no_photo = nth k before no_photo) /\
  map Photo.status after = map Photo.status before /\
  exists m, after = map (evict_inactive active) (firstn m before) ++ skipn m before.
Proof.
  apply (evictCanvases_evicts_from_the_front (@Session.four_loaded reference_rasteriser)).
  vm_compute. lia.
Defined.

(** C4 as stated fails: eviction does not go by recency.  Four photos A, B,
    C, D are added with A showing and the queue loads them: B is evicted.
    The user switches to B (A is evicted) and back to A: now B, the photo
    that was active last, is evicted, and C and D, which never were active,
    keep their surfaces. *)
Lemma eviction_ignores_recency :
  let added := @Session.four_photos reference_rasteriser in
  let queued := dispatch processQueue added in
  let on_B := dispatch (handlePhotoSwitch "B") queued in
  let on_A := dispatch (handlePhotoSwitch "A") on_B in
  map is_loaded (State.photos (World.app queued)) = [true; false; true; true] /\
  State.activePhotoId (World.app on_B) = Some "B"%string /\
  map is_loaded (State.photos (World.app on_B)) = [false; true; true; true] /\
  State.activePhotoId (World.app on_A) = Some "A"%string /\
  map is_loaded (State.photos (World.app on_A)) = [true; false; true; true] /\
  map Photo.status (State.photos (World.app on_A)) =
    [Detected; Detected; Detected; Detected].
Proof. vm_compute. repeat split. Qed.

(** ** Releasing a dragged face *)

Lemma Qgtb_true (a b : Q) : b < a -> Qgtb a b = true.
Proof.
  intros H. unfold Qgtb. destruct (Qle_bool a b) eqn:E; [|reflexivity].
  apply Qle_bool_iff in E. lra.
Qed.

Lemma documents_bind_ui {RA : Rasteriser} {ML : MathLib} {A B} (m : M A)
  (k : A -> M B) (w : World.t) :
  (forall a w1, documents (final (k a w1)) = documents w1) ->
  documents (final (bind m k w)) = documents (final (m w)).
Proof. intros Hk. unfold bind. destruct (m w); [apply Hk|reflexivity]. Qed.

Lemma handleFaceMoved_moves {RA : Rasteriser} {ML : MathLib} {CO : Collaborators}
  (w : World.t) (i : nat) (faceId : option string) (newBox : Box.t) (face : nat) :
  active_index (World.app w) = Some i ->
  findIndex (fun f => same_id (Face.id f) faceId) (Photo.faces (photo w i)) = Some face ->
  documents (dispatch (handleFaceMoved faceId newBox) w) =
  documents (with_photo i
               (fun p => Photo.set_faces (adjust face (set_box newBox) (Photo.faces p)) p)
               (with_photo i push_snapshot w)).
Proof.
  intros Ha Hfind.
  unfold dispatch, handleFaceMoved. rewrite (run_bind_getActivePhoto _ _ Ha).
  unfold photo_at at 1. rewrite run_bind_gets. fold (photo w i). rewrite Hfind.
  rewrite (run_bind_pushUndo _ _ Ha).
  unfold modify_photo, modify_app. rewrite run_bind_modify.
  apply quiet_show_and_preview with i.
  change (active_index
            (World.app
               (with_photo i
                  (fun p => Photo.set_faces (adjust face (set_box newBox) (Photo.faces p)) p)
                  (with_photo i push_snapshot w))) = Some i).
  now rewrite !active_index_with_photo by reflexivity.
Qed.

(** C2.  [handlePointerUp] of js/ui.js, at the end of a drag in move mode
    over more than 3 pixels, always hands the face to [onFaceMoved]: the face
    takes the dragged box and stays in the face list, wherever the centre of
    that box lies, outside the canvas included. *)
Theorem handlePointerUp_always_relocates
  {RA : Rasteriser} {ML : MathLib} {CO : Collaborators}
  (w : World.t) (i face : nat) (origBox : Box.t) (x y : Q) :
  let drag := Ui.drag (World.ui w) in
  let dx := x - Drag.startX drag in
  let dy := y - Drag.startY drag in
  active_index (World.app w) = Some i ->
  Drag.active drag = true ->
  Drag.mode drag = Some ModeMove ->
  Drag.origBox drag = Some origBox ->
  findIndex (fun f => same_id (Face.id f) (Drag.targetFaceId drag))
            (Photo.faces (photo w i)) = Some face ->
  3 * 3 < dx * dx + dy * dy ->
  Photo.faces (photo (dispatch (CanvasClick.handlePointerUp x y) w) i) =
  adjust face
         (set_box (Box.mk (Box.x origBox + dx) (Box.y origBox + dy)
                          (Box.width origBox) (Box.height origBox)))
         (Photo.faces (photo w i)).
Proof.
  intros drag dx dy Ha Hact Hmode Horig Hfind Hdist.
  pose proof (active_index_bound _ Ha) as Hi.
  set (newBox := Box.mk (Box.x origBox + dx) (Box.y origBox + dy)
                        (Box.width origBox) (Box.height origBox)).
  assert (Hd : documents (dispatch (CanvasClick.handlePointerUp x y) w) =
               documents (with_photo i
                 (fun p => Photo.set_faces (adjust face (set_box newBox) (Photo.faces p)) p)
                 (with_photo i push_snapshot w))).
  { unfold dispatch, CanvasClick.handlePointerUp.
    rewrite run_bind_gets. fold drag. rewrite Hact. cbn [negb].
    unfold CanvasClick.set_drag at 1, modify_ui at 1. rewrite run_bind_modify.
    rewrite run_bind_gets. cbn [World.ui World.set_ui Ui.drag Ui.set_drag
                                Drag.mode Drag.startX Drag.startY Drag.origBox
                                Drag.targetFaceId].
    fold drag. rewrite Hmode, Horig. fold dx dy.
    rewrite Qgtb_true by exact Hdist. fold newBox.
    rewrite documents_bind_ui by (intros; reflexivity).
    match goal with
    | |- documents (final (handleFaceMoved _ _ ?w1)) = _ =>
        change (documents (dispatch (handleFaceMoved (Drag.targetFaceId drag) newBox) w1)
                = documents (with_photo i
                    (fun p => Photo.set_faces
                                (adjust face (set_box newBox) (Photo.faces p)) p)
                    (with_photo i push_snapshot w1)));
        apply (@handleFaceMoved_moves RA ML CO w1 i (Drag.targetFaceId drag) newBox face)
    end; assumption. }
  pose proof (history_documents i Hd) as Hh.
  rewrite photo_with_photo in Hh by (now rewrite length_with_photo).
  rewrite photo_with_photo in Hh by exact Hi.
  unfold history in Hh. now injection Hh as -> _ _ _.
Qed.

Lemma handlePointerUp_always_relocates_witness :
  let w := dispatch (CanvasClick.handlePointerDown 3 20)
                    (@Session.selected_face reference_rasteriser) in
  Photo.faces (photo (dispatch (CanvasClick.handlePointerUp (-47) 20) w) 0) =
  adjust 0 (set_box (Box.mk (2 + (-47 - 3)) (6 + (20 - 20)) 26 26))
         (Photo.faces (photo w 0)).
Proof.
  intros w.
  apply (@handlePointerUp_always_relocates reference_rasteriser reference_math
           reference_collaborators w 0%nat 0%nat (Box.mk 2 6 26 26) (-47) 20);
    reflexivity.
Defined.

(** The drag of the scenario: the face with box (2, 6, 26, 26) on a 32 x 32
    canvas is selected, pressed at (3, 20) and released at (-47, 20).  The
    centre of the dragged box, (-35, 19), is outside the canvas; the face is
    still in the list, with its box at x = -48. *)
Lemma drag_outside_keeps_face :
  let pressed := dispatch (CanvasClick.handlePointerDown 3 20)
                          (@Session.selected_face reference_rasteriser) in
  let released := dispatch (CanvasClick.handlePointerUp (-47) 20) pressed in
  Drag.mode (Ui.drag (World.ui pressed)) = Some ModeMove /\
  CanvasClickRevised.isOutsideCanvas (World.ui pressed)
    (2 + 26 / 2 + (-47 - 3)) (6 + 26 / 2 + (20 - 20)) = true /\
  map Face.box (Photo.faces (photo released 0)) = [Box.mk (-48) 6 26 26].
Proof. vm_compute. repeat split. Qed.

(** The later copy of js/ui.js has the gesture: its [handlePointerUp] checks
    the centre of the dragged box and calls [onFaceRemoved]. *)
Lemma revised_handlePointerUp_removes :
  let pressed := dispatch (CanvasClick.handlePointerDown 3 20)
                          (@Session.selected_face reference_rasteriser) in
  let released := dispatch (CanvasClickRevised.handlePointerUp (-47) 20) pressed in
  Photo.faces (photo released 0) = [] /\
  Photo.selectedFaceId (photo released 0) = None.
Proof. vm_compute. repeat split. Qed.

(** * Further properties of the effect engine *)

(** ** Pixels an operation leaves alone *)

Lemma pixel_outside_inside (i j : Z) (inner outer : BBox.t) :
  bbox_inside inner outer -> pixel_outside i j outer -> pixel_outside i j inner.
Proof.
  unfold bbox_inside, pixel_outside. intros (H0 & H1 & H2 & H3) [H|[H|[H|H]]].
  - left. lra.
  - right. left. lra.
  - right. right. left. lra.
  - right. right. right. lra.
Qed.

Section Keeps.

Context {RA : Rasteriser} {ML : MathLib}.
Variable P : Gfx.t -> Prop.
Hypothesis P_rng : forall g g',
  Rng.draws (Gfx.rng g') = Rng.draws (Gfx.rng g) -> P g -> P g'.
Variables (ctx : Ref) (i j : Z).

Lemma keeps_ret {A} (a : A) : keeps P ctx i j (ret a).
Proof. intros g Hg. split; [exact Hg|reflexivity]. Qed.

Lemma keeps_throw {A} (e : JsError) : keeps P ctx i j (@throw Gfx.t A e).
Proof. intros g Hg. split; [exact Hg|reflexivity]. Qed.

Lemma keeps_bind {A B} (m : G A) (k : A -> G B) :
  keeps P ctx i j m -> (forall a, keeps P ctx i j (k a)) -> keeps P ctx i j (bind m k).
Proof.
  intros Hm Hk g Hg. unfold bind. destruct (Hm g Hg) as [Hd Hp].
  destruct (m g) as [a g1|e g1]; simpl in *; [|now split].
  destruct (Hk a g1 Hd) as [Hd' Hp']. split; [exact Hd'|]. now rewrite Hp'.
Qed.

Lemma keeps_random_bind {B} (k : Q -> G B) :
  (forall g, P g ->
     keeps P ctx i j (k (Rng.draws (Gfx.rng g) (Rng.next (Gfx.rng g))))) ->
  keeps P ctx i j (bind random k).
Proof.
  intros Hk g Hg. rewrite run_bind_random.
  set (g1 := Gfx.mk (Gfx.cells g) (Gfx.size g)
               (Rng.mk (Rng.draws (Gfx.rng g)) (S (Rng.next (Gfx.rng g))))).
  assert (H1 : P g1) by (apply P_rng with g; [reflexivity|exact Hg]).
  destruct (Hk g Hg g1 H1) as [Hd Hp]. split; [exact Hd|]. rewrite Hp. reflexivity.
Qed.

Lemma keeps_lookup_bind {B} (r : Ref) (k : Canvas.t -> G B) :
  (forall c, keeps P ctx i j (k c)) -> keeps P ctx i j (bind (lookup r) k).
Proof. intros Hk g Hg. unfold lookup. rewrite run_bind_gets. now apply Hk. Qed.

Lemma keeps_forM_ {A} (l : list A) (body : A -> G unit) :
  (forall a, In a l -> keeps P ctx i j (body a)) -> keeps P ctx i j (forM_ l body).
Proof.
  induction l as [|a l IH]; intros Hb; simpl; [apply keeps_ret|].
  apply keeps_bind; [apply Hb; now left|intros _; apply IH].
  intros b Hin. apply Hb. now right.
Qed.

Lemma keeps_foldM {A B} (body : B -> A -> G B) (l : list A) :
  (forall b a, keeps P ctx i j (body b a)) ->
  forall b, keeps P ctx i j (foldM body l b).
Proof.
  intros Hb. induction l as [|a l IH]; intros b; simpl; [apply keeps_ret|].
  apply keeps_bind; [apply Hb|exact IH].
Qed.

Lemma keeps_update_ctx (f : Ctx.t -> Ctx.t) : keeps P ctx i j (update_ctx ctx f).
Proof.
  intros g Hg. unfold update_ctx, update_canvas. rewrite run_modify.
  split; [now apply P_rng with g|]. unfold pixel_at. cbn [final]. simp_state.
  reflexivity.
Qed.

Lemma keeps_set_fillStyle (v : Style) : keeps P ctx i j (set_fillStyle ctx v).
Proof. apply keeps_update_ctx. Qed.

Lemma keeps_draw (op : DrawOp) : untouched_by op i j -> keeps P ctx i j (draw ctx op).
Proof.
  intros H g Hg. unfold draw, update_canvas. rewrite run_modify.
  split; [now apply P_rng with g|]. unfold pixel_at. cbn [final]. simp_state.
  now apply render_frame.
Qed.

Lemma keeps_fillRect (x y w h : Q) :
  pixel_outside i j (rect_bbox x y w h) -> keeps P ctx i j (fillRect ctx x y w h).
Proof.
  intros H. unfold fillRect. apply keeps_lookup_bind. intros c.
  apply keeps_draw. now left.
Qed.

Lemma keeps_putImageData (img : Bitmap.t) (dx dy : Z) :
  ~ (dx <= i < dx + Bitmap.width img /\ dy <= j < dy + Bitmap.height img)%Z ->
  keeps P ctx i j (putImageData ctx img dx dy).
Proof. intros H. unfold putImageData. now apply keeps_draw. Qed.

End Keeps.

Lemma any_state_rng (g g' : Gfx.t) :
  Rng.draws (Gfx.rng g') = Rng.draws (Gfx.rng g) -> any_state g -> any_state g'.
Proof. intros _ _. exact I. Qed.

Lemma unit_draws_rng (g g' : Gfx.t) :
  Rng.draws (Gfx.rng g') = Rng.draws (Gfx.rng g) -> unit_draws g -> unit_draws g'.
Proof. intros H Hg n. rewrite H. apply Hg. Qed.

(** Run an effect on a symbolic state, branch by branch. *)
Ltac run_effect :=
  unfold ellipse, getImageData, createImageData; unfold_methods;
  repeat (exec;
          try match goal with
              | |- context [bind (if ?c then _ else _) _ _] => destruct c eqn:?
              | |- context [(if ?c then _ else _) _] => destruct c eqn:?
              end);
  unfold pixel_at; cbn [final]; simp_state.

(** Decide the comparisons of an effect identifier with the known ones. *)
Ltac decide_ids :=
  repeat match goal with
         | |- context [String.eqb ?a ?b] =>
             let v := eval vm_compute in (String.eqb a b) in
             change (String.eqb a b) with v
         end;
  cbv iota.

Ltac radii_nonneg :=
  match goal with
  | H : (_ <? 0) || (_ <? 0) = false |- _ =>
      let H1 := fresh "Hrx" in
      let H2 := fresh "Hry" in
      apply orb_false_elim in H; destruct H as [H1 H2];
      apply Qltb_ge in H1; apply Qltb_ge in H2
  end.

Section Contained.

Context {RA : Rasteriser} {ML : MathLib}.
Variables (ctx : Ref) (i j : Z) (box : Box.t).

Lemma ellipse_bbox_scaled (kx ky : Q) :
  0 <= Box.width box / 2 * kx -> 0 <= Box.height box / 2 * ky ->
  bbox_inside
    (path_bbox [EllipseArc (Box.x box + Box.width box / 2)
                           (Box.y box + Box.height box / 2)
                           (Box.width box / 2 * kx) (Box.height box / 2 * ky)])
    (box_scaled box kx ky).
Proof.
  intros Hx Hy. unfold bbox_inside, path_bbox, box_scaled. simpl.
  set (rx := Box.width box / 2 * kx) in *.
  set (ry := Box.height box / 2 * ky) in *.
  assert (Ex : kx * (Box.width box / 2) == rx) by (unfold rx; ring).
  assert (Ey : ky * (Box.height box / 2) == ry) by (unfold ry; ring).
  rewrite Ex, Ey. clearbody rx ry.
  set (cx := Box.x box + Box.width box / 2). set (cy := Box.y box + Box.height box / 2).
  clearbody cx cy. qminmax. repeat split; lra.
Qed.

(** Blackout: the ellipse is the box scaled by 1.05 about its centre. *)
Lemma applyBlackout_contained (src : Ref) (intensity : Q) (g : Gfx.t) :
  pixel_outside i j (box_scaled box 1.05 1.05) ->
  pixel_at (final (applyBlackout ctx src box intensity g)) ctx i j = pixel_at g ctx i j.
Proof.
  intros Hout. unfold applyBlackout. run_effect; [reflexivity|].
  radii_nonneg. apply render_frame. left.
  apply pixel_outside_inside with (box_scaled box 1.05 1.05); [|exact Hout].
  now apply ellipse_bbox_scaled.
Qed.

Lemma applySolidColor_contained (src : Ref) (intensity : Q) (landmarks : Landmarks)
  (color : option string) (g : Gfx.t) :
  pixel_outside i j (box_scaled box 1.05 1.05) ->
  pixel_at (final (applySolidColor ctx src box intensity landmarks color g)) ctx i j
  = pixel_at g ctx i j.
Proof.
  intros Hout. unfold applySolidColor. run_effect; [reflexivity|].
  radii_nonneg. apply render_frame. left.
  apply pixel_outside_inside with (box_scaled box 1.05 1.05); [|exact Hout].
  now apply ellipse_bbox_scaled.
Qed.

End Contained.

(** X1.  Blackout and solid-colour paint an ellipse 5% larger than the face
    box: no pixel outside the box scaled by 1.05 about its centre changes,
    whatever the box, the intensity and the colour, and also when the call
    throws for a box of negative size. *)
Theorem ellipse_fill_contained {RA : Rasteriser} {ML : MathLib}
  (g : Gfx.t) (ctx src : Ref) (box : Box.t) (effectId : string) (intensity : Q)
  (landmarks : Landmarks) (options : Options.t) (i j : Z) :
  effectId = "blackout"%string \/ effectId = "solid-color"%string ->
  pixel_outside i j (box_scaled box 1.05 1.05) ->
  pixel_at (final (applyEffect ctx src box effectId intensity landmarks options g))
           ctx i j
  = pixel_at g ctx i j.
Proof.
  intros [->| ->] Hout; unfold applyEffect; decide_ids.
  - now apply applyBlackout_contained.
  - now apply applySolidColor_contained.
Qed.

Lemma half (a : Q) : a / 2 == a * (1 # 2).
Proof. field. Qed.

Lemma In_range (lo hi k : Z) : In k (range lo hi) -> (lo <= k < hi)%Z.
Proof.
  unfold range. rewrite in_map_iff. intros (n & <- & Hn).
  apply in_seq in Hn. lia.
Qed.

Lemma ellipse_bbox (cx cy rx ry : Q) :
  0 <= rx -> 0 <= ry ->
  bbox_inside (path_bbox [EllipseArc cx cy rx ry])
              (BBox.mk (cx - rx) (cy - ry) (cx + rx) (cy + ry)).
Proof.
  intros Hx Hy. unfold bbox_inside, path_bbox. simpl. qminmax. repeat split; lra.
Qed.

Lemma bbox_inside_trans (a b c : BBox.t) :
  bbox_inside a b -> bbox_inside b c -> bbox_inside a c.
Proof. unfold bbox_inside. intros (?&?&?&?) (?&?&?&?). repeat split; lra. Qed.

Lemma clipped_away_head (i j : Z) (p : Path) (clip : list Path) :
  pixel_outside i j (path_bbox p) -> clipped_away i j (p :: clip).
Proof. intros H. exists p. split; [now left|exact H]. Qed.

Ltac run_effect_more :=
  unfold ellipse, getImageData, createImageData; unfold_methods;
  repeat (exec;
          try match goal with
              | |- context [bind (if ?c then _ else _) _ _] => destruct c eqn:?
              | |- context [(if ?c then _ else _) _] => destruct c eqn:?
              | |- context [match Ctx.filter ?c with _ => _ end] =>
                  destruct (Ctx.filter c) eqn:?
              end);
  unfold pixel_at; cbn [final]; simp_state.

Section ContainedMore.

Context {RA : Rasteriser} {ML : MathLib}.
Variables (ctx : Ref) (i j : Z) (box : Box.t).

Lemma applySilhouette_contained (src : Ref) (intensity : Q) (landmarks : Landmarks)
  (g : Gfx.t) :
  positions_at_least 17 landmarks = None ->
  pixel_outside i j (box_scaled box 1.05 1.15) ->
  pixel_at (final (applySilhouette ctx src box intensity landmarks g)) ctx i j
  = pixel_at g ctx i j.
Proof.
  intros Hlm Hout. unfold applySilhouette. rewrite Hlm. run_effect; [reflexivity|].
  radii_nonneg. apply render_frame. left.
  apply pixel_outside_inside with (box_scaled box 1.05 1.15); [|exact Hout].
  now apply ellipse_bbox_scaled.
Qed.

Lemma applyPixelate_contained (src : Ref) (intensity : Q) (g : Gfx.t) :
  (ctx < Gfx.size g)%nat ->
  pixel_outside i j (box_itself box) ->
  pixel_at (final (applyPixelate ctx src box intensity g)) ctx i j = pixel_at g ctx i j.
Proof.
  intros Hctx Hout. unfold applyPixelate. run_effect; [reflexivity|].
  radii_nonneg. apply render_frame. right. apply clipped_away_head.
  apply pixel_outside_inside with (box_itself box); [|exact Hout].
  eapply bbox_inside_trans; [now apply ellipse_bbox|].
  unfold bbox_inside, box_itself, grown_box. simpl.
  rewrite !half in *. repeat split; lra.
Qed.

Lemma blur_padding_nonneg_inside :
  0 <= Box.width box / 2 + blur_padding box ->
  0 <= Box.height box / 2 + blur_padding box ->
  bbox_inside
    (path_bbox [EllipseArc (Box.x box + Box.width box / 2)
                           (Box.y box + Box.height box / 2)
                           (Box.width box / 2 + blur_padding box)
                           (Box.height box / 2 + blur_padding box)])
    (grown_box box (blur_padding box)).
Proof.
  intros Hx Hy. eapply bbox_inside_trans; [now apply ellipse_bbox|].
  unfold bbox_inside, grown_box. simpl. set (p := blur_padding box) in *. clearbody p.
  rewrite !half in *. repeat split; lra.
Qed.

Lemma applyBlur_contained (src : Ref) (intensity : Q) (g : Gfx.t) :
  (ctx < Gfx.size g)%nat ->
  pixel_outside i j (grown_box box (blur_padding box)) ->
  pixel_at (final (applyBlur ctx src box intensity g)) ctx i j = pixel_at g ctx i j.
Proof.
  intros Hctx Hout. unfold applyBlur, applyPixelate.
  fold (blur_padding box). run_effect_more; try reflexivity.
  all: repeat radii_nonneg.
  all: apply render_frame; right.
  - apply clipped_away_head.
    apply pixel_outside_inside with (grown_box box (blur_padding box)); [|exact Hout].
    now apply blur_padding_nonneg_inside.
  - exists [EllipseArc (Box.x box + Box.width box / 2)
                       (Box.y box + Box.height box / 2)
                       (Box.width box / 2 + blur_padding box)
                       (Box.height box / 2 + blur_padding box)].
    split; [right; now left|].
    apply pixel_outside_inside with (grown_box box (blur_padding box)); [|exact Hout].
    now apply blur_padding_nonneg_inside.
Qed.

End ContainedMore.

Section KeepsPixels.

Context {RA : Rasteriser} {ML : MathLib}.
Variable P : Gfx.t -> Prop.
Hypothesis P_rng : forall g g',
  Rng.draws (Gfx.rng g') = Rng.draws (Gfx.rng g) -> P g -> P g'.
Variables (ctx : Ref) (i j : Z).

Lemma keeps_getImageData_bind {B} (r : Ref) (sx sy sw sh : Z) (k : Bitmap.t -> G B) :
  (forall img, Bitmap.width img = sw -> Bitmap.height img = sh ->
               keeps P ctx i j (k img)) ->
  keeps P ctx i j (bind (getImageData r sx sy sw sh) k).
Proof.
  intros Hk. unfold getImageData. destruct ((sw =? 0)%Z || (sh =? 0)%Z).
  - intros g Hg. rewrite run_bind_throw. split; [exact Hg|reflexivity].
  - intros g Hg. unfold lookup. rewrite run_bind_assoc, run_bind_gets, run_bind_ret.
    now apply Hk.
Qed.

Lemma keeps_createImageData_bind {B} (sw sh : Z) (k : Bitmap.t -> G B) :
  (forall img, Bitmap.width img = sw -> Bitmap.height img = sh ->
               keeps P ctx i j (k img)) ->
  keeps P ctx i j (bind (createImageData sw sh) k).
Proof.
  intros Hk. unfold createImageData. destruct ((sw =? 0)%Z || (sh =? 0)%Z).
  - intros g Hg. rewrite run_bind_throw. split; [exact Hg|reflexivity].
  - intros g Hg. rewrite run_bind_ret. now apply Hk.
Qed.

Lemma keeps_random_pure {A} (f : Q -> A) : keeps P ctx i j (r <- random ;; ret (f r)).
Proof.
  apply (keeps_random_bind P_rng). intros g Hg. apply keeps_ret.
Qed.

(** Glitch writes the clamped rectangle and nothing else. *)
Lemma applyGlitch_pixels (src : Ref) (box : Box.t) (intensity : Q) (g : Gfx.t) :
  P g ->
  ~ in_rectangle (clampedX box) (clampedY box)
      (clampedW box (Canvas.width (Gfx.cells g src)))
      (clampedH box (Canvas.height (Gfx.cells g src))) i j ->
  P (final (applyGlitch ctx src box intensity g)) /\
  pixel_at (final (applyGlitch ctx src box intensity g)) ctx i j = pixel_at g ctx i j.
Proof.
  intros Hg Hout. unfold applyGlitch. unfold lookup. rewrite !run_bind_gets.
  cbv zeta.
  destruct ((_ <=? 0)%Z || (_ <=? 0)%Z); [split; [exact Hg|reflexivity]|].
  apply keeps_getImageData_bind; [|exact Hg]. intros img Hw Hh.
  apply keeps_bind.
  { apply keeps_foldM. intros result row.
    apply (keeps_random_bind P_rng). intros g1 _.
    destruct (_ <? _); [|apply keeps_ret].
    apply (keeps_random_bind P_rng). intros g2 _. apply keeps_ret. }
  intros result. apply keeps_bind.
  { apply keeps_foldM. intros result' band.
    apply (keeps_random_bind P_rng). intros g1 _.
    apply (keeps_random_bind P_rng). intros g2 _.
    apply (keeps_random_bind P_rng). intros g3 _. apply keeps_ret. }
  intros result'. apply keeps_putImageData; [exact P_rng|]. cbn [Bitmap.width Bitmap.height].
  rewrite Hw, Hh. exact Hout.
Qed.

Lemma applySwirl_pixels (src : Ref) (box : Box.t) (intensity : Q) (g : Gfx.t) :
  P g ->
  ~ in_rectangle (clampedX box) (clampedY box)
      (clampedW box (Canvas.width (Gfx.cells g src)))
      (clampedH box (Canvas.height (Gfx.cells g src))) i j ->
  P (final (applySwirl ctx src box intensity g)) /\
  pixel_at (final (applySwirl ctx src box intensity g)) ctx i j = pixel_at g ctx i j.
Proof.
  intros Hg Hout. unfold applySwirl. unfold lookup. rewrite !run_bind_gets.
  cbv zeta.
  destruct ((_ <=? 0)%Z || (_ <=? 0)%Z); [split; [exact Hg|reflexivity]|].
  apply keeps_getImageData_bind; [|exact Hg]. intros img Hw Hh.
  apply keeps_createImageData_bind. intros dst Hw' Hh'.
  apply keeps_putImageData; [exact P_rng|]. cbn [Bitmap.width Bitmap.height].
  rewrite Hw', Hh'. exact Hout.
Qed.

End KeepsPixels.

Lemma Qceiling_gt (a : Q) (k : Z) : (k < Qceiling a)%Z -> inject_Z k < a.
Proof.
  intros H. destruct (Qlt_le_dec (inject_Z k) a) as [|Hle]; [assumption|].
  exfalso. assert (Hc : (Qceiling a <= k)%Z).
  { rewrite <- (Qceiling_Z k). now apply Qceiling_resp_le. }
  lia.
Qed.

Section Redact.

Context {RA : Rasteriser} {ML : MathLib}.
Variables (ctx : Ref) (i j : Z) (box : Box.t).
Hypothesis Hw : 0 <= Box.width box.
Hypothesis Hh : 0 <= Box.height box.
Hypothesis Hout : pixel_outside i j (grown_box box 6).

Lemma redact_rect_outside (x y w h : Q) :
  bbox_inside (rect_bbox x y w h) (grown_box box 6) ->
  pixel_outside i j (rect_bbox x y w h).
Proof. intros H. now apply pixel_outside_inside with (grown_box box 6). Qed.

Lemma keeps_applyRedact (src : Ref) (intensity : Q) :
  keeps unit_draws ctx i j (applyRedact ctx src box intensity).
Proof.
  unfold applyRedact. cbv zeta.
  set (x := Box.x box) in *. set (y := Box.y box) in *.
  set (w := Box.width box) in *. set (h := Box.height box) in *.
  assert (Hgrown : grown_box box 6 = BBox.mk (x - 6) (y - 6) (x + w + 6) (y + h + 6))
    by reflexivity.
  apply keeps_bind; [apply keeps_set_fillStyle; exact unit_draws_rng|intros _].
  apply keeps_bind.
  { apply keeps_fillRect; [exact unit_draws_rng|]. apply redact_rect_outside.
    rewrite Hgrown. unfold bbox_inside, rect_bbox. simpl. clearbody x y w h.
    qminmax. repeat split; lra. }
  intros _.
  apply keeps_bind; [apply keeps_set_fillStyle; exact unit_draws_rng|intros _].
  apply keeps_bind.
  { apply keeps_forM_. intros k Hk. apply In_range in Hk.
    apply keeps_fillRect; [exact unit_draws_rng|]. apply redact_rect_outside.
    assert (Hk0 : 0 <= inject_Z k).
    { change 0 with (inject_Z 0). rewrite <- Zle_Qle. lia. }
    assert (Hk1 : inject_Z k < h / 3) by (apply Qceiling_gt; unfold Math.ceil in Hk; lia).
    rewrite Hgrown. unfold bbox_inside, rect_bbox. simpl.
    set (q := inject_Z k) in *. assert (Hh3 : h / 3 == h * (1 # 3)) by field.
    rewrite Hh3 in Hk1. clearbody x y w h q.
    qminmax. repeat split; lra. }
  intros _.
  apply keeps_bind; [apply keeps_set_fillStyle; exact unit_draws_rng|intros _].
  apply keeps_forM_. intros k _.
  apply (keeps_random_bind unit_draws_rng). intros g1 Hg1.
  apply (keeps_random_bind unit_draws_rng). intros g2 Hg2.
  apply keeps_fillRect; [exact unit_draws_rng|]. apply redact_rect_outside.
  pose proof (Hg1 (Rng.next (Gfx.rng g1))) as [Hr0 Hr1].
  set (r1 := Rng.draws (Gfx.rng g1) (Rng.next (Gfx.rng g1))) in *.
  set (r2 := Rng.draws (Gfx.rng g2) (Rng.next (Gfx.rng g2))) in *.
  assert (Hm0 : 0 <= r1 * (w + 4 * 2)) by (apply Qmult_le_0_compat; lra).
  assert (Hm1 : 0 <= (1 - r1) * (w + 4 * 2)) by (apply Qmult_le_0_compat; lra).
  assert (Hm2 : (1 - r1) * (w + 4 * 2) == (w + 4 * 2) - r1 * (w + 4 * 2)) by ring.
  rewrite Hm2 in Hm1. clear Hm2.
  set (m := r1 * (w + 4 * 2)) in *.
  rewrite Hgrown. unfold bbox_inside, rect_bbox. simpl.
  destruct (r2 <? 0.5); clearbody x y w h m; qminmax; repeat split; lra.
Qed.

End Redact.

Section Bars.

Context {RA : Rasteriser} {ML : MathLib}.

Lemma applyBlackBarEyes_fallback_contained (g : Gfx.t) (ctx src : Ref) (box : Box.t)
  (intensity : Q) (landmarks : Landmarks) (i j : Z) :
  positions_at_least 48 landmarks = None ->
  0 <= intensity <= 100 -> 0 <= Box.width box -> 0 <= Box.height box ->
  pixel_outside i j (box_itself box) ->
  pixel_at (final (applyBlackBarEyes ctx src box intensity landmarks g)) ctx i j
  = pixel_at g ctx i j.
Proof.
  intros Hlm [Hi0 Hi1] Hw Hh Hout. unfold applyBlackBarEyes. rewrite Hlm.
  run_effect. apply render_frame. left.
  apply pixel_outside_inside with (box_itself box); [|exact Hout].
  unfold bbox_inside, rect_bbox, box_itself, grown_box, thicknessMultiplier. simpl.
  set (x := Box.x box) in *. set (y := Box.y box) in *.
  set (w := Box.width box) in *. set (h := Box.height box) in *.
  assert (Hd : intensity / 100 == intensity * (1 # 100)) by field.
  rewrite Hd.
  assert (0 <= h * intensity) by (apply Qmult_le_0_compat; lra).
  assert (0 <= h * (100 - intensity)) by (apply Qmult_le_0_compat; lra).
  clearbody x y w h. qminmax. repeat split; lra.
Qed.

End Bars.

(** ** The clamped rectangle of glitch and swirl *)

Lemma round_nonneg (a : Q) : 0 <= a -> (0 <= Math.round a)%Z.
Proof.
  intros H. destruct (round_bounds a) as [_ Hl].
  destruct (Z_lt_le_dec (Math.round a) 0) as [Hlt|]; [|assumption].
  exfalso. assert (Hz : (Math.round a <= -1)%Z) by lia.
  rewrite Zle_Qle in Hz. change (inject_Z (-1)) with (-1) in Hz. lra.
Qed.

Lemma round_le_integer (a : Q) (n : Z) : a <= inject_Z n -> (Math.round a <= n)%Z.
Proof.
  intros H. destruct (round_bounds a) as [Hu _].
  destruct (Z_lt_le_dec n (Math.round a)) as [Hlt|]; [|lia].
  exfalso. assert (Hz : (n + 1 <= Math.round a)%Z) by lia.
  rewrite Zle_Qle, inject_Z_plus in Hz. change (inject_Z 1) with 1 in Hz. lra.
Qed.

Lemma clamped_rectangle_in_canvas (box : Box.t) (canvasWidth canvasHeight : Z) :
  (0 <= clampedX box /\ 0 <= clampedY box /\
   clampedX box + clampedW box canvasWidth <= canvasWidth /\
   clampedY box + clampedH box canvasHeight <= canvasHeight)%Z.
Proof.
  unfold clampedW, clampedH, clampedX, clampedY.
  assert (Hx : (0 <= Math.round (Math.max 0 (Box.x box)))%Z)
    by (apply round_nonneg; unfold Math.max; apply Qmax_ge_l).
  assert (Hy : (0 <= Math.round (Math.max 0 (Box.y box)))%Z)
    by (apply round_nonneg; unfold Math.max; apply Qmax_ge_l).
  repeat split; try assumption.
  - set (fx := Math.round (Math.max 0 (Box.x box))) in *.
    assert (H : (Math.round (Math.min (Box.width box) (inject_Z canvasWidth - inject_Z fx))
                 <= canvasWidth - fx)%Z).
    { apply round_le_integer. unfold Math.min, Z.sub.
      rewrite inject_Z_plus, inject_Z_opp. apply Qmin_le_r. }
    lia.
  - set (fy := Math.round (Math.max 0 (Box.y box))) in *.
    assert (H : (Math.round (Math.min (Box.height box) (inject_Z canvasHeight - inject_Z fy))
                 <= canvasHeight - fy)%Z).
    { apply round_le_integer. unfold Math.min, Z.sub.
      rewrite inject_Z_plus, inject_Z_opp. apply Qmin_le_r. }
    lia.
Qed.

(** X2.  Glitch and swirl read and write one rectangle of whole pixels, the
    box clamped at the left and top edges and cut at the right and bottom
    ones: it lies within the canvas, and no pixel outside it changes,
    whatever the box, the intensity and the random draws. *)
Theorem pixel_effects_write_clamped_rectangle {RA : Rasteriser} {ML : MathLib}
  (g : Gfx.t) (ctx src : Ref) (box : Box.t) (effectId : string) (intensity : Q)
  (landmarks : Landmarks) (options : Options.t) (i j : Z) :
  let canvasWidth := Canvas.width (Gfx.cells g src) in
  let canvasHeight := Canvas.height (Gfx.cells g src) in
  let fx := clampedX box in
  let fy := clampedY box in
  let fw := clampedW box canvasWidth in
  let fh := clampedH box canvasHeight in
  effectId = "glitch"%string \/ effectId = "swirl"%string ->
  (0 <= fx /\ 0 <= fy /\ fx + fw <= canvasWidth /\ fy + fh <= canvasHeight)%Z /\
  (~ in_rectangle fx fy fw fh i j ->
   pixel_at (final (applyEffect ctx src box effectId intensity landmarks options g))
            ctx i j
   = pixel_at g ctx i j).
Proof.
  intros canvasWidth canvasHeight fx fy fw fh Hid.
  split; [apply clamped_rectangle_in_canvas|].
  intros Hout. destruct Hid as [->| ->]; unfold applyEffect; decide_ids.
  - eapply proj2. apply applyGlitch_pixels with (P := any_state);
      [exact any_state_rng|exact I|exact Hout].
  - eapply proj2. apply applySwirl_pixels with (P := any_state);
      [exact any_state_rng|exact I|exact Hout].
Qed.

Lemma pixel_effects_write_clamped_rectangle_witness :
  (0 <= 2 /\ 0 <= 0 /\ 2 + 2 <= 4 /\ 0 + 1 <= 1)%Z /\
  (~ in_rectangle 2 0 2 1 1 0 ->
   pixel_at (final (applyEffect 0%nat 0%nat (Box.mk 2 0 4 1) "glitch" 100 None
                      (Options.mk None None)
                      (Example.gfx_with Example.row4 (Example.draws [0; 0] 0.99))))
            0%nat 1 0
   = pixel_at (Example.gfx_with Example.row4 (Example.draws [0; 0] 0.99)) 0%nat 1 0).
Proof.
  apply (@pixel_effects_write_clamped_rectangle reference_rasteriser reference_math
           (Example.gfx_with Example.row4 (Example.draws [0; 0] 0.99)) 0%nat 0%nat
           (Box.mk 2 0 4 1) "glitch" 100 None (Options.mk None None) 1 0).
  left. reflexivity.
Defined.

Lemma ellipse_fill_contained_witness :
  pixel_at (final (applyEffect 0%nat 0%nat (Box.mk 0 0 2 1) "blackout" 100 None
                     (Options.mk None None)
                     (Example.gfx_with Example.row4 (Example.draws [] 0))))
           0%nat 3 0
  = pixel_at (Example.gfx_with Example.row4 (Example.draws [] 0)) 0%nat 3 0.
Proof.
  apply (@ellipse_fill_contained reference_rasteriser reference_math).
  - left. reflexivity.
  - right. left. vm_compute. discriminate.
Defined.

(** X3.  Without 17 landmark points the silhouette is an ellipse 1.05 times
    as wide and 1.15 times as high as the face box: no pixel outside the box
    scaled by these factors about its centre changes. *)
Theorem silhouette_fallback_contained {RA : Rasteriser} {ML : MathLib}
  (g : Gfx.t) (ctx src : Ref) (box : Box.t) (intensity : Q)
  (landmarks : Landmarks) (options : Options.t) (i j : Z) :
  positions_at_least 17 landmarks = None ->
  pixel_outside i j (box_scaled box 1.05 1.15) ->
  pixel_at (final (applyEffect ctx src box "silhouette" intensity landmarks options g))
           ctx i j
  = pixel_at g ctx i j.
Proof.
  intros Hlm Hout. unfold applyEffect. decide_ids.
  now apply applySilhouette_contained.
Qed.

Lemma silhouette_fallback_contained_witness :
  pixel_at (final (applyEffect 0%nat 0%nat (Box.mk 0 0 2 1) "silhouette" 80 None
                     (Options.mk None None)
                     (Example.gfx_with Example.row4 (Example.draws [] 0))))
           0%nat 3 0
  = pixel_at (Example.gfx_with Example.row4 (Example.draws [] 0)) 0%nat 3 0.
Proof.
  apply (@silhouette_fallback_contained reference_rasteriser reference_math).
  - reflexivity.
  - right. left. vm_compute. discriminate.
Defined.

(** X4.  Pixelate draws through an elliptical clip inscribed in the face box:
    no pixel of the destination outside the box changes, and this also when
    the call throws. *)
Theorem pixelate_contained {RA : Rasteriser} {ML : MathLib}
  (g : Gfx.t) (ctx src : Ref) (box : Box.t) (intensity : Q) (i j : Z) :
  (ctx < Gfx.size g)%nat ->
  pixel_outside i j (box_itself box) ->
  pixel_at (final (applyPixelate ctx src box intensity g)) ctx i j = pixel_at g ctx i j.
Proof. intros Hctx Hout. now apply applyPixelate_contained. Qed.

Lemma pixelate_contained_witness :
  pixel_at (final (applyPixelate 0%nat 0%nat (Box.mk 0 0 2 1) 50
                     (Example.gfx_with Example.row4 (Example.draws [] 0))))
           0%nat 3 0
  = pixel_at (Example.gfx_with Example.row4 (Example.draws [] 0)) 0%nat 3 0.
Proof.
  apply (@pixelate_contained reference_rasteriser reference_math).
  - vm_compute. lia.
  - right. left. vm_compute. discriminate.
Defined.

(** X5.  Blur draws through an elliptical clip padded by
    min(5% of the smaller box dimension, 20) pixels: no pixel of the
    destination outside the box grown by that padding changes, with the
    native blur filter (which spreads past its destination rectangle) as
    with the pixelate fallback. *)
Theorem blur_contained {RA : Rasteriser} {ML : MathLib}
  (g : Gfx.t) (ctx src : Ref) (box : Box.t) (intensity : Q) (i j : Z) :
  (ctx < Gfx.size g)%nat ->
  pixel_outside i j (grown_box box (blur_padding box)) ->
  pixel_at (final (applyBlur ctx src box intensity g)) ctx i j = pixel_at g ctx i j.
Proof. intros Hctx Hout. now apply applyBlur_contained. Qed.

Lemma blur_contained_witness :
  pixel_at (final (applyBlur 0%nat 0%nat (Box.mk 0 0 2 1) 70
                     (Example.gfx_with Example.row4 (Example.draws [] 0))))
           0%nat 3 0
  = pixel_at (Example.gfx_with Example.row4 (Example.draws [] 0)) 0%nat 3 0.
Proof.
  apply (@blur_contained reference_rasteriser reference_math).
  - vm_compute. lia.
  - right. left. vm_compute. discriminate.
Defined.

(** X6.  Redact paints the box padded by 4 pixels, scan lines within it and
    3 x 3 speckles centred on its top and bottom edges: with [Math.random]
    in [[0, 1)] and a box of non-negative size, no pixel outside the box
    grown by 6 pixels changes. *)
Theorem redact_contained {RA : Rasteriser} {ML : MathLib}
  (g : Gfx.t) (ctx src : Ref) (box : Box.t) (intensity : Q)
  (landmarks : Landmarks) (options : Options.t) (i j : Z) :
  unit_draws g ->
  0 <= Box.width box -> 0 <= Box.height box ->
  pixel_outside i j (grown_box box 6) ->
  pixel_at (final (applyEffect ctx src box "redact" intensity landmarks options g))
           ctx i j
  = pixel_at g ctx i j.
Proof.
  intros Hg Hw Hh Hout. unfold applyEffect. decide_ids.
  eapply proj2. apply keeps_applyRedact; assumption.
Qed.

Lemma redact_contained_witness :
  pixel_at (final (applyEffect 0%nat 0%nat (Box.mk 0 0 2 1) "redact" 100 None
                     (Options.mk None None)
                     (Example.gfx_with Example.row4 (Example.draws [] 0))))
           0%nat 9 0
  = pixel_at (Example.gfx_with Example.row4 (Example.draws [] 0)) 0%nat 9 0.
Proof.
  apply (@redact_contained reference_rasteriser reference_math).
  - intros n. simpl. destruct n; split; vm_compute; first [discriminate|reflexivity].
  - vm_compute. discriminate.
  - vm_compute. discriminate.
  - right. left. vm_compute. discriminate.
Defined.

(** ** The eye bar over landmarks *)

Lemma fold_Qmin_le (l : list Q) (a : Q) :
  fold_left Qmin l a <= a /\ forall b, In b l -> fold_left Qmin l a <= b.
Proof.
  revert a. induction l as [|c l IH]; intros a; simpl.
  - split; [lra|intros b []].
  - destruct (IH (Qmin a c)) as [H1 H2].
    pose proof (Qmin_le_l a c). pose proof (Qmin_le_r a c).
    split; [lra|]. intros b [<-|Hb]; [lra|now apply H2].
Qed.

Lemma fold_Qmax_ge (l : list Q) (a : Q) :
  a <= fold_left Qmax l a /\ forall b, In b l -> b <= fold_left Qmax l a.
Proof.
  revert a. induction l as [|c l IH]; intros a; simpl.
  - split; [lra|intros b []].
  - destruct (IH (Qmax a c)) as [H1 H2].
    pose proof (Qmax_ge_l a c). pose proof (Qmax_ge_r a c).
    split; [lra|]. intros b [<-|Hb]; [lra|now apply H2].
Qed.

Lemma min_of_le (l : list Q) (b : Q) : In b l -> min_of l <= b.
Proof.
  destruct l as [|a l]; [intros []|]. simpl.
  destruct (fold_Qmin_le l a) as [H1 H2]. intros [<-|Hb]; [exact H1|now apply H2].
Qed.

Lemma max_of_ge (l : list Q) (b : Q) : In b l -> b <= max_of l.
Proof.
  destruct l as [|a l]; [intros []|]. simpl.
  destruct (fold_Qmax_ge l a) as [H1 H2]. intros [<-|Hb]; [exact H1|now apply H2].
Qed.

(** X7.  With 48 or more landmark points and a non-negative intensity the
    eye-bar effect never throws and draws exactly one rectangle, and that
    rectangle covers every one of the twelve eye points (positions 36 to 47). *)
Theorem eye_bar_covers_the_eyes {RA : Rasteriser} (g : Gfx.t) (ctx src : Ref)
  (box : Box.t) (intensity : Q) (landmarks : Landmarks) (positions : list Point.t) :
  positions_at_least 48 landmarks = Some positions ->
  0 <= intensity ->
  exists g' bar,
    applyBlackBarEyes ctx src box intensity landmarks g = Returned tt g' /\
    Canvas.log (Gfx.cells g' ctx) = Canvas.log (Gfx.cells g ctx) ++ [bar] /\
    forall p, In p (slice 36 42 positions ++ slice 42 48 positions) -> bar_covers bar p.
Proof.
  intros Hlm Hi. unfold applyBlackBarEyes. rewrite Hlm. unfold_methods.
  eexists. eexists. split; [exec; reflexivity|].
  simp_state. split; [reflexivity|].
  intros p Hp. unfold bar_covers, thicknessMultiplier.
  set (pts := slice 36 42 positions ++ slice 42 48 positions) in *.
  pose proof (@min_of_le (map Point.x pts) _ (in_map Point.x pts p Hp)) as Hx0.
  pose proof (@max_of_ge (map Point.x pts) _ (in_map Point.x pts p Hp)) as Hx1.
  pose proof (@min_of_le (map Point.y pts) _ (in_map Point.y pts p Hp)) as Hy0.
  pose proof (@max_of_ge (map Point.y pts) _ (in_map Point.y pts p Hp)) as Hy1.
  set (minX := min_of (map Point.x pts)) in *. set (maxX := max_of (map Point.x pts)) in *.
  set (minY := min_of (map Point.y pts)) in *. set (maxY := max_of (map Point.y pts)) in *.
  set (px := Point.x p) in *. set (py := Point.y p) in *.
  clearbody minX maxX minY maxY px py.
  set (t := 0.5 + intensity / 100 * 1.5).
  assert (Ht : 0.5 <= t).
  { unfold t. assert (Hd : intensity / 100 == intensity * (1 # 100)) by field.
    rewrite Hd. lra. }
  clearbody t.
  set (m := Math.max ((maxY - minY) * 2.5) (Box.height box * 0.14)).
  assert (Hm : (maxY - minY) * 2.5 <= m) by (unfold m, Math.max; apply Qmax_ge_l).
  clearbody m.
  assert (Hmt : (maxY - minY) * 2.5 * 0.5 <= m * t).
  { assert (0 <= (m - (maxY - minY) * 2.5) * t) by (apply Qmult_le_0_compat; lra).
    assert (0 <= (maxY - minY) * 2.5 * (t - 0.5)) by (apply Qmult_le_0_compat; lra).
    lra. }
  set (bh := m * t) in *. clearbody bh.
  assert (Hh2 : bh / 2 == bh * (1 # 2)) by field.
  assert (Hc : (minY + maxY) / 2 == (minY + maxY) * (1 # 2)) by field.
  rewrite Hh2, Hc. repeat split; lra.
Qed.

Lemma eye_bar_covers_the_eyes_witness :
  exists g' bar,
    applyBlackBarEyes 0%nat 0%nat (Box.mk 0 0 70 70) 60 (Some sixty_eight_points)
                      (Example.gfx_with Example.row4 (Example.draws [] 0))
    = Returned tt g' /\
    Canvas.log (Gfx.cells g' 0%nat) =
      Canvas.log (Gfx.cells (Example.gfx_with Example.row4 (Example.draws [] 0)) 0%nat)
      ++ [bar] /\
    forall p, In p (slice 36 42 sixty_eight_points ++ slice 42 48 sixty_eight_points) ->
              bar_covers bar p.
Proof.
  apply (@eye_bar_covers_the_eyes reference_rasteriser
           (Example.gfx_with Example.row4 (Example.draws [] 0)) 0%nat 0%nat
           (Box.mk 0 0 70 70) 60 (Some sixty_eight_points) sixty_eight_points).
  - reflexivity.
  - vm_compute. discriminate.
Defined.

(** ** Effects that return *)

Lemma returns_ret {S A} (a : A) : returns (@ret S A a).
Proof. intros s. now exists a, s. Qed.

Lemma returns_gets {S A} (f : S -> A) : returns (gets f).
Proof. intros s. now exists (f s), s. Qed.

Lemma returns_modify {S} (f : S -> S) : returns (modify f).
Proof. intros s. now exists tt, (f s). Qed.

Lemma returns_bind {S A B} (m : SE S A) (k : A -> SE S B) :
  returns m -> (forall a, returns (k a)) -> returns (bind m k).
Proof.
  intros Hm Hk s. destruct (Hm s) as (a & s1 & E). unfold bind. rewrite E. apply Hk.
Qed.

Lemma returns_forM_ {S A} (l : list A) (body : A -> SE S unit) :
  (forall a, returns (body a)) -> returns (forM_ l body).
Proof.
  intros Hb. induction l as [|a l IH]; simpl; [apply returns_ret|].
  apply returns_bind; [apply Hb|intros _; exact IH].
Qed.

Lemma returns_foldM {S A B} (body : B -> A -> SE S B) (l : list A) :
  (forall b a, returns (body b a)) -> forall b, returns (foldM body l b).
Proof.
  intros Hb. induction l as [|a l IH]; intros b; simpl; [apply returns_ret|].
  apply returns_bind; [apply Hb|exact IH].
Qed.

Lemma returns_random : returns random.
Proof. intros g. eexists. eexists. reflexivity. Qed.

Lemma returns_create {RA : Rasteriser} : returns createElement_canvas.
Proof. intros g. eexists. eexists. reflexivity. Qed.

Ltac returns_step :=
  match goal with
  | |- returns (ret _) => apply returns_ret
  | |- returns (gets _) => apply returns_gets
  | |- returns (modify _) => apply returns_modify
  | |- returns random => apply returns_random
  | |- returns createElement_canvas => apply returns_create
  | |- returns (forM_ _ _) => apply returns_forM_; intros ?
  | |- returns (foldM _ _ _) => apply returns_foldM; intros ? ?
  | |- returns (bind _ _) => apply returns_bind; [ | intros ? ]
  | |- returns (if ?c then throw _ else _) =>
      let E := fresh "Hthrow" in destruct c eqn:E; [exfalso|]
  | |- returns (if ?c then _ else _) => destruct c eqn:?
  | |- returns (match ?x with _ => _ end) => destruct x eqn:?
  end.

Ltac returns_auto :=
  cbv zeta; unfold_to_updates; unfold update_canvas, lookup; repeat returns_step.


Section Returns.

Context {RA : Rasteriser} {ML : MathLib}.
Variables (ctx src : Ref) (box : Box.t) (intensity : Q).

Lemma returns_applyBlackBarEyes landmarks :
  returns (applyBlackBarEyes ctx src box intensity landmarks).
Proof. unfold applyBlackBarEyes. returns_auto. Qed.

Lemma returns_applyEmoji landmarks emoji :
  returns (applyEmoji ctx src box intensity landmarks emoji).
Proof. unfold applyEmoji. returns_auto. Qed.

Lemma returns_applyRedact : returns (applyRedact ctx src box intensity).
Proof. unfold applyRedact. returns_auto. Qed.

Lemma nonzero_sizes (w h : Z) :
  (w <=? 0)%Z || (h <=? 0)%Z = false -> (w =? 0)%Z || (h =? 0)%Z = true -> False.
Proof.
  intros H1 H2. apply orb_false_elim in H1. destruct H1 as [Hw Hh].
  apply Z.leb_gt in Hw. apply Z.leb_gt in Hh.
  apply orb_true_iff in H2. destruct H2 as [H|H]; apply Z.eqb_eq in H; lia.
Qed.

Lemma returns_applyGlitch : returns (applyGlitch ctx src box intensity).
Proof.
  unfold applyGlitch. returns_auto.
  eapply nonzero_sizes; eassumption.
Qed.

Lemma returns_applySwirl : returns (applySwirl ctx src box intensity).
Proof.
  unfold applySwirl. returns_auto.
  all: eapply nonzero_sizes; eassumption.
Qed.

End Returns.

Lemma slice_nonempty {A} (from to : nat) (l : list A) :
  (from < to)%nat -> (from < List.length l)%nat -> slice from to l <> [].
Proof.
  intros Hft Hl. unfold slice. intros H.
  apply (f_equal (@List.length A)) in H. rewrite length_firstn, length_skipn in H.
  simpl in H. lia.
Qed.




Section ReturnsMore.

Context {RA : Rasteriser} {ML : MathLib}.
Variables (ctx src : Ref) (box : Box.t) (intensity : Q).
Hypothesis Hw : 0 <= Box.width box.
Hypothesis Hh : 0 <= Box.height box.







End ReturnsMore.

(** Eye bar, emoji, glitch, swirl and redact never throw, whatever the
    face box (of negative size, or outside the canvas), the intensity, the
    landmarks and the options. *)
Theorem robust_effects_return {RA : Rasteriser} {ML : MathLib}
  (g : Gfx.t) (ctx src : Ref) (box : Box.t) (effectId : string) (intensity : Q)
  (landmarks : Landmarks) (options : Options.t) :
  In effectId ["black-bar-eyes"; "emoji"; "glitch"; "swirl"; "redact"]%string ->
  exists g', applyEffect ctx src box effectId intensity landmarks options g
             = Returned tt g'.
Proof.
  intros Hid.
  assert (H : returns (applyEffect ctx src box effectId intensity landmarks options)).
  { simpl in Hid.
    destruct Hid as [<-|[<-|[<-|[<-|[<-|[]]]]]]; unfold applyEffect; decide_ids.
    - apply returns_applyBlackBarEyes.
    - apply returns_applyEmoji.
    - apply returns_applyGlitch.
    - apply returns_applySwirl.
    - apply returns_applyRedact. }
  destruct (H g) as ([] & g' & E). now exists g'.
Qed.

Lemma robust_effects_return_witness :
  exists g', applyEffect 0%nat 0%nat (Box.mk (-3) 0 (-2) 1) "glitch" 100 None
               (Options.mk None None)
               (Example.gfx_with Example.row4 (Example.draws [] 0))
             = Returned tt g'.
Proof.
  apply (@robust_effects_return reference_rasteriser reference_math).
  simpl. right. right. left. reflexivity.
Defined.



(** X9.  With 17 to 22 landmark points the silhouette effect runs out of brow
    points and throws a [TypeError], after it has begun a path and before it
    has painted anything: the pixels of the destination are as they were. *)
Theorem silhouette_throws_on_short_landmarks {RA : Rasteriser} {ML : MathLib}
  (g : Gfx.t) (ctx src : Ref) (box : Box.t) (intensity : Q)
  (positions : list Point.t) :
  (17 <= List.length positions <= 22)%nat ->
  exists g',
    applySilhouette ctx src box intensity (Some positions) g = Thrown TypeError g' /\
    Canvas.bitmap (Gfx.cells g' ctx) = Canvas.bitmap (Gfx.cells g ctx).
Proof.
  intros [H17 H22]. unfold applySilhouette, positions_at_least.
  destruct (Nat.leb_spec 17 (List.length positions)) as [_|]; [|lia].
  pose proof (@slice_nonempty _ 0 17 positions ltac:(lia) ltac:(lia)) as Hjaw.
  assert (Hright : slice 22 27 positions = []).
  { unfold slice. rewrite skipn_all2 by lia. reflexivity. }
  cbv zeta. rewrite Hright. cbn [map last].
  destruct (slice 0 17 positions) as [|jaw0 jaw] eqn:Ej; [congruence|].
  unfold beginPath, moveTo, set_path, update_canvas.
  rewrite run_bind_modify, run_bind_modify.
  assert (Hlines : forall l g0, exists g1,
             forM_ l (fun p : Point.t => lineTo ctx (Point.x p) (Point.y p)) g0
             = Returned tt g1 /\
             Canvas.bitmap (Gfx.cells g1 ctx) = Canvas.bitmap (Gfx.cells g0 ctx)).
  { induction l as [|p l IH]; intros g0.
    - exists g0. split; reflexivity.
    - simpl. unfold lineTo at 1, set_path, update_canvas. rewrite run_bind_modify.
      destruct (IH (Gfx.mk (upd (Gfx.cells g0) ctx
                     (Canvas.mk (Canvas.bitmap (Gfx.cells g0 ctx))
                        (Canvas.ctx (Gfx.cells g0 ctx)) (Canvas.saved (Gfx.cells g0 ctx))
                        (Canvas.path (Gfx.cells g0 ctx) ++ [LineTo (Point.x p) (Point.y p)])
                        (Canvas.log (Gfx.cells g0 ctx))))
                     (Gfx.size g0) (Gfx.rng g0))) as (g1 & E & Hb).
      exists g1. split; [exact E|]. rewrite Hb. simp_state. reflexivity. }
  match goal with
  | |- exists g', bind (forM_ ?l _) _ ?g0 = _ /\ _ =>
      destruct (Hlines l g0) as (g1 & E & Hb)
  end.
  exists g1. unfold bind at 1. rewrite E. split; [reflexivity|].
  rewrite Hb. simp_state. reflexivity.
Qed.

Lemma silhouette_throws_on_short_landmarks_witness :
  exists g',
    applySilhouette 0%nat 0%nat (Box.mk 0 0 2 1) 80 (Some (firstn 20 sixty_eight_points))
                    (Example.gfx_with Example.row4 (Example.draws [] 0))
    = Thrown TypeError g' /\
    Canvas.bitmap (Gfx.cells g' 0%nat) =
    Canvas.bitmap (Gfx.cells (Example.gfx_with Example.row4 (Example.draws [] 0)) 0%nat).
Proof.
  apply (@silhouette_throws_on_short_landmarks reference_rasteriser reference_math).
  vm_compute. split; lia.
Defined.

(** ** What an effect leaves alone *)

(** X10.  An effect draws on its destination and on scratch canvases of its
    own: every other canvas that exists, the source among them when it is
    not the destination, is left exactly as it was (pixels, drawing state and
    path), whatever the effect and whether it returns or throws. *)
Theorem applyEffect_touches_only_destination {RA : Rasteriser} {ML : MathLib}
  (g : Gfx.t) (ctx src : Ref) (box : Box.t) (effectId : string) (intensity : Q)
  (landmarks : Landmarks) (options : Options.t) (r : Ref) :
  (r < Gfx.size g)%nat -> r <> ctx ->
  Gfx.cells (final (applyEffect ctx src box effectId intensity landmarks options g)) r
  = Gfx.cells g r.
Proof.
  intros Hr Hne.
  assert (H : frames (Gfx.size g) ctx
                (applyEffect ctx src box effectId intensity landmarks options))
    by (apply frames_applyEffect; now right).
  destruct (H g (le_n _)) as [_ Hc]. now apply Hc.
Qed.

Lemma applyEffect_touches_only_destination_witness :
  Gfx.cells (final (applyEffect 1%nat 0%nat (Box.mk 0 0 4 1) "pixelate" 50 None
                      (Options.mk None None)
                      (Gfx.mk (fun _ => Example.canvas_of Example.row4) 2
                              (Example.draws [] 0)))) 0%nat
  = Gfx.cells (Gfx.mk (fun _ => Example.canvas_of Example.row4) 2
                      (Example.draws [] 0)) 0%nat.
Proof.
  apply (@applyEffect_touches_only_destination reference_rasteriser reference_math).
  - vm_compute. lia.
  - discriminate.
Defined.

(** ** Canvas sizes *)

Lemma steady_ret (n : nat) {A} (a : A) : steady n (ret a).
Proof. intros g Hn. simpl. split; [lia|intros; split; reflexivity]. Qed.

Lemma steady_throw (n : nat) {A} (e : JsError) : steady n (@throw Gfx.t A e).
Proof. intros g Hn. simpl. split; [lia|intros; split; reflexivity]. Qed.

Lemma steady_lookup {RA : Rasteriser} (n : nat) (r : Ref) : steady n (lookup r).
Proof. intros g Hn. simpl. split; [lia|intros; split; reflexivity]. Qed.

Lemma steady_random (n : nat) : steady n random.
Proof. intros g Hn. simpl. split; [lia|intros; split; reflexivity]. Qed.

Lemma steady_update_canvas {RA : Rasteriser} (n : nat) (a : Ref)
  (f : Canvas.t -> Canvas.t) :
  (n <= a)%nat \/
  (forall c, Canvas.width (f c) = Canvas.width c /\
             Canvas.height (f c) = Canvas.height c) ->
  steady n (update_canvas a f).
Proof.
  intros Ha g Hn. simpl. split; [lia|]. intros r Hr.
  destruct (Nat.eq_dec r a) as [->|Hne].
  - rewrite upd_same. destruct Ha as [Ha|Ha]; [lia|apply Ha].
  - rewrite upd_other by exact Hne. split; reflexivity.
Qed.

Lemma steady_bind (n : nat) {A B} (m : G A) (k : A -> G B) :
  steady n m -> (forall a, steady n (k a)) -> steady n (bind m k).
Proof.
  intros Hm Hk g Hn. specialize (Hm g Hn). unfold bind.
  destruct (m g) as [a g1|e g1]; simpl in Hm; [|exact Hm].
  destruct Hm as [Hs Hc].
  destruct (Hk a g1) as [Hs' Hc']; [lia|].
  split; [lia|]. intros r Hr. destruct (Hc' r Hr) as [-> ->]. now apply Hc.
Qed.

Lemma steady_create {RA : Rasteriser} (n : nat) {B} (k : Ref -> G B) :
  (forall a, (n <= a)%nat -> steady n (k a)) -> steady n (bind createElement_canvas k).
Proof.
  intros Hk g Hn. rewrite run_bind_create.
  destruct (Hk (Gfx.size g) Hn
               (Gfx.mk (upd (Gfx.cells g) (Gfx.size g) (fresh_canvas 300 150))
                       (S (Gfx.size g)) (Gfx.rng g))) as [Hs Hc];
    [simpl; lia|].
  simpl in Hs. split; [lia|].
  intros r Hr. destruct (Hc r Hr) as [-> ->]. simpl.
  rewrite upd_other by lia. split; reflexivity.
Qed.

Lemma steady_forM_ (n : nat) {A} (l : list A) (body : A -> G unit) :
  (forall a, steady n (body a)) -> steady n (forM_ l body).
Proof.
  intros Hb. induction l as [|a l IH]; simpl.
  - apply steady_ret.
  - apply steady_bind; [apply Hb|intros _; exact IH].
Qed.

Lemma steady_foldM (n : nat) {A B} (body : B -> A -> G B) (l : list A) (b : B) :
  (forall b a, steady n (body b a)) -> steady n (foldM body l b).
Proof.
  intros Hb. revert b. induction l as [|a l IH]; intros b; simpl.
  - apply steady_ret.
  - apply steady_bind; [apply Hb|intros b'; apply IH].
Qed.

Lemma steady_assoc (n : nat) {A B C} (m : G A) (f : A -> G B) (k : B -> G C) :
  steady n (bind m (fun a => bind (f a) k)) -> steady n (bind (bind m f) k).
Proof. intros H g Hn. rewrite run_bind_assoc. now apply H. Qed.

Lemma steady_bind_ret (n : nat) {A B} (a : A) (k : A -> G B) :
  steady n (k a) -> steady n (bind (ret a) k).
Proof. intros H g Hn. rewrite run_bind_ret. now apply H. Qed.

(** An update that resizes nothing. *)
Ltac same_size :=
  right; intros c; unfold Canvas.width, Canvas.height;
  try (destruct (Canvas.saved c));
  cbn [Canvas.bitmap]; rewrite ?render_width, ?render_height; split; reflexivity.

Ltac steady_step :=
  match goal with
  | |- steady _ (ret _) => apply steady_ret
  | |- steady _ (throw _) => apply steady_throw
  | |- steady _ (lookup _) => apply steady_lookup
  | |- steady _ random => apply steady_random
  | |- steady _ (update_canvas _ _) =>
      apply steady_update_canvas; first [ left; assumption | same_size ]
  | |- steady _ (bind (bind _ _) _) => apply steady_assoc
  | |- steady _ (bind (ret _) _) => apply steady_bind_ret
  | |- steady _ (bind createElement_canvas _) => apply steady_create; intros ? ?
  | |- steady _ (forM_ _ _) => apply steady_forM_; intros ?
  | |- steady _ (foldM _ _ _) => apply steady_foldM; intros ? ?
  | |- steady _ (bind _ _) => apply steady_bind; [ | intros ? ]
  | |- steady _ (if ?c then _ else _) => destruct c
  | |- steady _ (match ?x with _ => _ end) => destruct x
  end.

Ltac steady_auto := cbv zeta; unfold_to_updates; repeat steady_step.

Section Steady.

Context {RA : Rasteriser} {ML : MathLib}.
Variables (n : nat) (ctx : Ref).

Lemma steady_applyPixelate src box intensity :
  steady n (applyPixelate ctx src box intensity).
Proof. unfold applyPixelate. steady_auto. Qed.

Lemma steady_applyBlur src box intensity : steady n (applyBlur ctx src box intensity).
Proof. unfold applyBlur, applyPixelate. steady_auto. Qed.

Lemma steady_applyBlackBarEyes src box intensity landmarks :
  steady n (applyBlackBarEyes ctx src box intensity landmarks).
Proof. unfold applyBlackBarEyes. steady_auto. Qed.

Lemma steady_applyBlackout src box intensity :
  steady n (applyBlackout ctx src box intensity).
Proof. unfold applyBlackout. steady_auto. Qed.

Lemma steady_applyEmoji src box intensity landmarks emoji :
  steady n (applyEmoji ctx src box intensity landmarks emoji).
Proof. unfold applyEmoji. steady_auto. Qed.

Lemma steady_applySolidColor src box intensity landmarks color :
  steady n (applySolidColor ctx src box intensity landmarks color).
Proof. unfold applySolidColor. steady_auto. Qed.

Lemma steady_applyGlitch src box intensity :
  steady n (applyGlitch ctx src box intensity).
Proof. unfold applyGlitch. steady_auto. Qed.

Lemma steady_applySwirl src box intensity : steady n (applySwirl ctx src box intensity).
Proof. unfold applySwirl. steady_auto. Qed.

Lemma steady_applySilhouette src box intensity landmarks :
  steady n (applySilhouette ctx src box intensity landmarks).
Proof. unfold applySilhouette. steady_auto. Qed.

Lemma steady_applyRedact src box intensity :
  steady n (applyRedact ctx src box intensity).
Proof. unfold applyRedact. steady_auto. Qed.

Lemma steady_applyEffect src box effectId intensity landmarks options :
  steady n (applyEffect ctx src box effectId intensity landmarks options).
Proof.
  unfold applyEffect.
  repeat match goal with
         | |- steady _ (if ?c then _ else _) => destruct c
         end;
    auto using steady_applyBlur, steady_applyPixelate, steady_applyBlackBarEyes,
      steady_applyBlackout, steady_applyEmoji, steady_applySolidColor,
      steady_applyGlitch, steady_applySwirl, steady_applySilhouette,
      steady_applyRedact.
Qed.

End Steady.

(** The clone has the size of its source. *)
Lemma cloneCanvas_size {RA : Rasteriser} (source : Ref) (g : Gfx.t) :
  (source < Gfx.size g)%nat ->
  exists g1,
    cloneCanvas source g = Returned (Gfx.size g) g1 /\
    Gfx.size g1 = S (Gfx.size g) /\
    Canvas.width (Gfx.cells g1 (Gfx.size g)) = Canvas.width (Gfx.cells g source) /\
    Canvas.height (Gfx.cells g1 (Gfx.size g)) = Canvas.height (Gfx.cells g source).
Proof.
  intros Hs. unfold cloneCanvas. unfold_methods. eexists.
  split; [exec; reflexivity|]. simp_state. repeat split; reflexivity.
Qed.

(** X11.  The canvas [processImage] returns has the width and the height of
    the input canvas, whatever the faces and the effects applied to them:
    the output is at full resolution. *)
Theorem processImage_keeps_dimensions {RA : Rasteriser} {ML : MathLib}
  (g : Gfx.t) (fullCanvas : Ref) (faces : list Face.t)
  (globalEffectId : string) (globalIntensity : Q) (globalOptions : Options.t) :
  (fullCanvas < Gfx.size g)%nat ->
  match processImage fullCanvas faces globalEffectId globalIntensity globalOptions g
  with
  | Returned processed g' =>
      Canvas.width (Gfx.cells g' processed) = Canvas.width (Gfx.cells g fullCanvas) /\
      Canvas.height (Gfx.cells g' processed) = Canvas.height (Gfx.cells g fullCanvas)
  | Thrown _ _ => True
  end.
Proof.
  intros Hs.
  destruct (@cloneCanvas_size RA fullCanvas g Hs) as (g1 & Hc & Hz & Hcw & Hch).
  rewrite (processImage_after_clone faces globalEffectId globalIntensity globalOptions Hc).
  assert (Hst : steady (Gfx.size g1)
                  (forM_ faces (render_face (Gfx.size g) fullCanvas globalEffectId
                                            globalIntensity globalOptions)))
    by (apply steady_forM_; intros face; unfold render_face; apply steady_applyEffect).
  destruct (Hst g1 (le_n _)) as [_ Hd].
  destruct (forM_ _ _ g1) as [[] g2|e g2]; [|exact I].
  simpl in Hd. destruct (Hd (Gfx.size g) ltac:(lia)) as [-> ->]. now split.
Qed.

Lemma processImage_keeps_dimensions_witness :
  match processImage 0%nat [Example.detected "face-0" (Box.mk 0 0 4 1)] "pixelate" 50
          (Options.mk None None) (Example.gfx_with Example.row4 (Example.draws [] 0))
  with
  | Returned processed g' =>
      Canvas.width (Gfx.cells g' processed) =
        Canvas.width (Gfx.cells (Example.gfx_with Example.row4 (Example.draws [] 0)) 0%nat) /\
      Canvas.height (Gfx.cells g' processed) =
        Canvas.height (Gfx.cells (Example.gfx_with Example.row4 (Example.draws [] 0)) 0%nat)
  | Thrown _ _ => True
  end.
Proof.
  apply (@processImage_keeps_dimensions reference_rasteriser reference_math
           (Example.gfx_with Example.row4 (Example.draws [] 0)) 0%nat
           [Example.detected "face-0" (Box.mk 0 0 4 1)] "pixelate" 50
           (Options.mk None None)).
  vm_compute. lia.
Defined.

(** * Further properties of the controller *)

(** ** Eviction twice *)

(** X12.  Eviction is idempotent: a second run of [evictCanvases] right after
    the first changes nothing. *)
Theorem evictCanvases_idempotent (w : World.t) :
  dispatch evictCanvases (dispatch evictCanvases w) = dispatch evictCanvases w.
Proof.
  destruct (evictCanvases_photos w) as [Ha Hp]. cbv zeta in Ha, Hp.
  set (w1 := dispatch evictCanvases w) in *.
  unfold dispatch at 1. unfold evictCanvases, modify_app. rewrite run_modify.
  cbn [final].
  change (fun ip : nat * Photo.t =>
            is_loaded (snd ip) &&
            negb (same_id (Photo.id (snd ip)) (State.activePhotoId (World.app w1))))
    with (fun ip : nat * Photo.t =>
            inactive_loaded (State.activePhotoId (World.app w1)) (snd ip)).
  rewrite (length_filter_indexed (inactive_loaded (State.activePhotoId (World.app w1)))
             (State.photos (World.app w1)) 0).
  rewrite Ha, Hp, evict_first_inactive.
  change (Nat.max 0 (MAX_LOADED_CANVASES - 1)) with (MAX_LOADED_CANVASES - 1)%nat.
  destruct (Nat.ltb_spec (MAX_LOADED_CANVASES - 1)
              (List.length
                 (List.filter (inactive_loaded (State.activePhotoId (World.app w)))
                    (State.photos (World.app w))) -
               (List.length
                  (List.filter (inactive_loaded (State.activePhotoId (World.app w)))
                     (State.photos (World.app w))) - (MAX_LOADED_CANVASES - 1))))
    as [Hlt|_]; [unfold MAX_LOADED_CANVASES in Hlt; lia|].
  destruct w1 as [g a q u c]. reflexivity.
Qed.

(** ** Undo, redo and new edits *)

Section HistoryMore.

Context {RA : Rasteriser} {ML : MathLib} {CO : Collaborators}.

Lemma handleUndo_empty (w : World.t) (i : nat) :
  active_index (World.app w) = Some i ->
  Photo.undoStack (photo w i) = [] ->
  dispatch handleUndo w = w.
Proof.
  intros Ha Hu. unfold dispatch, handleUndo. rewrite (run_bind_getActivePhoto _ _ Ha).
  unfold photo_at at 1. rewrite run_bind_gets. fold (photo w i). rewrite Hu.
  reflexivity.
Qed.

Lemma handleRedo_empty (w : World.t) (i : nat) :
  active_index (World.app w) = Some i ->
  Photo.redoStack (photo w i) = [] ->
  dispatch handleRedo w = w.
Proof.
  intros Ha Hu. unfold dispatch, handleRedo. rewrite (run_bind_getActivePhoto _ _ Ha).
  unfold photo_at at 1. rewrite run_bind_gets. fold (photo w i). rewrite Hu.
  reflexivity.
Qed.

End HistoryMore.

(** X13.  A new edit discards the redo history: right after an add, move,
    resize or remove that finds something to change, redo does nothing at
    all. *)
Theorem redo_after_edit_does_nothing
  {RA : Rasteriser} {ML : MathLib} {CO : Collaborators}
  (w : World.t) (i : nat) (op : Mutation) :
  active_index (World.app w) = Some i ->
  mutates op (photo w i) = true ->
  dispatch handleRedo (dispatch (perform op) w) = dispatch (perform op) w.
Proof.
  intros Ha Hm. destruct (perform_pushes op w Ha Hm) as (Ha' & _ & Hr).
  now apply handleRedo_empty with i.
Qed.

Lemma redo_after_edit_does_nothing_witness :
  dispatch handleRedo
    (dispatch (perform (Move "face-0" (Box.mk 1 0 2 1)))
              (@Session.one_face reference_rasteriser))
  = dispatch (perform (Move "face-0" (Box.mk 1 0 2 1)))
             (@Session.one_face reference_rasteriser).
Proof.
  apply (@redo_after_edit_does_nothing reference_rasteriser reference_math
           reference_collaborators Session.one_face 0%nat
           (Move "face-0" (Box.mk 1 0 2 1))); reflexivity.
Defined.

(** X14.  Undo after redo is the identity on the history of the active photo:
    face list, selection, undo stack and redo stack are as before the
    redo. *)
Theorem undo_after_redo {RA : Rasteriser} {ML : MathLib} {CO : Collaborators}
  (w : World.t) (i : nat) :
  active_index (World.app w) = Some i ->
  Photo.redoStack (photo w i) <> [] ->
  history (photo (dispatch handleUndo (dispatch handleRedo w)) i) = history (photo w i).
Proof.
  intros Ha Hne.
  destruct (@exists_last _ (Photo.redoStack (photo w i)) Hne) as (st & s & Hr).
  destruct (@handleRedo_pops RA ML w i st s Ha Hr) as [Ha' Hh].
  unfold history in Hh. injection Hh as Hf Hs Hu Hr'.
  destruct (@handleUndo_pops RA ML _ i _ _ Ha' Hu) as [_ Hh'].
  rewrite Hh'. unfold history, current_snapshot.
  cbn [Snapshot.faces Snapshot.selectedFaceId].
  rewrite Hr', Hf, Hs, Hr, !map_copy_face. destruct s. reflexivity.
Qed.

Lemma undo_after_redo_witness :
  history (photo (dispatch handleUndo
                    (dispatch handleRedo
                       (dispatch handleUndo
                          (dispatch (perform (Move "face-0" (Box.mk 1 0 2 1)))
                                    (@Session.one_face reference_rasteriser))))) 0)
  = history (photo (dispatch handleUndo
                      (dispatch (perform (Move "face-0" (Box.mk 1 0 2 1)))
                                (@Session.one_face reference_rasteriser))) 0).
Proof.
  apply (@undo_after_redo reference_rasteriser reference_math reference_collaborators
           (dispatch handleUndo
              (dispatch (perform (Move "face-0" (Box.mk 1 0 2 1)))
                        (@Session.one_face reference_rasteriser))) 0%nat).
  - vm_compute. reflexivity.
  - vm_compute. discriminate.
Defined.

(** ** The history stays bounded *)

Section Bounded.

Context {RA : Rasteriser} {ML : MathLib} {CO : Collaborators}.

(** An operation that finds nothing to change leaves both stacks alone. *)
Lemma perform_idle (op : Mutation) (w : World.t) (i : nat) :
  active_index (World.app w) = Some i ->
  mutates op (photo w i) = false ->
  active_index (World.app (dispatch (perform op) w)) = Some i /\
  Photo.faces (photo (dispatch (perform op) w) i) = Photo.faces (photo w i) /\
  Photo.undoStack (photo (dispatch (perform op) w) i) = Photo.undoStack (photo w i) /\
  Photo.redoStack (photo (dispatch (perform op) w) i) = Photo.redoStack (photo w i).
Proof.
  intros Ha Hm. pose proof (active_index_bound _ Ha) as Hi.
  assert (Hsel : forall v,
             documents (final ((modify_photo i (Photo.set_selectedFaceId v) ;;
                                show_photo i ;; updatePreview) w))
             = documents (with_photo i (Photo.set_selectedFaceId v) w)).
  { intros v. unfold modify_photo, modify_app. rewrite run_bind_modify.
    apply quiet_show_and_preview with i.
    change (active_index (World.app (with_photo i (Photo.set_selectedFaceId v) w))
            = Some i).
    now rewrite active_index_with_photo. }
  assert (Hdoc : forall v w',
             documents w' = documents (with_photo i (Photo.set_selectedFaceId v) w) ->
             active_index (World.app w') = Some i /\
             Photo.faces (photo w' i) = Photo.faces (photo w i) /\
             Photo.undoStack (photo w' i) = Photo.undoStack (photo w i) /\
             Photo.redoStack (photo w' i) = Photo.redoStack (photo w i)).
  { intros v w' Hd. split.
    - rewrite (active_index_documents Hd). now rewrite active_index_with_photo.
    - pose proof (history_documents i Hd) as Hh.
      rewrite photo_with_photo in Hh by exact Hi.
      unfold history in Hh. injection Hh as -> _ -> ->. repeat split. }
  assert (Hres : dispatch (perform op) w = w \/
                 exists v, documents (dispatch (perform op) w)
                           = documents (with_photo i (Photo.set_selectedFaceId v) w)).
  { unfold dispatch.
    destruct op as [box|x y|faceId newBox|faceId newBox|]; cbn [mutates perform] in Hm |- *.
    - left. unfold handleFaceDrawn. rewrite (run_bind_getActivePhoto _ _ Ha).
      unfold photo_at at 1. rewrite run_bind_gets. fold (photo w i). rewrite Hm.
      reflexivity.
    - destruct (is_loaded (photo w i)) eqn:Hl; cbn [andb] in Hm.
      + destruct (find (fun f => box_contains (Face.box f) x y)
                       (Photo.faces (photo w i))) as [f|] eqn:Hfind.
        * right. exists (Some (Face.id f)).
          unfold handleCanvasClick. rewrite (run_bind_getActivePhoto _ _ Ha).
          unfold photo_at at 1. rewrite run_bind_gets. fold (photo w i).
          rewrite Hl, Hfind. cbn [negb]. apply Hsel.
        * apply negb_false_iff in Hm. right. exists None.
          unfold handleCanvasClick. rewrite (run_bind_getActivePhoto _ _ Ha).
          unfold photo_at at 1. rewrite run_bind_gets. fold (photo w i).
          rewrite Hl, Hfind, Hm. cbn [negb]. apply Hsel.
      + left. unfold handleCanvasClick. rewrite (run_bind_getActivePhoto _ _ Ha).
        unfold photo_at at 1. rewrite run_bind_gets. fold (photo w i). rewrite Hl.
        reflexivity.
    - left. destruct (findIndex _ _) eqn:Hfind; [discriminate|].
      unfold handleFaceMoved. rewrite (run_bind_getActivePhoto _ _ Ha).
      unfold photo_at at 1. rewrite run_bind_gets. fold (photo w i). rewrite Hfind.
      reflexivity.
    - left. destruct (findIndex _ _) eqn:Hfind; [discriminate|].
      unfold handleFaceResized. rewrite (run_bind_getActivePhoto _ _ Ha).
      unfold photo_at at 1. rewrite run_bind_gets. fold (photo w i). rewrite Hfind.
      reflexivity.
    - left. unfold handleFaceRemoved. rewrite (run_bind_getActivePhoto _ _ Ha).
      unfold photo_at at 1. rewrite run_bind_gets. fold (photo w i).
      destruct (truthy (Photo.selectedFaceId (photo w i))); cbn [negb andb] in Hm |- *;
        [|reflexivity].
      destruct (findIndex _ _) eqn:Hfind; [discriminate|]. reflexivity. }
  destruct Hres as [->|[v Hd]]; [now repeat split|now apply (Hdoc v)].
Qed.

Lemma push_snapshot_bounded (p : Photo.t) :
  (List.length (Photo.undoStack p) <= MAX_UNDO)%nat ->
  (List.length (Photo.undoStack (push_snapshot p)) <= MAX_UNDO)%nat.
Proof.
  intros H. unfold push_snapshot. cbv zeta.
  cbn [Photo.undoStack Photo.set_redoStack Photo.set_undoStack].
  destruct (Nat.ltb_spec MAX_UNDO
              (List.length (Photo.undoStack p ++ [current_snapshot p]))) as [Hlt|Hge];
    [|exact Hge].
  destruct (Photo.undoStack p) as [|a l]; cbn [app tl List.length] in *.
  - unfold MAX_UNDO in Hlt. lia.
  - rewrite length_app in *. cbn [List.length] in *. lia.
Qed.

Lemma handle_bounded (e : HistoryEvent) (w : World.t) (i : nat) :
  active_index (World.app w) = Some i ->
  (snapshots (photo w i) <= MAX_UNDO)%nat ->
  active_index (World.app (dispatch (handle e) w)) = Some i /\
  (snapshots (photo (dispatch (handle e) w) i) <= MAX_UNDO)%nat.
Proof.
  intros Ha Hb. unfold snapshots in *. destruct e as [op| |]; cbn [handle].
  - destruct (mutates op (photo w i)) eqn:Hm.
    + destruct (perform_pushes op w Ha Hm) as (Ha' & Hu & Hr).
      split; [exact Ha'|]. rewrite Hu, Hr. cbn [List.length].
      pose proof (push_snapshot_bounded (photo w i)). lia.
    + destruct (perform_idle op w Ha Hm) as (Ha' & _ & Hu & Hr).
      split; [exact Ha'|]. now rewrite Hu, Hr.
  - destruct (Photo.undoStack (photo w i)) as [|a l] eqn:Hu.
    + rewrite (handleUndo_empty w Ha Hu). split; [exact Ha|]. now rewrite Hu.
    + destruct (@exists_last _ (a :: l) ltac:(discriminate)) as (st & s & Hl).
      rewrite Hl in Hu. destruct (handleUndo_pops w st s Ha Hu) as [Ha' Hh].
      split; [exact Ha'|]. unfold history in Hh. injection Hh as _ _ -> ->.
      rewrite Hl in Hb. rewrite !length_app in *. simpl in *. lia.
  - destruct (Photo.redoStack (photo w i)) as [|a l] eqn:Hu.
    + rewrite (handleRedo_empty w Ha Hu). split; [exact Ha|]. now rewrite Hu.
    + destruct (@exists_last _ (a :: l) ltac:(discriminate)) as (st & s & Hl).
      rewrite Hl in Hu. destruct (handleRedo_pops w st s Ha Hu) as [Ha' Hh].
      split; [exact Ha'|]. unfold history in Hh. injection Hh as _ _ -> ->.
      rewrite Hl in Hb. rewrite !length_app in *. simpl in *. lia.
Qed.

End Bounded.

(** X15.  The history of the active photo stays bounded: if its undo and redo
    stacks together hold at most [MAX_UNDO] = 50 snapshots, they still do
    after any sequence of edits (effective or not), undos and redos. *)
Theorem history_stays_bounded {RA : Rasteriser} {ML : MathLib} {CO : Collaborators}
  (events : list HistoryEvent) (w : World.t) (i : nat) :
  active_index (World.app w) = Some i ->
  (snapshots (photo w i) <= MAX_UNDO)%nat ->
  (snapshots (photo (handle_all events w) i) <= MAX_UNDO)%nat.
Proof.
  revert w. induction events as [|e events IH]; intros w Ha Hb; [exact Hb|].
  destruct (handle_bounded e w Ha Hb) as [Ha' Hb'].
  unfold handle_all. simpl. now apply IH.
Qed.

Lemma history_stays_bounded_witness :
  (snapshots (photo (handle_all [Edit (Move "face-0" (Box.mk 1 0 2 1)); Undo; Redo;
                                 Edit Remove]
                                (@Session.one_face reference_rasteriser)) 0)
   <= MAX_UNDO)%nat.
Proof.
  apply (@history_stays_bounded reference_rasteriser reference_math
           reference_collaborators).
  - reflexivity.
  - vm_compute. lia.
Defined.

(** ** What the editing handlers change *)

Section Edits.

Context {RA : Rasteriser} {ML : MathLib} {CO : Collaborators}.

Lemma handleFaceResized_resizes (w : World.t) (i : nat) (faceId : option string)
  (newBox : Box.t) (face : nat) :
  active_index (World.app w) = Some i ->
  findIndex (fun f => same_id (Face.id f) faceId) (Photo.faces (photo w i)) = Some face ->
  documents (dispatch (handleFaceResized faceId newBox) w) =
  documents (with_photo i
               (fun p => Photo.set_faces (adjust face (set_box newBox) (Photo.faces p)) p)
               (with_photo i push_snapshot w)).
Proof.
  intros Ha Hfind.
  unfold dispatch, handleFaceResized. rewrite (run_bind_getActivePhoto _ _ Ha).
  unfold photo_at at 1. rewrite run_bind_gets. fold (photo w i). rewrite Hfind.
  rewrite (run_bind_pushUndo _ _ Ha).
  unfold modify_photo, modify_app. rewrite run_bind_modify.
  apply quiet_show_and_preview with i.
  change (active_index
            (World.app
               (with_photo i
                  (fun p => Photo.set_faces (adjust face (set_box newBox) (Photo.faces p)) p)
                  (with_photo i push_snapshot w))) = Some i).
  now rewrite !active_index_with_photo by reflexivity.
Qed.

Lemma handleFaceRemoved_removes (w : World.t) (i idx : nat) :
  active_index (World.app w) = Some i ->
  truthy (Photo.selectedFaceId (photo w i)) = true ->
  findIndex (fun f => same_id (Face.id f) (Photo.selectedFaceId (photo w i)))
            (Photo.faces (photo w i)) = Some idx ->
  documents (dispatch handleFaceRemoved w) =
  documents (with_photo i
               (fun p => Photo.set_selectedFaceId None
                           (Photo.set_faces (remove_at idx (Photo.faces p)) p))
               (with_photo i push_snapshot w)).
Proof.
  intros Ha Hsel Hfind.
  unfold dispatch, handleFaceRemoved. rewrite (run_bind_getActivePhoto _ _ Ha).
  unfold photo_at at 1. rewrite run_bind_gets. fold (photo w i). rewrite Hsel.
  cbn [negb]. rewrite Hfind.
  rewrite (run_bind_pushUndo _ _ Ha).
  unfold modify_photo, modify_app. rewrite run_bind_modify.
  apply quiet_show_and_preview with i.
  change (active_index
            (World.app
               (with_photo i
                  (fun p => Photo.set_selectedFaceId None
                              (Photo.set_faces (remove_at idx (Photo.faces p)) p))
                  (with_photo i push_snapshot w))) = Some i).
  now rewrite !active_index_with_photo by reflexivity.
Qed.

Lemma history_after (w w' : World.t) (i : nat) (change : Photo.t -> Photo.t) :
  active_index (World.app w) = Some i ->
  documents w' = documents (with_photo i change (with_photo i push_snapshot w)) ->
  history (photo w' i) = history (change (push_snapshot (photo w i))).
Proof.
  intros Ha Hd. pose proof (active_index_bound _ Ha) as Hi.
  rewrite (history_documents i Hd).
  rewrite photo_with_photo by (now rewrite length_with_photo).
  now rewrite photo_with_photo.
Qed.

End Edits.

(** X16.  Moving or resizing a face that exists replaces the box of that one
    face and nothing else: the other faces, the order and the ids of the
    list, and the target's score, landmarks, manual flag and own effect
    settings are as before, and so is the selection. *)
Theorem move_and_resize_replace_one_box
  {RA : Rasteriser} {ML : MathLib} {CO : Collaborators}
  (w : World.t) (i face : nat) (op : Mutation) (faceId : string) (newBox : Box.t) :
  active_index (World.app w) = Some i ->
  op = Move faceId newBox \/ op = Resize faceId newBox ->
  findIndex (fun f => same_id (Face.id f) (Some faceId)) (Photo.faces (photo w i))
    = Some face ->
  let before := Photo.faces (photo w i) in
  let after := Photo.faces (photo (dispatch (perform op) w) i) in
  after = adjust face (set_box newBox) before /\
  map Face.id after = map Face.id before /\
  Photo.selectedFaceId (photo (dispatch (perform op) w) i)
    = Photo.selectedFaceId (photo w i).
Proof.
  intros Ha Hop Hfind before after.
  assert (Hd : documents (dispatch (perform op) w) =
               documents (with_photo i
                 (fun p => Photo.set_faces (adjust face (set_box newBox) (Photo.faces p)) p)
                 (with_photo i push_snapshot w))).
  { destruct Hop as [->| ->]; cbn [perform].
    - now apply handleFaceMoved_moves.
    - now apply handleFaceResized_resizes. }
  pose proof (history_after Ha Hd) as Hh. unfold history in Hh.
  injection Hh as Hf Hs _ _. unfold after, before. rewrite Hf, Hs.
  cbn [push_snapshot Photo.faces Photo.set_faces Photo.set_redoStack
       Photo.set_undoStack Photo.selectedFaceId].
  repeat split. apply map_adjust_same. intros []. reflexivity.
Qed.

Lemma move_and_resize_replace_one_box_witness :
  let w := @Session.one_face reference_rasteriser in
  let op := Resize "face-0" (Box.mk 0 0 3 1) in
  let before := Photo.faces (photo w 0) in
  let after := Photo.faces (photo (dispatch (perform op) w) 0) in
  after = adjust 0 (set_box (Box.mk 0 0 3 1)) before /\
  map Face.id after = map Face.id before /\
  Photo.selectedFaceId (photo (dispatch (perform op) w) 0)
    = Photo.selectedFaceId (photo w 0).
Proof.
  apply (@move_and_resize_replace_one_box reference_rasteriser reference_math
           reference_collaborators Session.one_face 0%nat 0%nat
           (Resize "face-0" (Box.mk 0 0 3 1)) "face-0" (Box.mk 0 0 3 1)).
  - reflexivity.
  - right. reflexivity.
  - reflexivity.
Defined.

(** X17.  Removing takes the selected face, and only it, out of the face list
    (the first face carrying the selected id), clears the selection and
    pushes one undo snapshot. *)
Theorem handleFaceRemoved_removes_the_selected_face
  {RA : Rasteriser} {ML : MathLib} {CO : Collaborators}
  (w : World.t) (i idx : nat) :
  active_index (World.app w) = Some i ->
  truthy (Photo.selectedFaceId (photo w i)) = true ->
  findIndex (fun f => same_id (Face.id f) (Photo.selectedFaceId (photo w i)))
            (Photo.faces (photo w i)) = Some idx ->
  history (photo (dispatch handleFaceRemoved w) i) =
  (remove_at idx (Photo.faces (photo w i)), None,
   Photo.undoStack (push_snapshot (photo w i)), []).
Proof.
  intros Ha Hsel Hfind.
  pose proof (history_after Ha (handleFaceRemoved_removes w Ha Hsel Hfind)) as Hh.
  rewrite Hh. reflexivity.
Qed.

Lemma handleFaceRemoved_removes_the_selected_face_witness :
  history (photo (dispatch handleFaceRemoved (@Session.selected_face reference_rasteriser))
                 0) =
  (remove_at 0 (Photo.faces (photo (@Session.selected_face reference_rasteriser) 0)),
   None,
   Photo.undoStack (push_snapshot (photo (@Session.selected_face reference_rasteriser) 0)),
   []).
Proof.
  apply (@handleFaceRemoved_removes_the_selected_face reference_rasteriser
           reference_math reference_collaborators Session.selected_face 0%nat 0%nat);
    reflexivity.
Defined.

(** X18.  A click on a face, or a click on empty space while a face is
    selected, only changes the selection (to the face clicked, the first one
    in the list whose box holds the point, or to none): the face list and
    both stacks stay as they are, and no undo snapshot is pushed. *)
Theorem click_only_selects {RA : Rasteriser} {ML : MathLib} {CO : Collaborators}
  (w : World.t) (i : nat) (x y : Q) :
  active_index (World.app w) = Some i ->
  is_loaded (photo w i) = true ->
  let clicked := find (fun f => box_contains (Face.box f) x y) (Photo.faces (photo w i)) in
  clicked <> None \/ truthy (Photo.selectedFaceId (photo w i)) = true ->
  history (photo (dispatch (handleCanvasClick x y) w) i) =
  (Photo.faces (photo w i), option_map Face.id clicked,
   Photo.undoStack (photo w i), Photo.redoStack (photo w i)).
Proof.
  intros Ha Hl clicked Hc. pose proof (active_index_bound _ Ha) as Hi.
  assert (Hd : documents (dispatch (handleCanvasClick x y) w) =
               documents (with_photo i
                            (Photo.set_selectedFaceId (option_map Face.id clicked)) w)).
  { unfold dispatch, handleCanvasClick. rewrite (run_bind_getActivePhoto _ _ Ha).
    unfold photo_at at 1. rewrite run_bind_gets. fold (photo w i). rewrite Hl.
    cbn [negb]. fold clicked.
    assert (Hq : forall v,
               documents (final ((modify_photo i (Photo.set_selectedFaceId v) ;;
                                  show_photo i ;; updatePreview) w))
               = documents (with_photo i (Photo.set_selectedFaceId v) w)).
    { intros v. unfold modify_photo, modify_app. rewrite run_bind_modify.
      apply quiet_show_and_preview with i.
      change (active_index (World.app (with_photo i (Photo.set_selectedFaceId v) w))
              = Some i).
      now rewrite active_index_with_photo. }
    destruct clicked as [f|]; [apply Hq|].
    destruct Hc as [Hc|Hc]; [congruence|]. rewrite Hc. apply Hq. }
  rewrite (history_documents i Hd). now rewrite photo_with_photo.
Qed.

Lemma click_only_selects_witness :
  let w := @Session.one_face reference_rasteriser in
  let clicked := find (fun f => box_contains (Face.box f) 1 0) (Photo.faces (photo w 0)) in
  history (photo (dispatch (handleCanvasClick 1 0) w) 0) =
  (Photo.faces (photo w 0), option_map Face.id clicked,
   Photo.undoStack (photo w 0), Photo.redoStack (photo w 0)).
Proof.
  apply (@click_only_selects reference_rasteriser reference_math
           reference_collaborators Session.one_face 0%nat 1 0).
  - reflexivity.
  - reflexivity.
  - left. vm_compute. discriminate.
Defined.

(** ** The loading queue *)

Section Queue.

Context {RA : Rasteriser} {ML : MathLib} {CO : Collaborators}.


















End Queue.



(** ** Gestures on the canvas *)

Section Gestures.

Context {RA : Rasteriser} {ML : MathLib} {CO : Collaborators}.

Lemma handlePointerMove_dragging (mode : DragMode) (x0 y0 : Q) (target : option string)
  (orig : option Box.t) (w0 w : World.t) (x y : Q) :
  dragging mode x0 y0 target orig w0 w ->
  dragging mode x0 y0 target orig w0 (dispatch (CanvasClick.handlePointerMove x y) w).
Proof.
  intros (Ha & Hg & Hc & Hact & Hm & Hx & Hy & Ht & Ho).
  unfold dispatch, CanvasClick.handlePointerMove. rewrite run_bind_gets, Hact.
  cbn [negb]. unfold CanvasClick.set_drag, modify_ui. rewrite run_bind_modify.
  unfold CanvasClick.drawDragPreview, renderOverlay, modify_ui. rewrite run_bind_gets.
  unfold modify. cbn. repeat split; assumption.
Qed.

Lemma path_dragging (mode : DragMode) (x0 y0 : Q) (target : option string)
  (orig : option Box.t) (w0 : World.t) (path : list (Q * Q)) (w : World.t) :
  dragging mode x0 y0 target orig w0 w ->
  dragging mode x0 y0 target orig w0
    (fold_left (fun w p => dispatch (CanvasClick.handlePointerMove (fst p) (snd p)) w)
               path w).
Proof.
  revert w. induction path as [|p path IH]; intros w H; [exact H|].
  apply IH. now apply handlePointerMove_dragging.
Qed.

(** What [handlePointerDown] starts on the resize handle and on empty
    space. *)
Lemma handlePointerDown_starts (w : World.t) (x0 y0 : Q) :
  match CanvasClick.hitTest (World.ui w) x0 y0 with
  | HitResize face =>
      dragging ModeResize x0 y0 (Some (Face.id face))
               (Some (CanvasClick.copy_box (Face.box face))) w
               (dispatch (CanvasClick.handlePointerDown x0 y0) w)
  | HitEmpty =>
      dragging ModeDraw x0 y0 None None w
               (dispatch (CanvasClick.handlePointerDown x0 y0) w)
  | _ => True
  end.
Proof.
  unfold dispatch, CanvasClick.handlePointerDown. rewrite run_bind_gets.
  unfold CanvasClick.set_drag at 1, modify_ui at 1. rewrite run_bind_modify.
  destruct (CanvasClick.hitTest _ _ _); try exact I;
    unfold CanvasClick.set_drag, modify_ui, modify; cbn;
    repeat split.
Qed.

Lemma dragging_world (mode : DragMode) (x0 y0 : Q) (target : option string)
  (orig : option Box.t) (w0 w : World.t) (u : Ui.t) :
  dragging mode x0 y0 target orig w0 w ->
  documents (World.set_ui u w) = documents w0 /\
  World.app (World.set_ui u w) = World.app w0 /\
  World.set_gfx (World.gfx w0) (World.set_ui u w) = World.set_ui u w.
Proof.
  intros (Ha & Hg & Hc & _). destruct w, w0. simpl in *. subst. repeat split.
Qed.

Lemma handleFaceDrawn_adds (w : World.t) (i : nat) (box : Box.t) :
  active_index (World.app w) = Some i ->
  is_loaded (photo w i) = true ->
  let newFace := manual_face ("manual-" ++ decimal (World.clock w)) box in
  documents (dispatch (handleFaceDrawn box) w) =
  documents (with_photo i
               (fun p => Photo.set_selectedFaceId (Some (Face.id newFace))
                           (Photo.set_faces (Photo.faces p ++ [newFace]) p))
               (with_photo i push_snapshot w)).
Proof.
  intros Ha Hl newFace.
  unfold dispatch, handleFaceDrawn. rewrite (run_bind_getActivePhoto _ _ Ha).
  unfold photo_at at 1. rewrite run_bind_gets. fold (photo w i). rewrite Hl.
  cbn [negb]. rewrite (run_bind_pushUndo _ _ Ha). rewrite run_bind_gets.
  unfold modify_photo, modify_app. rewrite run_bind_modify.
  apply quiet_show_and_preview with i.
  change (active_index
            (World.app
               (with_photo i
                  (fun p => Photo.set_selectedFaceId (Some (Face.id newFace))
                              (Photo.set_faces (Photo.faces p ++ [newFace]) p))
                  (with_photo i push_snapshot w))) = Some i).
  now rewrite !active_index_with_photo by reflexivity.
Qed.

End Gestures.

Ltac release H :=
  let Ha := fresh "Ha" in
  let Hg := fresh "Hg" in
  let Hc := fresh "Hc" in
  let Hact := fresh "Hact" in
  let Hm := fresh "Hm" in
  let Hx := fresh "Hx" in
  let Hy := fresh "Hy" in
  let Ht := fresh "Ht" in
  let Ho := fresh "Ho" in
  pose proof H as (Ha & Hg & Hc & Hact & Hm & Hx & Hy & Ht & Ho);
  unfold dispatch, CanvasClick.handlePointerUp;
  rewrite run_bind_gets, Hact; cbn [negb];
  unfold CanvasClick.set_drag at 1, modify_ui at 1; rewrite run_bind_modify;
  rewrite run_bind_gets;
  cbn [World.ui World.set_ui Ui.drag Ui.set_drag Drag.mode Drag.startX Drag.startY
       Drag.origBox Drag.targetFaceId Drag.currentX Drag.currentY];
  rewrite Hm, ?Hx, ?Hy, ?Ht, ?Ho;
  rewrite documents_bind_ui by (intros; reflexivity).

(** X20.  Dragging the resize handle of the selected face resizes that face
    and nothing else, whatever the path of the pointer in between: the
    top-left corner stays, the width and the height grow by the distance
    between the point of release and the point where the pointer went
    down, and neither goes below 20 pixels. *)
Theorem resize_gesture {RA : Rasteriser} {ML : MathLib} {CO : Collaborators}
  (w : World.t) (i idx : nat) (face : Face.t) (x0 y0 x y : Q) (path : list (Q * Q)) :
  active_index (World.app w) = Some i ->
  CanvasClick.hitTest (World.ui w) x0 y0 = HitResize face ->
  findIndex (fun f => same_id (Face.id f) (Some (Face.id face)))
            (Photo.faces (photo w i)) = Some idx ->
  exists b,
    Photo.faces (photo (gesture x0 y0 path x y w) i)
      = adjust idx (set_box b) (Photo.faces (photo w i)) /\
    Box.x b = Box.x (Face.box face) /\ Box.y b = Box.y (Face.box face) /\
    Box.width b == Qmax 20 (Box.width (Face.box face) + (x - x0)) /\
    Box.height b == Qmax 20 (Box.height (Face.box face) + (y - y0)) /\
    20 <= Box.width b /\ 20 <= Box.height b.
Proof.
  intros Ha Hhit Hfind. pose proof (active_index_bound _ Ha) as Hi.
  pose proof (handlePointerDown_starts w x0 y0) as Hd. rewrite Hhit in Hd.
  apply path_dragging with (path := path) in Hd. unfold gesture.
  set (w1 := fold_left _ path _) in *.
  set (b := Box.mk (Box.x (Face.box face)) (Box.y (Face.box face))
                   (Math.max 20 (Box.width (Face.box face) + (x - x0)))
                   (Math.max 20 (Box.height (Face.box face) + (y - y0)))).
  exists b.
  assert (Hdoc : documents (dispatch (CanvasClick.handlePointerUp x y) w1) =
                 documents (with_photo i
                   (fun p => Photo.set_faces (adjust idx (set_box b) (Photo.faces p)) p)
                   (with_photo i push_snapshot w))).
  { release Hd. unfold CanvasClick.getResizeBox.
    cbn [Drag.origBox Drag.currentX Drag.currentY Drag.startX Drag.startY
         CanvasClick.copy_box Box.x Box.y Box.width Box.height].
    rewrite run_bind_ret. fold b.
    match goal with
    | |- documents (final (_ (World.set_ui ?u w1))) = _ =>
        destruct (dragging_world u Hd) as (Hsame & Happ & _);
        set (w2 := World.set_ui u w1) in *
    end.
    assert (Ha2 : active_index (World.app w2) = Some i) by (now rewrite Happ).
    assert (Hf2 : findIndex (fun f => same_id (Face.id f) (Some (Face.id face)))
                            (Photo.faces (photo w2 i)) = Some idx).
    { unfold photo. rewrite Happ. exact Hfind. }
    fold (dispatch (handleFaceResized (Some (Face.id face)) b) w2).
    erewrite handleFaceResized_resizes by eassumption.
    unfold documents, with_photo. cbn [World.app World.set_app World.clock State.photos
      State.set_photos State.activePhotoId].
    rewrite Happ. change (World.clock w2) with (World.clock w1). now rewrite Hc. }
  pose proof (history_documents i Hdoc) as Hh.
  rewrite photo_with_photo in Hh by (now rewrite length_with_photo).
  rewrite photo_with_photo in Hh by exact Hi.
  unfold history in Hh. injection Hh as -> _ _ _.
  split; [reflexivity|]. unfold b, Math.max. cbn [Box.x Box.y Box.width Box.height].
  repeat split; try reflexivity; apply Q.le_max_l.
Qed.

Lemma resize_gesture_witness :
  let w := @Session.selected_face reference_rasteriser in
  let face := Example.detected "face-0" (Box.mk 2 6 26 26) in
  exists b,
    Photo.faces (photo (gesture 10 30 [(12, 31); (14, 27)] 15 25 w) 0)
      = adjust 0 (set_box b) (Photo.faces (photo w 0)) /\
    Box.x b = Box.x (Face.box face) /\ Box.y b = Box.y (Face.box face) /\
    Box.width b == Qmax 20 (Box.width (Face.box face) + (15 - 10)) /\
    Box.height b == Qmax 20 (Box.height (Face.box face) + (25 - 30)) /\
    20 <= Box.width b /\ 20 <= Box.height b.
Proof.
  apply (@resize_gesture reference_rasteriser reference_math reference_collaborators
           Session.selected_face 0%nat 0%nat
           (Example.detected "face-0" (Box.mk 2 6 26 26)) 10 30 15 25
           [(12, 31); (14, 27)]);
    reflexivity.
Defined.

Lemma span (a b : Q) : Qmax a b - Qmin a b == Qabs (b - a).
Proof.
  destruct (Q.max_spec a b) as [[H ->]|[H ->]];
    destruct (Q.min_spec a b) as [[H' ->]|[H' ->]];
    first [rewrite Qabs_pos by lra; lra | rewrite Qabs_neg by lra; lra | lra].
Qed.

Lemma Qabs_square (a : Q) : Qabs a * Qabs a == a * a.
Proof.
  destruct (Qlt_le_dec a 0).
  - rewrite Qabs_neg by lra. ring.
  - rewrite Qabs_pos by lra. ring.
Qed.

Lemma Qgtb_false (a b : Q) : a <= b -> Qgtb a b = false.
Proof. intros H. unfold Qgtb. apply Qle_bool_iff in H. now rewrite H. Qed.

(** X21.  A drag that begins on empty space and spans more than 10 pixels in
    both directions adds one manual region, selected, after one undo
    snapshot: the rectangle between the point where the pointer went down
    and the point of release, whatever the path in between. *)
Theorem draw_gesture {RA : Rasteriser} {ML : MathLib} {CO : Collaborators}
  (w : World.t) (i : nat) (x0 y0 x y : Q) (path : list (Q * Q)) :
  active_index (World.app w) = Some i ->
  is_loaded (photo w i) = true ->
  CanvasClick.hitTest (World.ui w) x0 y0 = HitEmpty ->
  10 < Qabs (x - x0) ->
  10 < Qabs (y - y0) ->
  exists b,
    history (photo (gesture x0 y0 path x y w) i)
      = (Photo.faces (photo w i) ++ [manual_face ("manual-" ++ decimal (World.clock w)) b],
         Some ("manual-" ++ decimal (World.clock w))%string,
         Photo.undoStack (push_snapshot (photo w i)), []) /\
    Box.x b == Qmin x0 x /\ Box.y b == Qmin y0 y /\
    Box.width b == Qabs (x - x0) /\ Box.height b == Qabs (y - y0).
Proof.
  intros Ha Hl Hhit Hdx Hdy. pose proof (active_index_bound _ Ha) as Hi.
  pose proof (handlePointerDown_starts w x0 y0) as Hd. rewrite Hhit in Hd.
  apply path_dragging with (path := path) in Hd. unfold gesture.
  set (w1 := fold_left _ path _) in *.
  set (d := Drag.mk true (Some ModeDraw) x0 y0 x y None None).
  exists (CanvasClick.getDragBox d).
  set (b := CanvasClick.getDragBox d).
  assert (Hw : Box.width b == Qabs (x - x0)) by apply span.
  assert (Hh : Box.height b == Qabs (y - y0)) by apply span.
  set (newFace := manual_face ("manual-" ++ decimal (World.clock w)) b).
  assert (Hdoc : documents (dispatch (CanvasClick.handlePointerUp x y) w1) =
                 documents (with_photo i
                   (fun p => Photo.set_selectedFaceId (Some (Face.id newFace))
                               (Photo.set_faces (Photo.faces p ++ [newFace]) p))
                   (with_photo i push_snapshot w))).
  { release Hd.
    rewrite Qltb_false.
    2:{ pose proof (Qabs_square (x - x0)). pose proof (Qabs_square (y - y0)). nra. }
    rewrite Hact. fold d. fold b.
    rewrite !Qgtb_true by lra. cbn [andb].
    match goal with
    | |- documents (final (_ (World.set_ui ?u w1))) = _ =>
        destruct (dragging_world u Hd) as (Hsame & Happ & _);
        set (w2 := World.set_ui u w1) in *
    end.
    assert (Ha2 : active_index (World.app w2) = Some i) by (now rewrite Happ).
    assert (Hl2 : is_loaded (photo w2 i) = true).
    { unfold photo. rewrite Happ. exact Hl. }
    fold (dispatch (handleFaceDrawn b) w2).
    rewrite (handleFaceDrawn_adds w2 b Ha2 Hl2).
    change (World.clock w2) with (World.clock w1). rewrite Hc. fold newFace.
    unfold documents, with_photo. cbn [World.app World.set_app World.clock State.photos
      State.set_photos State.activePhotoId].
    rewrite Happ. change (World.clock w2) with (World.clock w1). now rewrite Hc. }
  pose proof (history_documents i Hdoc) as Hhist.
  rewrite photo_with_photo in Hhist by (now rewrite length_with_photo).
  rewrite photo_with_photo in Hhist by exact Hi.
  split; [rewrite Hhist; reflexivity|].
  repeat split; try assumption; reflexivity.
Qed.

Lemma draw_gesture_witness :
  let w := @Session.selected_face reference_rasteriser in
  exists b,
    history (photo (gesture 0 0 [(1, 1)] 11 12 w) 0)
      = (Photo.faces (photo w 0) ++ [manual_face ("manual-" ++ decimal (World.clock w)) b],
         Some ("manual-" ++ decimal (World.clock w))%string,
         Photo.undoStack (push_snapshot (photo w 0)), []) /\
    Box.x b == Qmin 0 11 /\ Box.y b == Qmin 0 12 /\
    Box.width b == Qabs (11 - 0) /\ Box.height b == Qabs (12 - 0).
Proof.
  apply (@draw_gesture reference_rasteriser reference_math reference_collaborators
           Session.selected_face 0%nat 0 0 11 12 [(1, 1)]);
    reflexivity.
Defined.

(** A drag that begins on empty space, is released 5 pixels or more from
    where it began and spans 10 pixels or less in one direction changes
    nothing: no region is added, the selection and both stacks stay. *)
Theorem thin_drag_adds_nothing {RA : Rasteriser} {ML : MathLib} {CO : Collaborators}
  (w : World.t) (x0 y0 x y : Q) (path : list (Q * Q)) :
  CanvasClick.hitTest (World.ui w) x0 y0 = HitEmpty ->
  5 * 5 <= (x - x0) * (x - x0) + (y - y0) * (y - y0) ->
  Qabs (x - x0) <= 10 \/ Qabs (y - y0) <= 10 ->
  documents (gesture x0 y0 path x y w) = documents w.
Proof.
  intros Hhit Hdist Hthin.
  pose proof (handlePointerDown_starts w x0 y0) as Hd. rewrite Hhit in Hd.
  apply path_dragging with (path := path) in Hd. unfold gesture.
  set (w1 := fold_left _ path _) in *.
  set (d := Drag.mk true (Some ModeDraw) x0 y0 x y None None).
  set (b := CanvasClick.getDragBox d).
  assert (Hw : Box.width b == Qabs (x - x0)) by apply span.
  assert (Hh : Box.height b == Qabs (y - y0)) by apply span.
  release Hd. rewrite Qltb_false by exact Hdist.
  rewrite Hact. fold d. fold b.
  assert (Hc2 : (Box.width b >? 10) && (Box.height b >? 10) = false).
  { destruct Hthin; [rewrite (@Qgtb_false (Box.width b)) by lra; reflexivity|].
    rewrite (@Qgtb_false (Box.height b)) by lra. apply andb_false_r. }
  rewrite Hc2.
  match goal with
  | |- documents (final (_ (World.set_ui ?u w1))) = _ =>
      destruct (dragging_world u Hd) as (Hsame & _)
  end.
  exact Hsame.
Qed.

Lemma thin_drag_adds_nothing_witness :
  documents (gesture 0 0 [(1, 1)] 30 3 (@Session.selected_face reference_rasteriser))
  = documents (@Session.selected_face reference_rasteriser).
Proof.
  apply (@thin_drag_adds_nothing reference_rasteriser reference_math
           reference_collaborators Session.selected_face 0 0 30 3 [(1, 1)]).
  - reflexivity.
  - vm_compute. discriminate.
  - right. vm_compute. discriminate.
Defined.

(** X22.  The resize handle and the delete button are never smaller on screen
    than 44 and 32 pixels, nor smaller on the image than 24 and 20 pixels,
    whatever the zoom of the overlay. *)
Theorem touch_targets (u : Ui.t) :
  (0 < Ui.overlayWidth u)%Z ->
  0 < Ui.rectWidth u ->
  44 <= CanvasClick.getHandleSize u * CanvasClick.getDisplayScale u /\
  32 <= CanvasClick.getDeleteBtnSize u * CanvasClick.getDisplayScale u /\
  24 <= CanvasClick.getHandleSize u /\
  20 <= CanvasClick.getDeleteBtnSize u.
Proof.
  intros Hw Hr.
  unfold CanvasClick.getHandleSize, CanvasClick.getDeleteBtnSize,
    CanvasClick.getDisplayScale, Math.max.
  rewrite Qgtb_true by exact Hr.
  assert (Hw' : 0 < inject_Z (Ui.overlayWidth u)).
  { change 0 with (inject_Z 0). rewrite <- Zlt_Qlt. exact Hw. }
  set (s := Ui.rectWidth u / Ui.overlayWidth u).
  assert (Hs : 0 < s).
  { unfold s. apply Qlt_shift_div_l; [exact Hw'|lra]. }
  assert (H44 : 44 / s * s == 44) by (field; lra).
  assert (H32 : 32 / s * s == 32) by (field; lra).
  pose proof (Q.le_max_l (44 / s) 24). pose proof (Q.le_max_r (44 / s) 24).
  pose proof (Q.le_max_l (32 / s) 20). pose proof (Q.le_max_r (32 / s) 20).
  repeat split; try assumption; nra.
Qed.

Lemma touch_targets_witness :
  let u := World.ui (@Session.selected_face reference_rasteriser) in
  44 <= CanvasClick.getHandleSize u * CanvasClick.getDisplayScale u /\
  32 <= CanvasClick.getDeleteBtnSize u * CanvasClick.getDisplayScale u /\
  24 <= CanvasClick.getHandleSize u /\
  20 <= CanvasClick.getDeleteBtnSize u.
Proof.
  apply (touch_targets (World.ui (@Session.selected_face reference_rasteriser)));
    reflexivity.
Defined.

(** * Further properties: detection *)

(** ** The detection canvas *)


Lemma Qfloor_unique (x : Q) (a : Z) :
  inject_Z a <= x -> x < inject_Z (a + 1) -> Qfloor x = a.
Proof.
  intros Hlo Hhi.
  pose proof (Qfloor_le x) as H1. pose proof (Qlt_floor x) as H2.
  assert (Ha : (a < Qfloor x + 1)%Z) by (rewrite Zlt_Qlt; lra).
  assert (Hb : (Qfloor x < a + 1)%Z) by (rewrite Zlt_Qlt; lra).
  lia.
Qed.

Lemma round_inject_Z (a : Z) : Math.round (inject_Z a) = a.
Proof.
  unfold Math.round. apply Qfloor_unique.
  - lra.
  - rewrite inject_Z_plus. change (inject_Z 1) with 1. lra.
Qed.






(** ** The faces of a detection *)

Lemma decimal_injective (a b : Z) : decimal a = decimal b -> a = b.
Proof.
  assert (H : forall z, option_map Z.of_int
                          (DecimalString.NilZero.int_of_string (decimal z)) = Some z).
  { intros z. unfold decimal.
    destruct (Decimal.signed_int_eq_dec (Z.to_int z) (Decimal.Pos Decimal.Nil)) as [E|E1].
    - rewrite E, DecimalString.NilZero.isi_posnil. simpl.
      rewrite <- (DecimalZ.of_to z), E. reflexivity.
    - destruct (Decimal.signed_int_eq_dec (Z.to_int z) (Decimal.Neg Decimal.Nil))
        as [E|E2].
      + rewrite E, DecimalString.NilZero.isi_negnil. simpl.
        rewrite <- (DecimalZ.of_to z), E. reflexivity.
      + rewrite DecimalString.NilZero.isi by assumption. simpl.
        now rewrite DecimalZ.of_to. }
  intros E. pose proof (H a) as Ha. rewrite E, H in Ha. congruence.
Qed.

Lemma map_indexed_spec {A B} (f : A -> nat -> B) (l : list A) (k : nat) :
  map_indexed f k l = map (fun p => f (snd p) (fst p)) (combine (seq k (List.length l)) l).
Proof.
  revert k. induction l as [|a l IH]; intros k; simpl; [reflexivity|].
  now rewrite IH.
Qed.

Lemma map_fst_combine_seq {A} (l : list A) (k : nat) :
  map fst (combine (seq k (List.length l)) l) = seq k (List.length l).
Proof.
  revert k. induction l as [|a l IH]; intros k; simpl; [reflexivity|].
  now rewrite IH.
Qed.

Lemma face_ids_distinct (n : nat) :
  NoDup (map (fun k => ("face-" ++ decimal (Z.of_nat k))%string) (seq 0 n)).
Proof.
  apply NoDup_map_NoDup_ForallPairs; [|apply seq_NoDup].
  intros a b _ _ E. simpl in E. injection E as E.
  apply decimal_injective in E. lia.
Qed.

(** X24.  With the models loaded, [detectFaces] returns one face for each
    result of the detector, in their order: not manual, with the score of
    the result and its box divided by [detectionScale], and with the ids
    face-0, face-1, ..., which are distinct.  The graphics state is left as
    it was. *)
Theorem detectFaces_numbers_the_faces {RA : Rasteriser}
  (d : Detector.t) (faceapi : FaceApi) (g : Gfx.t) (canvas : Ref)
  (sensitivity : string) (detectionScale : Q) (results : list Detection.t) :
  Detector.modelsLoaded d = true ->
  Detector.faceapi d = Some faceapi ->
  faceapi (Canvas.bitmap (Gfx.cells g canvas)) (minConfidence sensitivity) = inl results ->
  ~ detectionScale == 0 ->
  exists faces,
    detectFaces d canvas sensitivity detectionScale g = Returned faces g /\
    Forall2 (detected_from detectionScale) results faces /\
    map Face.id faces
      = map (fun k => ("face-" ++ decimal (Z.of_nat k))%string)
            (seq 0 (List.length results)) /\
    NoDup (map Face.id faces).
Proof.
  intros Hl Hf Hr Hs. unfold detectFaces. rewrite Hl, Hf. cbn [negb].
  unfold lookup. rewrite run_bind_gets, Hr.
  eexists. split; [reflexivity|].
  assert (Hids : forall k l,
             map Face.id
               (map_indexed
                  (fun r index =>
                     Face.mk ("face-" ++ decimal (Z.of_nat index))
                       (Box.mk (Box.x (Detection.box r) * (1 / detectionScale))
                               (Box.y (Detection.box r) * (1 / detectionScale))
                               (Box.width (Detection.box r) * (1 / detectionScale))
                               (Box.height (Detection.box r) * (1 / detectionScale)))
                       (Detection.score r)
                       match Detection.landmarks r with
                       | Some positions =>
                           Some (map (fun p => Point.mk (Point.x p * (1 / detectionScale))
                                                        (Point.y p * (1 / detectionScale)))
                                     positions)
                       | None => None
                       end false None None None) k l)
             = map (fun k => ("face-" ++ decimal (Z.of_nat k))%string)
                   (seq k (List.length l))).
  { intros k l. revert k. induction l as [|a l IH]; intros k; simpl; [reflexivity|].
    now rewrite IH. }
  split; [|split].
  - clear Hr Hids. generalize 0%nat.
    induction results as [|r results IH]; intros k; simpl; constructor; [|apply IH].
    unfold detected_from.
    cbn [Face.manual Face.score Face.box Box.x Box.y Box.width Box.height].
    repeat split; field; exact Hs.
  - apply Hids.
  - cbv zeta. rewrite Hids. apply face_ids_distinct.
Qed.

Lemma detectFaces_numbers_the_faces_witness :
  let faceapi : FaceApi :=
    fun _ _ => inl [Detection.mk (Box.mk 8 4 2 2) 0.9 None;
                    Detection.mk (Box.mk 1 1 1 1) 0.8 (Some [Point.mk 1 1])] in
  let d := Detector.mk (Some faceapi) true in
  let g := @Example.gfx_with reference_rasteriser Example.row4 (Example.draws [] 0) in
  let results := [Detection.mk (Box.mk 8 4 2 2) 0.9 None;
                  Detection.mk (Box.mk 1 1 1 1) 0.8 (Some [Point.mk 1 1])] in
  exists faces,
    detectFaces d 0%nat "high" (1 # 2) g = Returned faces g /\
    Forall2 (detected_from (1 # 2)) results faces /\
    map Face.id faces
      = map (fun k => ("face-" ++ decimal (Z.of_nat k))%string)
            (seq 0 (List.length results)) /\
    NoDup (map Face.id faces).
Proof.
  intros faceapi d g results.
  apply (@detectFaces_numbers_the_faces reference_rasteriser d faceapi g 0%nat "high"
           (1 # 2) results).
  - reflexivity.
  - reflexivity.
  - reflexivity.
  - vm_compute. discriminate.
Defined.


(** ** Detecting again *)









(** * Further properties: export *)

(** ** File names *)

Lemma append_assoc (a b c : string) : ((a ++ b) ++ c = a ++ (b ++ c))%string.
Proof. induction a as [|x a IH]; simpl; [reflexivity|]. now rewrite IH. Qed.




Lemma dot_free_append (a b : string) :
  dot_free (a ++ b) = dot_free a && dot_free b.
Proof.
  induction a as [|x a IH]; simpl; [reflexivity|]. rewrite IH. apply andb_assoc.
Qed.

Lemma strip_extension_dot_free (s : string) : dot_free s = true -> strip_extension s = s.
Proof.
  induction s as [|c s IH]; simpl; [reflexivity|].
  intros H. apply andb_prop in H. destruct H as [Hc Hs].
  apply negb_true_iff in Hc. rewrite Hc. simpl. now rewrite IH.
Qed.

(** The last extension is what goes: everything from the last dot on, when
    something follows that dot. *)
Lemma strip_extension_splits (stem e : string) :
  e <> ""%string -> dot_free e = true ->
  strip_extension (stem ++ "." ++ e) = stem.
Proof.
  intros He Hd. change ("." ++ e)%string with (String "." e).
  induction stem as [|c stem IH]; simpl.
  - rewrite Hd. destruct e; [congruence|reflexivity].
  - rewrite IH. destruct (Ascii.eqb c "."); [|reflexivity]. simpl.
    rewrite dot_free_append. simpl. rewrite andb_false_r, andb_false_r. reflexivity.
Qed.

(** A name that ends in a dot keeps it. *)
Lemma strip_extension_trailing_dot (stem : string) :
  strip_extension (stem ++ ".") = (stem ++ ".")%string.
Proof.
  induction stem as [|c stem IH]; simpl; [reflexivity|].
  rewrite IH. rewrite dot_free_append. simpl. now rewrite !andb_false_r.
Qed.

(** [exportImage] on a canvas with pixels saves the pixels of the canvas
    under the name faceblock_ followed by the original name without its
    last extension and by .jpg, as JPEG, when the format is jpeg, by .png,
    as PNG, for any other format; it returns that name and leaves the
    graphics state as it was. *)
Theorem exportImage_names_the_file {RA : Rasteriser}
  (g : Gfx.t) (processedCanvas : Ref) (format : string) (quality : Q)
  (stem e : string) :
  (0 < Canvas.width (Gfx.cells g processedCanvas))%Z ->
  (0 < Canvas.height (Gfx.cells g processedCanvas))%Z ->
  e <> ""%string -> dot_free e = true ->
  let jpeg := String.eqb format "jpeg" in
  let filename := ("faceblock_" ++ stem ++ (if jpeg then ".jpg" else ".png"))%string in
  exportImage processedCanvas format quality (stem ++ "." ++ e) g
  = Returned (filename,
              Download.mk (Blob.mk (Canvas.bitmap (Gfx.cells g processedCanvas))
                                   (if jpeg then "image/jpeg" else "image/png")
                                   quality)
                          filename) g.
Proof.
  intros Hw Hh He Hd jpeg filename. unfold exportImage, exportAsBlob, downloadBlob.
  unfold lookup. rewrite run_bind_assoc, run_bind_gets.
  assert (Hz : (Canvas.width (Gfx.cells g processedCanvas) =? 0)%Z
               || (Canvas.height (Gfx.cells g processedCanvas) =? 0)%Z = false).
  { apply orb_false_intro; apply Z.eqb_neq; lia. }
  rewrite Hz. rewrite !run_bind_ret.
  assert (Hn : String.eqb (stem ++ "." ++ e) "" = false).
  { destruct stem; reflexivity. }
  rewrite Hn. cbn [negb]. rewrite (strip_extension_splits stem He Hd).
  reflexivity.
Qed.

Lemma exportImage_names_the_file_witness :
  let g := @Example.gfx_with reference_rasteriser Example.row4 (Example.draws [] 0) in
  let jpeg := String.eqb "jpeg" "jpeg" in
  let filename :=
    ("faceblock_" ++ "IMG.2024" ++ (if jpeg then ".jpg" else ".png"))%string in
  exportImage 0%nat "jpeg" 0.9 ("IMG.2024" ++ "." ++ "heic") g
  = Returned (filename,
              Download.mk (Blob.mk (Canvas.bitmap (Gfx.cells g 0%nat))
                                   (if jpeg then "image/jpeg" else "image/png")
                                   0.9)
                          filename) g.
Proof.
  apply (@exportImage_names_the_file reference_rasteriser
           (@Example.gfx_with reference_rasteriser Example.row4 (Example.draws [] 0))
           0%nat "jpeg" 0.9 "IMG.2024" "heic").
  - reflexivity.
  - reflexivity.
  - discriminate.
  - reflexivity.
Defined.

(** ** The names in an archive *)










(** Three photos on disk as holiday.jpg, holiday.jpg and holiday.png: the
    archive holds three files. *)
Lemma download_all_renames_duplicates :
  let w := Session.world
             (@Example.gfx_with reference_rasteriser Example.row4 (Example.draws [] 0))
             (map (fun id => Session.loaded id 0%nat [])
                  ["holiday.jpg"; "holiday.jpg"; "holiday.png"]%string)
             (Some "holiday.jpg"%string) in
  match @handleDownloadAll reference_rasteriser reference_math reference_collaborators
          (Some (fun _ => true)) w with
  | Returned (Some zip) _ =>
      map fst zip = ["faceblock_holiday.png"; "faceblock_holiday(1).png";
                     "faceblock_holiday(2).png"]%string
  | _ => False
  end.
Proof. vm_compute. reflexivity. Qed.

(** * Further properties: the photos of a session *)

(** ** Computations that keep the roster *)

Section Roster.

Context {RA : Rasteriser} {ML : MathLib} {CO : Collaborators}.

Lemma roster_active_index (w w' : World.t) :
  roster w' = roster w -> active_index (World.app w') = active_index (World.app w).
Proof.
  unfold roster, active_index. intros [= Ha Hp]. rewrite Ha.
  destruct (truthy _); [|reflexivity].
  assert (Hids : map Photo.id (State.photos (World.app w'))
                 = map Photo.id (State.photos (World.app w))).
  { apply (f_equal (map fst)) in Hp. rewrite !map_map in Hp. exact Hp. }
  rewrite <- (findIndex_map (fun id => same_id id (State.activePhotoId (World.app w)))
                Photo.id (State.photos (World.app w'))).
  rewrite <- (findIndex_map (fun id => same_id id (State.activePhotoId (World.app w)))
                Photo.id (State.photos (World.app w))).
  now rewrite Hids.
Qed.

Lemma roster_consistent (w w' : World.t) :
  roster w' = roster w -> consistent w -> consistent w'.
Proof.
  intros H Hc. unfold consistent. rewrite (roster_active_index H).
  injection H as -> _. exact Hc.
Qed.

Lemma rostered_ret {A} (a : A) : rostered (ret a).
Proof. intros w _. reflexivity. Qed.

Lemma rostered_gets {A} (f : World.t -> A) : rostered (gets f).
Proof. intros w _. reflexivity. Qed.

Lemma rostered_throw {A} (e : JsError) : rostered (@throw World.t A e).
Proof. intros w _. reflexivity. Qed.

Lemma rostered_bind {A B} (m : M A) (k : A -> M B) :
  rostered m -> (forall a, rostered (k a)) -> rostered (bind m k).
Proof.
  intros Hm Hk w Hc. unfold bind. specialize (Hm w Hc).
  destruct (m w) as [a w1|e w1]; simpl in Hm; [|exact Hm].
  rewrite <- Hm. apply Hk. exact (roster_consistent Hm Hc).
Qed.

Lemma rostered_try_catch {A} (m : M A) (h : JsError -> M A) :
  rostered m -> (forall e, rostered (h e)) -> rostered (try_catch m h).
Proof.
  intros Hm Hh w Hc. unfold try_catch. specialize (Hm w Hc).
  destruct (m w) as [a w1|e w1]; simpl in Hm; [exact Hm|].
  rewrite <- Hm. apply Hh. exact (roster_consistent Hm Hc).
Qed.

Lemma rostered_forM_ {A} (l : list A) (body : A -> M unit) :
  (forall a, rostered (body a)) -> rostered (forM_ l body).
Proof.
  intros Hb. induction l as [|a l IH]; simpl; [apply rostered_ret|].
  apply rostered_bind; [apply Hb|intros _; exact IH].
Qed.

Lemma rostered_liftG {A} (m : G A) : rostered (liftG m).
Proof. intros w _. unfold liftG. now destruct (m (World.gfx w)). Qed.

Lemma rostered_modify_ui (f : Ui.t -> Ui.t) : rostered (modify_ui f).
Proof. intros w _. reflexivity. Qed.

Lemma rostered_modify_photo (i : nat) (f : Photo.t -> Photo.t) :
  (forall p, Photo.id (f p) = Photo.id p /\ Photo.file (f p) = Photo.file p) ->
  rostered (modify_photo i f).
Proof.
  intros Hf w _. unfold modify_photo, modify_app, modify, roster. simpl. f_equal.
  apply map_adjust_same. intros p. destruct (Hf p) as [-> ->]. reflexivity.
Qed.

Lemma rostered_getActivePhoto : rostered getActivePhoto.
Proof.
  intros w Hc. unfold getActivePhoto, app_state. rewrite run_bind_gets.
  unfold consistent, active_index in Hc.
  destruct (truthy _); [|reflexivity]. cbn [negb].
  destruct (findIndex _ _); [reflexivity|]. now destruct Hc.
Qed.

Lemma rostered_renderPreview (c : Ref) : rostered (renderPreview c).
Proof.
  apply rostered_bind; [apply rostered_liftG|intros; apply rostered_modify_ui].
Qed.

Lemma rostered_updatePreview : rostered updatePreview.
Proof.
  unfold updatePreview. apply rostered_bind; [apply rostered_getActivePhoto|].
  intros [i|]; [|apply rostered_ret].
  apply rostered_bind; [apply rostered_gets|]. intros p.
  destruct (Photo.fullCanvas p); [|apply rostered_ret].
  destruct (_ =? _)%nat; [apply rostered_ret|].
  apply rostered_bind; [apply rostered_gets|]. intros s.
  apply rostered_bind; [apply rostered_liftG|]. intros c.
  apply rostered_bind; [|intros; apply rostered_modify_ui].
  apply rostered_modify_photo. intros []. split; reflexivity.
Qed.

Lemma fold_adjust_map {A B} (view : Photo.t -> B) (f : Photo.t -> Photo.t)
  (key : A -> nat) (l : list A) (photos : list Photo.t) :
  (forall p, view (f p) = view p) ->
  map view (fold_left (fun photos a => adjust (key a) f photos) l photos)
  = map view photos.
Proof.
  intros Hf. revert photos. induction l as [|a l IH]; intros photos; simpl; [reflexivity|].
  rewrite IH. now apply map_adjust_same.
Qed.

Lemma rostered_evictCanvases : rostered evictCanvases.
Proof.
  intros w _. unfold evictCanvases, modify_app, modify, roster. simpl.
  destruct (_ <? _)%nat; [|reflexivity]. simpl. f_equal.
  apply (fold_adjust_map (fun p => (Photo.id p, Photo.file p))
           (fun p => Photo.set_processedCanvas None (Photo.set_fullCanvas None p)) fst).
  intros []. reflexivity.
Qed.

Lemma rostered_loadAndDetect (file : option File.t) (sensitivity : string) :
  rostered (loadAndDetect file sensitivity).
Proof.
  unfold loadAndDetect. destruct file as [f|]; [|apply rostered_throw].
  destruct (decode_and_detect f sensitivity); [|apply rostered_throw].
  apply rostered_bind; [apply rostered_liftG|intros; apply rostered_ret].
Qed.

Lemma rostered_processPhoto (i : nat) : rostered (processPhoto i).
Proof.
  unfold processPhoto. apply rostered_bind; [apply rostered_gets|]. intros s.
  destruct (negb _); [apply rostered_ret|].
  apply rostered_bind; [apply rostered_gets|]. intros p.
  destruct (match Photo.status p with Detected => _ | _ => _ end); [apply rostered_ret|].
  apply rostered_bind; [apply rostered_modify_photo; intros []; split; reflexivity|].
  intros _. apply rostered_try_catch.
  - apply rostered_bind; [apply rostered_gets|]. intros s1.
    apply rostered_bind; [apply rostered_loadAndDetect|]. intros loaded.
    apply rostered_bind; [apply rostered_modify_photo; intros []; split; reflexivity|].
    intros _. apply rostered_bind; [|intros; apply rostered_evictCanvases].
    destruct (same_id _ _); [|apply rostered_ret].
    apply rostered_bind; [apply rostered_renderPreview|]. intros _.
    apply rostered_bind; [apply rostered_modify_ui|]. intros _.
    destruct (_ =? _)%nat; [apply rostered_ret|apply rostered_updatePreview].
  - intros e. apply rostered_modify_photo. intros []. split; reflexivity.
Qed.

Lemma rostered_processQueue : rostered processQueue.
Proof.
  unfold processQueue. intros w Hc. rewrite run_bind_get.
  destruct (World.queueRunning w); [reflexivity|].
  rewrite run_bind_modify.
  match goal with
  | |- roster (final (bind ?m ?k ?w1)) = _ =>
      assert (Hm : rostered m)
  end.
  { apply rostered_forM_. intros i.
    apply rostered_bind; [apply rostered_gets|]. intros p.
    destruct (Photo.status p); try apply rostered_ret. apply rostered_processPhoto. }
  unfold bind at 1.
  match goal with
  | |- context [forM_ ?l ?body ?w1] =>
      specialize (Hm w1 Hc); revert Hm; destruct (forM_ l body w1) as [[] w2|e w2]
  end; intros Hm; exact Hm.
Qed.

(** Once the active id is set, [switchToPhoto] leaves the roster alone. *)
Lemma switchToPhoto_roster (photoId : string) (w : World.t) (i : nat) :
  findIndex (fun p => String.eqb (Photo.id p) photoId) (State.photos (World.app w))
    = Some i ->
  roster (final (switchToPhoto photoId w))
  = (Some photoId, snd (roster w)).
Proof.
  intros Hfind. unfold switchToPhoto, app_state. rewrite run_bind_gets, Hfind.
  unfold modify_app at 1. rewrite run_bind_modify.
  set (w1 := World.set_app (State.set_activePhotoId (Some photoId) (World.app w)) w).
  assert (Hr : roster w1 = (Some photoId, snd (roster w))) by reflexivity.
  assert (Hc : consistent w1).
  { unfold consistent, active_index. intros ->.
    change (State.activePhotoId (World.app w1)) with (Some photoId).
    change (State.photos (World.app w1)) with (State.photos (World.app w)).
    cbn [same_id]. rewrite Hfind. discriminate. }
  rewrite <- Hr. clearbody w1.
  match goal with
  | |- roster (final (?m w1)) = _ => assert (Hm : rostered m); [|exact (Hm w1 Hc)]
  end.
  apply rostered_bind; [apply rostered_gets|]. intros p.
  apply rostered_bind.
  - destruct (match Photo.status p with Pending => _ | _ => _ end);
      [|apply rostered_ret].
    apply rostered_bind; [apply rostered_processPhoto|]. intros _.
    apply rostered_bind; [apply rostered_gets|intros; apply rostered_ret].
  - intros [|]; [apply rostered_ret|].
    apply rostered_bind; [apply rostered_gets|]. intros p1.
    destruct (Photo.fullCanvas p1); [|apply rostered_throw].
    apply rostered_bind; [apply rostered_renderPreview|]. intros _.
    apply rostered_bind; [apply rostered_modify_ui|]. intros _.
    apply rostered_bind.
    + apply rostered_bind; [apply rostered_getActivePhoto|intros; apply rostered_ret].
    + intros _. destruct (_ <? _)%nat; [apply rostered_updatePreview|apply rostered_ret].
Qed.

End Roster.

(** ** Removing a photo *)

Lemma nth_remove_at {A} (idx k : nat) (l : list A) (d : A) :
  nth k (remove_at idx l) d = if (k <? idx)%nat then nth k l d else nth (S k) l d.
Proof.
  revert idx k. induction l as [|a l IH]; intros [|idx] [|k]; simpl; try reflexivity.
  - now destruct (_ <? _)%nat.
  - rewrite IH. change (S k <? S idx)%nat with (k <? idx)%nat. reflexivity.
Qed.

Lemma length_remove_at {A} (idx : nat) (l : list A) :
  (idx < List.length l)%nat -> List.length (remove_at idx l) = (List.length l - 1)%nat.
Proof.
  revert idx. induction l as [|a l IH]; intros [|idx] H; simpl in *; try lia.
  rewrite IH by lia. lia.
Qed.

Lemma map_remove_at {A B} (f : A -> B) (idx : nat) (l : list A) :
  map f (remove_at idx l) = remove_at idx (map f l).
Proof.
  revert idx. induction l as [|a l IH]; intros [|idx]; simpl; try reflexivity.
  now rewrite IH.
Qed.

Lemma remove_at_adjust {A} (idx : nat) (f : A -> A) (l : list A) :
  remove_at idx (adjust idx f l) = remove_at idx l.
Proof.
  revert idx. induction l as [|a l IH]; intros [|idx]; simpl; try reflexivity.
  now rewrite IH.
Qed.

Lemma findIndex_exists {A} (f : A -> bool) (l : list A) (k : nat) (d : A) :
  (k < List.length l)%nat -> f (nth k l d) = true -> exists i, findIndex f l = Some i.
Proof.
  revert k. induction l as [|a l IH]; intros k Hk Hf; simpl in *; [lia|].
  destruct (f a) eqn:E; [now exists 0%nat|].
  destruct k as [|k]; [congruence|].
  destruct (IH k) as (i & ->); [lia|exact Hf|]. now exists (S i).
Qed.

(** X27.  Removing a photo always returns and takes that photo, and no other,
    out of the list; the others keep their order, ids and files.  With no
    photo left there is no active photo; when the photo removed was the
    active one, the photo that followed it becomes active, or the one
    before it when it was the last; otherwise the active photo stays. *)
Theorem handlePhotoRemoved_removes {RA : Rasteriser} {ML : MathLib} {CO : Collaborators}
  (photoId : string) (w : World.t) (idx : nat) :
  findIndex (fun p => String.eqb (Photo.id p) photoId) (State.photos (World.app w))
    = Some idx ->
  let photos := State.photos (World.app w) in
  let n := List.length photos in
  exists w',
    handlePhotoRemoved photoId w = Returned tt w' /\
    snd (roster w') = remove_at idx (snd (roster w)) /\
    fst (roster w') =
      if (n =? 1)%nat then None
      else if same_id photoId (State.activePhotoId (World.app w)) then
        Some (Photo.id (nth (if (idx + 1 <? n)%nat then idx + 1 else idx - 1)%nat
                            photos no_photo))
      else State.activePhotoId (World.app w).
Proof.
  intros Hfind photos n. pose proof (findIndex_bound _ _ Hfind) as Hidx.
  fold photos in Hidx. fold n in Hidx.
  unfold handlePhotoRemoved, app_state. rewrite run_bind_gets, Hfind.
  unfold modify_photo, modify_app. rewrite !run_bind_modify, run_bind_gets.
  cbn [World.app World.set_app State.photos State.set_photos].
  fold photos. rewrite remove_at_adjust.
  set (w2 := World.set_app _ _).
  assert (Hp2 : State.photos (World.app w2) = remove_at idx photos).
  { reflexivity. }
  assert (Ha2 : State.activePhotoId (World.app w2) = State.activePhotoId (World.app w))
    by reflexivity.
  assert (Hr2 : snd (roster w2) = remove_at idx (snd (roster w))).
  { unfold roster. cbn [snd]. rewrite Hp2. apply map_remove_at. }
  assert (Hlen : List.length (remove_at idx photos) = (n - 1)%nat)
    by (now apply length_remove_at).
  clearbody w2. rewrite Hlen.
  destruct (n =? 1)%nat eqn:Hn1.
  - apply Nat.eqb_eq in Hn1. rewrite Hn1. cbn [Nat.sub Nat.eqb].
    eexists. split; [reflexivity|]. split; [exact Hr2|reflexivity].
  - apply Nat.eqb_neq in Hn1.
    assert (Hn0 : (n - 1 =? 0)%nat = false) by (apply Nat.eqb_neq; lia).
    rewrite Hn0.
    change (State.activePhotoId
              (State.set_photos (remove_at idx photos)
                 (State.set_photos (adjust idx _ photos) (World.app w))))
      with (State.activePhotoId (World.app w)).
    destruct (same_id photoId (State.activePhotoId (World.app w))).
    + set (newIdx := Nat.min idx (n - 1 - 1)).
      set (next := Photo.id (nth newIdx (remove_at idx photos) no_photo)).
      assert (Hnext : next = Photo.id (nth (if (idx + 1 <? n)%nat then idx + 1
                                            else idx - 1)%nat photos no_photo)).
      { unfold next. rewrite nth_remove_at. unfold newIdx.
        destruct (idx + 1 <? n)%nat eqn:E.
        - apply Nat.ltb_lt in E. rewrite Nat.min_l by lia.
          rewrite Nat.ltb_irrefl. now rewrite Nat.add_1_r.
        - apply Nat.ltb_ge in E. rewrite Nat.min_r by lia.
          assert (Hlt : (n - 1 - 1 <? idx)%nat = true) by (apply Nat.ltb_lt; lia).
          rewrite Hlt. f_equal. f_equal. lia. }
      destruct (@findIndex_exists _ (fun p => String.eqb (Photo.id p) next)
                  (State.photos (World.app w2)) newIdx no_photo) as (i & Hi).
      { rewrite Hp2, Hlen. unfold newIdx. lia. }
      { rewrite Hp2. apply String.eqb_refl. }
      pose proof (switchToPhoto_roster next w2 Hi) as Hsw.
      unfold try_catch.
      destruct (switchToPhoto next w2) as [[] w3|e w3]; cbn [final] in Hsw;
        (eexists; split; [reflexivity|]); rewrite Hsw; cbn [fst snd];
        (split; [exact Hr2|now rewrite Hnext]).
    + eexists. split; [reflexivity|]. split; [exact Hr2|exact Ha2].
Qed.

Lemma handlePhotoRemoved_removes_witness :
  let w := @Session.four_loaded reference_rasteriser in
  let photos := State.photos (World.app w) in
  let n := List.length photos in
  exists w',
    handlePhotoRemoved "A" w = Returned tt w' /\
    snd (roster w') = remove_at 0 (snd (roster w)) /\
    fst (roster w') =
      if (n =? 1)%nat then None
      else if same_id "A" (State.activePhotoId (World.app w)) then
        Some (Photo.id (nth (if (0 + 1 <? n)%nat then 0 + 1 else 0 - 1)%nat
                            photos no_photo))
      else State.activePhotoId (World.app w).
Proof.
  apply (@handlePhotoRemoved_removes reference_rasteriser reference_math
           reference_collaborators "A" Session.four_loaded 0%nat).
  reflexivity.
Defined.

(** ** Adding photos *)

Section Adding.

Context {RA : Rasteriser} {ML : MathLib} {CO : Collaborators}.

Variable toString36 : Q -> string.
Variable generateThumbnail : File.t -> option string.

Lemma createPhotoStates_result (files : list File.t) (w : World.t) :
  exists photos w',
    createPhotoStates toString36 files w = Returned photos w' /\
    World.app w' = World.app w /\
    map Photo.file photos = map Some files /\
    Forall (fun p => truthy (Some (Photo.id p)) = true) photos.
Proof.
  revert w. induction files as [|f files IH]; intros w.
  - exists [], w. repeat split. constructor.
  - cbn [createPhotoStates]. unfold createPhotoState at 1.
    rewrite !run_bind_assoc, run_bind_gets.
    rewrite run_bind_assoc. unfold bind at 1, liftG at 1, random at 1.
    rewrite run_bind_ret. unfold bind at 1.
    match goal with
    | |- context [createPhotoStates _ files ?w1] =>
        destruct (IH w1) as (photos & w' & E & Ha & Hf & Ht)
    end.
    rewrite E. eexists. exists w'.
    split; [reflexivity|]. split; [exact Ha|].
    split; [simpl; now rewrite Hf|].
    constructor; [reflexivity|exact Ht].
Qed.

Lemma findIndex_app_found {A} (f : A -> bool) (l l' : list A) (i : nat) :
  findIndex f l = Some i -> findIndex f (l ++ l') = Some i.
Proof.
  revert i. induction l as [|a l IH]; intros i; simpl; [discriminate|].
  destruct (f a); [auto|].
  destruct (findIndex f l) as [k|]; [|discriminate].
  intros [= <-]. now rewrite (IH k eq_refl).
Qed.

Lemma findIndex_In {A} (g : A -> string) (x : string) (l : list A) :
  In x (map g l) -> exists i, findIndex (fun a => String.eqb (g a) x) l = Some i.
Proof.
  induction l as [|a l IH]; simpl; [intros []|].
  destruct (String.eqb (g a) x) eqn:E; [now exists 0%nat|].
  intros [H|H]; [apply String.eqb_neq in E; congruence|].
  destruct (IH H) as (i & ->). now exists (S i).
Qed.

Lemma roster_ids (w : World.t) :
  map Photo.id (State.photos (World.app w)) = map fst (snd (roster w)).
Proof. unfold roster. cbn [snd]. now rewrite map_map. Qed.

(** The end of [handleFilesSelected]: the active photo is shown and the
    queue is started. *)
Lemma switch_then_queue (w : World.t) (id : string) :
  State.activePhotoId (World.app w) = Some id ->
  truthy (Some id) = true ->
  consistent w ->
  roster (final ((s <- app_state ;;
                  match State.activePhotoId s with
                  | Some activePhotoId => switchToPhoto activePhotoId
                  | None => ret tt
                  end ;;
                  try_catch processQueue (fun _ => ret tt)) w))
  = roster w.
Proof.
  intros Ha Ht Hc. unfold app_state. rewrite run_bind_gets, Ha.
  assert (Hfound : exists i, findIndex (fun p => String.eqb (Photo.id p) id)
                                       (State.photos (World.app w)) = Some i).
  { unfold consistent, active_index in Hc. rewrite Ha, Ht in Hc.
    specialize (Hc eq_refl). cbn [same_id] in Hc.
    destruct (findIndex _ _) as [i|]; [now exists i|congruence]. }
  destruct Hfound as (i & Hi).
  pose proof (switchToPhoto_roster id w Hi) as Hsw.
  assert (Hsame : (Some id, snd (roster w)) = roster w).
  { unfold roster. now rewrite Ha. }
  rewrite Hsame in Hsw. unfold bind at 1.
  destruct (switchToPhoto id w) as [[] w1|e w1]; cbn [final] in Hsw; [|exact Hsw].
  rewrite <- Hsw.
  assert (Hq : rostered (try_catch processQueue (fun _ => ret tt))).
  { apply rostered_try_catch; [apply rostered_processQueue|intros; apply rostered_ret]. }
  apply Hq. exact (roster_consistent Hsw Hc).
Qed.

End Adding.

(** X28.  Files that are not images, or are larger than 50 MB, are not added,
    and no selection of files takes the session beyond 20 photos: the photos
    of before keep their places, ids and files, and the files accepted
    follow them in the order chosen, as far as there are free places.
    This is so whether the handler returns or throws. *)
Theorem handleFilesSelected_respects_the_limit
  {RA : Rasteriser} {ML : MathLib} {CO : Collaborators}
  (toString36 : Q -> string) (generateThumbnail : File.t -> option string)
  (files : list File.t) (w : World.t) :
  consistent w ->
  let accepted :=
    List.filter (fun f => prefix "image/" (File.type f) &&
                          (File.size f <=? 50 * 1024 * 1024)%Z) files in
  let n := List.length (State.photos (World.app w)) in
  let w' := dispatch (handleFilesSelected toString36 generateThumbnail files) w in
  exists added,
    snd (roster w') = snd (roster w) ++ added /\
    map snd added = map Some (firstn (MAX_PHOTOS - n) accepted) /\
    (List.length (State.photos (World.app w')) <= Nat.max n MAX_PHOTOS)%nat.
Proof.
  intros Hc accepted n w'.
  assert (Hgoal : exists added,
             snd (roster w') = snd (roster w) ++ added /\
             map snd added = map Some (firstn (MAX_PHOTOS - n) accepted)).
  { unfold w', dispatch, handleFilesSelected. fold accepted.
    destruct (List.length accepted =? 0)%nat eqn:Hz.
    { exists []. rewrite app_nil_r. split; [reflexivity|].
      apply Nat.eqb_eq in Hz. apply length_zero_iff_nil in Hz. rewrite Hz.
      now rewrite firstn_nil. }
    unfold app_state at 1. rewrite run_bind_gets. fold n.
    destruct (Z.of_nat MAX_PHOTOS - Z.of_nat n <=? 0)%Z eqn:Hs.
    { exists []. rewrite app_nil_r. split; [reflexivity|].
      apply Z.leb_le in Hs. replace (MAX_PHOTOS - n)%nat with 0%nat by lia.
      reflexivity. }
    apply Z.leb_gt in Hs.
    replace (Z.to_nat (Z.of_nat MAX_PHOTOS - Z.of_nat n)) with (MAX_PHOTOS - n)%nat by lia.
    set (toAdd := firstn (MAX_PHOTOS - n) accepted).
    destruct (createPhotoStates_result toString36 toAdd w)
      as (newPhotos & w1 & E & Ha1 & Hf & Ht).
    unfold bind at 1. rewrite E.
    unfold modify_app at 1. rewrite run_bind_modify.
    set (w2 := World.set_app _ w1).
    exists (map (fun p => (Photo.id p, Photo.file p)) newPhotos).
    assert (Hr2 : roster w2
                  = (State.activePhotoId (World.app w),
                     snd (roster w)
                     ++ map (fun p => (Photo.id p, Photo.file p)) newPhotos)).
    { unfold w2, roster. cbn [World.app World.set_app State.photos State.set_photos
                              State.activePhotoId snd].
      rewrite Ha1. now rewrite map_app. }
    split; [|rewrite map_map; exact Hf].
    assert (Hc2 : consistent w2).
    { unfold consistent, active_index.
      change (State.activePhotoId (World.app w2))
        with (State.activePhotoId (World.app w1)).
      change (State.photos (World.app w2))
        with (State.photos (World.app w1) ++ newPhotos).
      rewrite Ha1. intros Htr. specialize (Hc Htr). unfold active_index in Hc.
      rewrite Htr in *.
      destruct (findIndex _ (State.photos (World.app w))) as [k|] eqn:Ek;
        [|congruence].
      rewrite (findIndex_app_found _ _ newPhotos Ek). discriminate. }
    assert (Hthumb : forall l, rostered
              (forM_ l (fun i =>
                 photo <- photo_at i ;;
                 modify_photo i (set_thumbnailDataUrl
                                   (match Photo.file photo with
                                    | Some file => generateThumbnail file
                                    | None => None
                                    end))))).
    { intros l. apply rostered_forM_. intros i.
      apply rostered_bind; [apply rostered_gets|]. intros p.
      apply rostered_modify_photo. intros []. split; reflexivity. }
    change (State.photos (World.app w)) with (State.photos (World.app w)) in *.
    unfold bind at 1.
    match goal with
    | |- context [forM_ ?l ?body w2] =>
        pose proof (Hthumb l w2 Hc2) as H3;
        change (forM_ l _ w2) with (forM_ l body w2) in H3;
        revert H3; destruct (forM_ l body w2) as [[] w3|e w3]; cbn [final]; intros H3
    end.
    2:{ rewrite H3, Hr2. reflexivity. }
    assert (Hc3 : consistent w3) by exact (roster_consistent H3 Hc2).
    rewrite Hr2 in H3. unfold app_state at 1. rewrite run_bind_gets.
    assert (Hnew : newPhotos <> []).
    { intros ->. apply (f_equal (@List.length _)) in Hf. simpl in Hf.
      rewrite length_map in Hf. unfold toAdd in Hf. rewrite length_firstn in Hf.
      apply Nat.eqb_neq in Hz. lia. }
    destruct (truthy (State.activePhotoId (World.app w3))) eqn:Htr; cbn [negb].
    - rewrite run_bind_ret.
      destruct (State.activePhotoId (World.app w3)) as [id|] eqn:Hid; [|discriminate].
      rewrite (@switch_then_queue RA ML CO w3 id Hid Htr Hc3). now rewrite H3.
    - unfold modify_app at 1. rewrite run_bind_modify.
      set (id0 := Photo.id (nth 0 newPhotos no_photo)).
      set (w4 := World.set_app _ w3).
      assert (Ht0 : truthy (Some id0) = true).
      { unfold id0. destruct newPhotos as [|p rest]; [congruence|].
        now inversion Ht. }
      assert (Hr4 : snd (roster w4) = snd (roster w3)) by reflexivity.
      assert (Hc4 : consistent w4).
      { unfold consistent, active_index.
        change (State.activePhotoId (World.app w4)) with (Some id0).
        change (State.photos (World.app w4)) with (State.photos (World.app w3)).
        rewrite Ht0. intros _. cbn [same_id].
        destruct (@findIndex_In _ Photo.id id0 (State.photos (World.app w3))) as (k & ->);
          [|discriminate].
        rewrite roster_ids, H3. cbn [snd]. rewrite map_app, map_map. cbn [fst].
        apply in_or_app. right. unfold id0.
        destruct newPhotos as [|p rest]; [congruence|]. now left. }
      rewrite (@switch_then_queue RA ML CO w4 id0 eq_refl Ht0 Hc4).
      rewrite Hr4, H3. reflexivity. }
  destruct Hgoal as (added & Hr & Hf). exists added. split; [exact Hr|].
  split; [exact Hf|].
  assert (Hlen : List.length (State.photos (World.app w'))
                 = (n + List.length added)%nat).
  { rewrite <- (length_map Photo.id), roster_ids, Hr, map_app, length_app, !length_map.
    unfold roster. cbn [snd]. now rewrite length_map. }
  rewrite Hlen. apply (f_equal (@List.length _)) in Hf.
  rewrite !length_map, length_firstn in Hf. lia.
Qed.

Lemma handleFilesSelected_respects_the_limit_witness :
  let files := [File.mk "a.jpg" "image/jpeg" 1000; File.mk "notes.txt" "text/plain" 10;
                File.mk "b.png" "image/png" 60000000] in
  let w := @Session.four_loaded reference_rasteriser in
  let accepted :=
    List.filter (fun f => prefix "image/" (File.type f) &&
                          (File.size f <=? 50 * 1024 * 1024)%Z) files in
  let n := List.length (State.photos (World.app w)) in
  let w' := dispatch (handleFilesSelected (fun _ => "0.4fzyo82mvyr"%string)
                                          (fun _ => None) files) w in
  exists added,
    snd (roster w') = snd (roster w) ++ added /\
    map snd added = map Some (firstn (MAX_PHOTOS - n) accepted) /\
    (List.length (State.photos (World.app w')) <= Nat.max n MAX_PHOTOS)%nat.
Proof.
  apply (@handleFilesSelected_respects_the_limit reference_rasteriser reference_math
           reference_collaborators (fun _ => "0.4fzyo82mvyr"%string) (fun _ => None)
           [File.mk "a.jpg" "image/jpeg" 1000; File.mk "notes.txt" "text/plain" 10;
            File.mk "b.png" "image/png" 60000000]
           Session.four_loaded).
  intros _. vm_compute. discriminate.
Defined.

(** ** Loading a photo that is not shown *)

Lemma nth_evict_first (a : option string) (l : list Photo.t) (n i : nat) (d : Photo.t) :
  (i < List.length l)%nat ->
  nth i (evict_first a n l) d
  = if inactive_loaded a (nth i l d) &&
       (List.length (List.filter (inactive_loaded a) (firstn i l)) <? n)%nat
    then evicted (nth i l d) else nth i l d.
Proof.
  revert n i. induction l as [|p l IH]; intros n i Hi; simpl in Hi; [lia|].
  destruct n as [|n].
  - rewrite evict_first_0.
    destruct (inactive_loaded a (nth i (p :: l) d)); reflexivity.
  - cbn [evict_first]. destruct i as [|i].
    + cbn [nth firstn List.filter List.length]. destruct (inactive_loaded a p) eqn:E.
      * reflexivity.
      * reflexivity.
    + cbn [nth firstn List.filter]. destruct (inactive_loaded a p) eqn:E.
      * cbn [nth List.length]. rewrite IH by lia.
        change (S (List.length (List.filter (inactive_loaded a) (firstn i l))) <? S n)%nat
          with (List.length (List.filter (inactive_loaded a) (firstn i l)) <? n)%nat.
        reflexivity.
      * cbn [nth]. rewrite IH by lia. reflexivity.
Qed.

Lemma filter_adjust_split {A} (f : A -> bool) (g : A -> A) (i : nat) (l : list A) (d : A) :
  (i < List.length l)%nat ->
  List.length (List.filter f (adjust i g l))
  = (List.length (List.filter f (firstn i l))
     + (if f (g (nth i l d)) then 1 else 0)
     + List.length (List.filter f (skipn (S i) l)))%nat.
Proof.
  revert i. induction l as [|a l IH]; intros i Hi; simpl in Hi; [lia|].
  destruct i as [|i].
  - cbn [adjust firstn skipn nth List.filter List.length].
    destruct (f (g a)); cbn [List.length]; lia.
  - change (skipn (S (S i)) (a :: l)) with (skipn (S i) l).
    cbn [adjust firstn nth List.filter]. destruct (f a); cbn [List.length];
      rewrite (IH i) by lia; lia.
Qed.

Lemma firstn_adjust {A} (g : A -> A) (i : nat) (l : list A) :
  firstn i (adjust i g l) = firstn i l.
Proof.
  revert i. induction l as [|a l IH]; intros [|i]; simpl; try reflexivity.
  now rewrite IH.
Qed.

Lemma skipn_adjust {A} (g : A -> A) (i : nat) (l : list A) :
  skipn (S i) (adjust i g l) = skipn (S i) l.
Proof.
  revert i. induction l as [|a l IH]; intros [|i]; try reflexivity.
  change (skipn (S (S i)) (adjust (S i) g (a :: l))) with (skipn (S i) (adjust i g l)).
  now rewrite IH.
Qed.

(** X29.  Loading a photo that is not the active one can be in vain: when two
    loaded photos other than the active one follow it in the list, the
    eviction that ends [processPhoto] releases the image just decoded.  The
    photo is left detected, with its faces and without a canvas, as a
    caller such as [handleDownloadAll] finds it. *)
Theorem processPhoto_can_release_what_it_loaded
  {RA : Rasteriser} {ML : MathLib} {CO : Collaborators}
  (w : World.t) (i : nat) (file : File.t) (image : Bitmap.t) (faces : list Face.t) :
  let s := World.app w in
  (i < List.length (State.photos s))%nat ->
  Photo.fullCanvas (photo w i) = None ->
  same_id (Photo.id (photo w i)) (State.activePhotoId s) = false ->
  Photo.file (photo w i) = Some file ->
  decode_and_detect file (State.sensitivity s) = Decoded image faces ->
  (2 <= List.length (List.filter (inactive_loaded (State.activePhotoId s))
                                 (skipn (S i) (State.photos s))))%nat ->
  exists w',
    processPhoto i w = Returned tt w' /\
    Photo.status (photo w' i) = Detected /\
    Photo.faces (photo w' i) = faces /\
    Photo.fullCanvas (photo w' i) = None.
Proof.
  intros s Hi Hnone Hinactive Hfile Hdecode Htwo.
  unfold processPhoto, app_state. rewrite run_bind_gets. fold s.
  pose proof Hi as Hib. apply Nat.ltb_lt in Hib. rewrite Hib. cbn [negb].
  unfold photo_at at 1. rewrite run_bind_gets. fold (photo w i).
  assert (Hskip : match Photo.status (photo w i) with
                  | Detected => is_loaded (photo w i)
                  | _ => false
                  end = false).
  { unfold is_loaded. rewrite Hnone. now destruct (Photo.status _). }
  rewrite Hskip.
  unfold modify_photo at 1, modify_app at 1. rewrite run_bind_modify.
  unfold try_catch. rewrite run_bind_gets.
  cbn [World.app World.set_app State.sensitivity State.set_photos State.activePhotoId].
  fold s. rewrite Hfile. unfold loadAndDetect. rewrite Hdecode.
  rewrite run_bind_assoc. unfold bind at 1, liftG at 1.
  unfold createElement_canvas, update_canvas.
  unfold bind at 1. unfold bind at 1. unfold modify at 1. unfold ret at 1.
  rewrite run_bind_ret. cbn [fst snd].
  unfold modify_photo at 1, modify_app at 1. rewrite run_bind_modify.
  rewrite Hinactive. rewrite run_bind_ret.
  match goal with
  | |- context [evictCanvases ?w2] =>
      pose proof (evictCanvases_photos w2) as He; cbv zeta in He;
      unfold dispatch in He;
      assert (Hret : exists w3, evictCanvases w2 = Returned tt w3)
        by (eexists; reflexivity);
      destruct Hret as (w3 & Hret); rewrite Hret in He |- *; cbn [final] in He;
      set (w2' := w2) in *
  end.
  exists w3. split; [reflexivity|]. destruct He as [_ He].
  unfold photo. rewrite He. clear He Hret.
  set (load := fun p : Photo.t =>
                 Photo.set_status Detected
                   (Photo.set_faces faces
                      (Photo.set_fullCanvas (Some (Gfx.size (World.gfx w))) p))).
  set (photos := State.photos s).
  assert (Hp2 : State.photos (World.app w2')
                = adjust i load (adjust i (Photo.set_status Loading) photos))
    by reflexivity.
  assert (Ha2 : State.activePhotoId (World.app w2') = State.activePhotoId s)
    by reflexivity.
  rewrite Hp2, Ha2. clearbody w2'.
  set (a := State.activePhotoId s) in *.
  set (l2 := adjust i load (adjust i (Photo.set_status Loading) photos)).
  assert (Hl2 : List.length l2 = List.length photos).
  { unfold l2. now rewrite !length_adjust. }
  assert (Hn2 : nth i l2 no_photo = load (Photo.set_status Loading (photo w i))).
  { unfold l2. rewrite nth_adjust by (now rewrite length_adjust).
    rewrite nth_adjust by exact Hi. reflexivity. }
  assert (Hin : inactive_loaded a (nth i l2 no_photo) = true).
  { rewrite Hn2. unfold inactive_loaded, is_loaded, load. cbn.
    change (Photo.id (photo w i)) with (Photo.id (photo w i)).
    destruct (photo w i); cbn in *. now rewrite Hinactive. }
  rewrite nth_evict_first by (rewrite Hl2; exact Hi). rewrite Hin. cbn [andb].
  assert (Hcount : (List.length (List.filter (inactive_loaded a) (firstn i l2))
                    <? List.length (List.filter (inactive_loaded a) l2)
                       - (MAX_LOADED_CANVASES - 1))%nat = true).
  { apply Nat.ltb_lt.
    set (l1 := adjust i (Photo.set_status Loading) photos) in *.
    assert (Hl1 : List.length l1 = List.length photos) by apply length_adjust.
    pose proof (@filter_adjust_split _ (inactive_loaded a) load i l1 no_photo) as Hsp.
    fold l2 in Hsp. rewrite Hsp by (rewrite Hl1; exact Hi).
    replace (load (nth i l1 no_photo)) with (nth i l2 no_photo)
      by (unfold l2; apply nth_adjust; rewrite Hl1; exact Hi).
    rewrite Hin. unfold l2 at 1. rewrite firstn_adjust.
    unfold l1 at 3. rewrite skipn_adjust. fold photos in Htwo.
    unfold MAX_LOADED_CANVASES. lia. }
  rewrite Hcount, Hn2. unfold evicted, load. destruct (photo w i); cbn.
  repeat split.
Qed.

Lemma processPhoto_can_release_what_it_loaded_witness :
  let w := dispatch processQueue (@Session.four_photos reference_rasteriser) in
  exists w',
    processPhoto 1 w = Returned tt w' /\
    Photo.status (photo w' 1) = Detected /\
    Photo.faces (photo w' 1) = [] /\
    Photo.fullCanvas (photo w' 1) = None.
Proof.
  apply (@processPhoto_can_release_what_it_loaded reference_rasteriser reference_math
           reference_collaborators
           (dispatch processQueue (@Session.four_photos reference_rasteriser)) 1%nat
           (File.mk "B.jpg" "image/jpeg" 1000) (Bitmap.blank 8 8) []).
  - vm_compute. lia.
  - vm_compute. reflexivity.
  - vm_compute. reflexivity.
  - vm_compute. reflexivity.
  - reflexivity.
  - vm_compute. lia.
Defined.

(** Four photos A, B, C, D are added with A showing, and the queue loads
    them, which evicts B.  The archive of [handleDownloadAll] then holds A, C
    and D: B is loaded again, released at once, and skipped. *)
Lemma download_all_leaves_a_photo_out :
  let queued := dispatch processQueue (@Session.four_photos reference_rasteriser) in
  match @handleDownloadAll reference_rasteriser reference_math reference_collaborators
          (Some (fun _ => true)) queued with
  | Returned (Some zip) _ =>
      map fst zip = ["faceblock_A.png"; "faceblock_C.png"; "faceblock_D.png"]%string
  | _ => False
  end.
Proof. vm_compute. reflexivity. Qed.

(** ** Downloading the active photo *)

Lemma exportImage_result {RA : Rasteriser} (g g' : Gfx.t) (processedCanvas : Ref)
  (format : string) (quality : Q) (originalFilename : string)
  (filename : string) (download : Download.t) :
  exportImage processedCanvas format quality originalFilename g
    = Returned (filename, download) g' ->
  let jpeg := String.eqb format "jpeg" in
  filename = ("faceblock_"
              ++ (if negb (String.eqb originalFilename "")
                  then strip_extension originalFilename else "photo")
              ++ (if jpeg then ".jpg" else ".png"))%string /\
  Download.filename download = filename /\
  Download.blob download
  = Blob.mk (Canvas.bitmap (Gfx.cells g processedCanvas))
            (if jpeg then "image/jpeg" else "image/png") quality.
Proof.
  unfold exportImage, exportAsBlob, downloadBlob, lookup.
  rewrite run_bind_assoc, run_bind_gets.
  destruct (_ || _); rewrite !run_bind_ret; [rewrite run_bind_throw; discriminate|].
  intros [= <- <- _]. repeat split.
Qed.

(** X30.  [handleDownload] always returns: a failure of the effects or of the
    export goes no further.  A download it triggers is the active photo's:
    the file is named faceblock_ followed by the photo's original name
    without its last extension and by .jpg when the format is jpeg, .png
    otherwise, and holds an image of the matching type at the quality
    chosen. *)
Theorem handleDownload_names_the_file {RA : Rasteriser} {ML : MathLib}
  (w : World.t) (i : nat) (stem e : string) :
  active_index (World.app w) = Some i ->
  Photo.originalFilename (photo w i) = (stem ++ "." ++ e)%string ->
  e <> ""%string -> dot_free e = true ->
  let s := World.app w in
  let jpeg := String.eqb (State.format s) "jpeg" in
  exists result w',
    handleDownload w = Returned result w' /\
    forall download, result = Some download ->
      Download.filename download
        = ("faceblock_" ++ stem ++ (if jpeg then ".jpg" else ".png"))%string /\
      Blob.type (Download.blob download)
        = (if jpeg then "image/jpeg" else "image/png")%string /\
      Blob.quality (Download.blob download) = State.quality s.
Proof.
  intros Ha Hname He Hd s jpeg.
  unfold handleDownload. rewrite (run_bind_getActivePhoto _ _ Ha).
  unfold photo_at. rewrite run_bind_gets. fold (photo w i).
  destruct (Photo.fullCanvas (photo w i)) as [fullCanvas|];
    [|exists None, w; split; [reflexivity|discriminate]].
  destruct (_ =? _)%nat; [exists None, w; split; [reflexivity|discriminate]|].
  unfold try_catch, app_state. rewrite run_bind_gets. fold s.
  unfold bind at 1, liftG at 1.
  destruct (processImage _ _ _ _ _ _) as [processed g1|err g1];
    [|eexists; eexists; split; [reflexivity|discriminate]].
  unfold bind at 1, liftG at 1. cbn [World.gfx World.set_gfx].
  destruct (exportImage processed (State.format s) (State.quality s)
              (Photo.originalFilename (photo w i)) g1)
    as [[filename download] g2|err g2] eqn:Hx;
    [|eexists; eexists; split; [reflexivity|discriminate]].
  rewrite run_ret. eexists. eexists. split; [reflexivity|].
  intros d [= <-]. cbn [snd].
  apply exportImage_result in Hx. cbv zeta in Hx. destruct Hx as (Hf & Hdf & Hb).
  rewrite Hb, Hdf, Hf. cbn [Blob.type Blob.quality]. fold jpeg.
  rewrite Hname.
  assert (Hn : String.eqb (stem ++ "." ++ e) "" = false) by (destruct stem; reflexivity).
  rewrite Hn. cbn [negb]. rewrite (strip_extension_splits stem He Hd).
  repeat split.
Qed.

Lemma handleDownload_names_the_file_witness :
  let w := Session.world
             (@Example.gfx_with reference_rasteriser Example.row4 (Example.draws [] 0))
             [Photo.mk "photo-1" None "IMG_1.2024.jpeg" (Some 0%nat) None
                       [Example.detected "face-0" (Box.mk 0 0 2 1)] None None [] []
                       Detected None]
             (Some "photo-1"%string) in
  let s := World.app w in
  let jpeg := String.eqb (State.format s) "jpeg" in
  exists result w',
    handleDownload w = Returned result w' /\
    forall download, result = Some download ->
      Download.filename download
        = ("faceblock_" ++ "IMG_1.2024" ++ (if jpeg then ".jpg" else ".png"))%string /\
      Blob.type (Download.blob download)
        = (if jpeg then "image/jpeg" else "image/png")%string /\
      Blob.quality (Download.blob download) = State.quality s.
Proof.
  intros w.
  apply (@handleDownload_names_the_file reference_rasteriser reference_math
           w 0%nat "IMG_1.2024" "jpeg").
  - reflexivity.
  - reflexivity.
  - discriminate.
  - reflexivity.
Defined.

(** The download of that session. *)
Lemma handleDownload_downloads :
  let w := Session.world
             (@Example.gfx_with reference_rasteriser Example.row4 (Example.draws [] 0))
             [Photo.mk "photo-1" None "IMG_1.2024.jpeg" (Some 0%nat) None
                       [Example.detected "face-0" (Box.mk 0 0 2 1)] None None [] []
                       Detected None]
             (Some "photo-1"%string) in
  match @handleDownload reference_rasteriser reference_math w with
  | Returned (Some download) _ =>
      Download.filename download = "faceblock_IMG_1.2024.png"%string
  | _ => False
  end.
Proof. vm_compute. reflexivity. Qed.
